(* ===== verification/_CoqProject ===== *)
-Q . S2P
Prelude.v
PyString.v
Http.v
Playlist.v
Relay.v
Proxy.v
Table.v
Notes.v
Menu.v
Player.v
RadioPage.v
LinkPull.v
Stations.v
Probe.v
RadioApp.v
