(* ===== verification/Prelude.v ===== *)
(** * A verification development for the lalten web utilities

    The repository holds four small single-user web applications written
    with FastHTML: a link scraper ([src/linkpull]), a shopping list
    ([src/notes]), a menu ([src/menu]) and an internet-radio player
    ([src/radio]).  Its one component with real logic is the radio's
    stream path: [GET /proxy?url=...] ([proxy_stream] in
    [src/radio/main.py]) first resolves a playlist URL to a direct stream
    URL ([parse_playlist_url] in [src/radio/playlist_parser.py], a blocking
    [requests.get] of the playlist), then relays the origin's audio bytes to
    the browser as a chunked [StreamingResponse] ([stream_audio], an async
    generator over [httpx]'s [aiter_bytes(chunk_size=8192)]).

    ** Files, in dependency order
    - [Prelude] (this file): a free monad [io] of blocking requests with its
      runner and request log, the hint databases [lalten]/[lalten_rw], the
      tactics [invc], [case_ifs], [bool_arith], strong induction on lists.
    - [PyString]: the Python [str] methods the code calls ([endswith],
      [startswith], [strip], [splitlines], [in], ['\n'.join]) on the
      Latin-1 range of code points, with their specifications
      ([endswith_spec], [splitlines_join], [strip_edges], [strip_idem]).
    - [Http]: what [requests.get] returns or raises ([Http.get_outcome]),
      and the [http_io] instance of the monad.
    - [Playlist]: [parse_playlist_url] and its parts: the matcher of
      [re.search(r'File\d+=(.+)', line)], the PLS loop with its two
      accumulators, the M3U loop, the fallback on every exception.
    - [Relay]: httpx's [ByteChunker] (the comprehension
      [value[i:i+n] for i in range(0, len(value), n)] with its last-slice
      rule), the [aiter_bytes] loop, and [stream_audio] as a function from
      the connection result and a sequence of origin/client events to the
      trace of effects (open client, request, open response, yield, close
      response, close client) and the outcome.
    - [Proxy]: Starlette's [StreamingResponse] (start message, one body
      message per chunk, closing message) and [proxy_stream], written
      against the [PlaylistResolver] type class, which [Playlist] instantiates.
    - [Table]: the fastlite table operations the apps use, as the type
      class [Table] with its laws [TableLaws]; [GmapTable] implements it on
      stdpp's [gmap nat] with SQLite's id rule (largest id plus one).
    - [Notes], [Menu]: the handlers of [src/notes/main.py] and
      [src/menu/main.py] (page, add, archive/activate or edit/update,
      delete), each a function from the table to the new table and the
      response, written and proved against [Table]; [reachable] is the
      closure of the handlers, for invariants by rule induction.  The notes
      app's startup (table creation and the [ADD COLUMN status] migration,
      whose error is ignored) is [Notes.startup] on the stored table.
    - [Player]: the JavaScript [audio_js] of [src/radio/main.py] as a step
      function on an explicit browser state: [playStation], [pauseRadio],
      [setVolume], the media event listeners (kept on every element ever
      created, as the browser keeps them) and the [play()] promises.
    - [RadioPage]: the radio page [get] (status panel, volume slider,
      custom stream form, station buttons, random button) and
      [add_station], with [urllib.parse.quote] and [encodeURIComponent]
      (one [escape] function with two safe sets) and the query parsing
      the [/proxy] endpoint applies to its [url] parameter.
    - [LinkPull]: [get] (landing form), [scrape_links], [POST /extract], its
      results form and what the browser submits, and the [copy_js] script;
      BeautifulSoup, [urljoin] and [re] are section parameters.
    - [Stations]: [init_db] of [src/radio/db_setup.py].
    - [Probe]: the variant enumeration, [test_url] and every printed line
      of [src/radio/test_streams.py].
    - [RadioApp]: the radio's parts composed: the [/proxy] route and its
      [url] parameter, from a station button through the player to
      [proxy_stream].

    ** What the theorems show (claims C1-C40)
    - Resolver (C1-C11): direct URLs pass through with no request; a
      playlist URL costs exactly one GET with the 10 s timeout; the PLS
      branch returns the first [-mp3] candidate, else the first candidate,
      else the input, and the loop equals a filter/map specification; the
      M3U branch returns the first stripped [http] line; every exception
      falls back to the input; [re_search_file] is exactly leftmost-match
      semantics of the regular expression; PLS entries round-trip through
      the loop.  Two findings are proved: a whitespace-only entry resolves
      to [""] (C9), and for every environment a non-2xx answer to a
      playlist fetch is still parsed as a playlist, where the
      specification keeps the input URL (C10).  C11 is the refinement:
      wherever the fetch fails or answers 2xx, the result is the one the
      specification's algorithm (section 4.1, the relation [spec_resolves])
      prescribes; its witness is the specification's first example.
    - Relay (C12-C17): on normal end the chunks concatenate to the origin's
      bytes; chunks are 1..8192 bytes and all but the last exactly 8192;
      while running fewer than 8192 bytes are held and nothing is lost;
      8192 received bytes force a yield before the end (streaming); the
      resources follow the nested [async with] discipline on every path
      (a state machine accepting the trace); a disconnect stops the relay.
    - Endpoint (C18-C22): at most one resolver request, first, to the input
      URL, then the response start, then exactly one relay request to the
      resolved URL; end-to-end byte preservation with the closing message
      only on completion; a connection failure shows as a 200 with no
      body; whatever status the origin answers, the relay streams its body
      as a 200 [audio/mpeg] response (C22).
    - Notes (C23-C29): from whatever table the app finds at startup (none,
      one of the older version that the migration gives the default
      'active', or one it wrote), every request sequence keeps every status
      active or archived, never NULL (C23); every handler refines the abstract shopping list
      [spec_step] on the id-to-note map ([Table.tbl_abs] is the abstraction
      function; C24); the page partitions the stored notes into the two
      lists, newest first, and every button names a present id; an unknown
      id is a [NotFoundError] that changes nothing; and (finding, every
      table) SQLite reuses a deleted newest id, so a stale form hits a new
      note (C29).
    - Menu (C30-C32): no blank item is ever stored; edit then update
      unchanged is the identity; a blank update is accepted for any id
      while a non-blank one for an unknown id fails.
    - Player (C33-C36): the console is the window of the 20 newest lines;
      its trimming loop terminates after exactly [length - 20] iterations
      (C34); at most one element plays whatever the inputs (invariant over
      all input sequences); (finding, every state) after a switch an
      error event of any earlier element still runs its listener, which
      reports the old name and "Unknown error" (C36).
    - Radio page and app (C37-C39): the station button's URL decodes at
      [/proxy] to exactly the stored URL, for every string; [quote] always
      produces a well-formed percent-encoding, 1 to 6 characters per code
      point (C38); a click on a station button, from any player state,
      reaches [proxy_stream] with the stored URL (C39); composed with the
      startup's [Stations.init_db], on the first start every entry of
      [stations.txt] has a button that plays its URL through [/proxy]
      ([RadioApp.first_start_plays]).  The random button
      bypassing the proxy is shown by [RadioPage.random_button_unproxied],
      and the volume reset on a station switch by
      [RadioApp.volume_reset_on_switch].
    - LinkPull (C40): the extract handler fetches the cleaned URL once, its
      results form submits the cleaned inputs as they are, and resubmitting
      it reproduces the same request and page.  [copy_double_click_stuck]
      shows the copy button's label stuck after two quick clicks.

    ** Bounds and fuel
    [Relay.slices_go] recurses on fuel [length l], enough because every
    step with [n > 0] consumes at least one element ([slices_go_fuel]);
    [Player.trim_log] runs on fuel [length l], enough because each
    iteration removes one line and the loop needs [length l - 20] of them
    ([trim_log_spec], C34); the string, list and event
    functions are structural.  [chunk_size] is 8192 and [log_limit] 20 as in
    the source; the relay witnesses run 10000-byte bodies by [vm_compute].

    ** Not modelled, and why
    HTML layout and styles, timestamps, the debug console's colours, and
    the internals of the libraries (BeautifulSoup, [urljoin], [re] in the scraper, httpx and
    Starlette beyond the behaviour described above) are not modelled:
    they are presentation or library code.  Percent-decoding at [/proxy]
    is modelled on ASCII queries, which is what [quote] produces.  Network
    I/O appears only as the answers of the [io] requests and the event
    sequences of the relay.  Imports, [fast_app()] and the [serve(...)]
    calls that start the servers are not modelled; the menu app's startup
    only creates its table, empty, when it is absent. *)

From stdpp Require Import base list strings option.

(** ** A free monad of blocking requests *)

(** Code that performs a blocking request and then computes purely on the
    answer (the playlist resolver's [requests.get], the link scraper's
    [requests.get]) is modelled in a free monad: [Ret a] is a finished
    computation, [Call q k] issues the request [q] and continues with [k]
    applied to the answer.  Keeping the request explicit lets theorems count
    and inspect the requests a handler makes. *)
Inductive io (Req Resp A : Type) : Type :=
  | Ret (a : A)
  | Call (q : Req) (k : Resp -> io Req Resp A).
Arguments Ret {Req Resp A} a.
Arguments Call {Req Resp A} q k.

Fixpoint io_bind {Req Resp A B} (m : io Req Resp A)
    (f : A -> io Req Resp B) : io Req Resp B :=
  match m with
  | Ret a => f a
  | Call q k => Call q (fun r => io_bind (k r) f)
  end.

Declare Scope io_scope.
Delimit Scope io_scope with io.
Notation "'let*' x := m 'in' k" := (io_bind m (fun x => k))
  (at level 10, x name, m at level 100, k at level 200) : io_scope.

(** Running a computation against an environment that answers every
    request, and the requests it issues there, in order. *)
Fixpoint io_run {Req Resp A} (env : Req -> Resp) (m : io Req Resp A) : A :=
  match m with
  | Ret a => a
  | Call q k => io_run env (k (env q))
  end.

Fixpoint io_requests {Req Resp A} (env : Req -> Resp) (m : io Req Resp A)
    : list Req :=
  match m with
  | Ret _ => []
  | Call q k => q :: io_requests env (k (env q))
  end.

(** Bytes compare decidably (stdpp has no instance for [Byte.byte]). *)
#[export] Instance byte_eq_dec : EqDecision Byte.byte := Byte.byte_eq_dec.

(** ** Shared automation *)

(** stdpp makes [String.append] opaque to [simpl]; the proofs here compute
    with it on concrete heads. *)
#[global] Arguments String.append : simpl nomatch.

Create HintDb lalten discriminated.
Create Rewrite HintDb lalten_rw.

Ltac invc H := inversion H; subst; clear H.

(** Case analysis on the boolean tests of a goal, the way the code branches. *)
Ltac case_ifs :=
  repeat match goal with
  | |- context [if ?b then _ else _] =>
      let E := fresh "E" in destruct b eqn:E
  | H : context [if ?b then _ else _] |- _ =>
      let E := fresh "E" in destruct b eqn:E
  end.

(** Arithmetic on the boolean comparisons of [nat] that character classes
    are written with. *)
Ltac bool_arith :=
  repeat match goal with
  | |- context [?a <=? ?b] => destruct (Nat.leb_spec a b)
  | |- context [?a =? ?b] => destruct (Nat.eqb_spec a b)
  | |- context [?a <? ?b] => destruct (Nat.ltb_spec a b)
  | H : context [?a <=? ?b] |- _ => destruct (Nat.leb_spec a b)
  | H : context [?a =? ?b] |- _ => destruct (Nat.eqb_spec a b)
  | H : context [?a <? ?b] |- _ => destruct (Nat.ltb_spec a b)
  end; simpl in *; try lia; try done.

(** ** Generic lemmas on the monad *)

Lemma io_run_bind {Req Resp A B} (env : Req -> Resp) (m : io Req Resp A)
    (f : A -> io Req Resp B) :
  io_run env (io_bind m f) = io_run env (f (io_run env m)).
Proof. induction m as [a|q k IH]; simpl; auto. Qed.

Lemma io_requests_bind {Req Resp A B} (env : Req -> Resp) (m : io Req Resp A)
    (f : A -> io Req Resp B) :
  io_requests env (io_bind m f) =
    io_requests env m ++ io_requests env (f (io_run env m)).
Proof. induction m as [a|q k IH]; simpl; [done | by rewrite IH]. Qed.

#[export] Hint Rewrite @io_run_bind @io_requests_bind   : lalten_rw.

(** ** Generic lemmas on lists *)

(** Strong induction on the length of a list. *)
Lemma list_len_ind {A} (P : list A -> Prop) :
  (forall l, (forall l', length l' < length l -> P l') -> P l) ->
  forall l, P l.
Proof.
  intros H l. remember (length l) as n eqn:Hn.
  revert l Hn. induction n as [n IH] using lt_wf_ind.
  intros l ->. apply H. intros l' Hl'. eauto.
Qed.

Lemma concat_app_singleton {A} (ls : list (list A)) (l : list A) :
  concat (ls ++ [l]) = concat ls ++ l.
Proof. rewrite concat_app; simpl; by rewrite app_nil_r. Qed.

Lemma head_app_Some {A} (l1 l2 : list A) x :
  head l1 = Some x -> head (l1 ++ l2) = Some x.
Proof. by destruct l1. Qed.

Lemma head_app_nil {A} (l1 l2 : list A) :
  l1 = [] -> head (l1 ++ l2) = head l2.
Proof. by intros ->. Qed.

#[export] Hint Resolve head_app_Some : lalten.
#[export] Hint Rewrite @concat_app_singleton : lalten_rw.
