(* ===== verification/PyString.v ===== *)
(** * Python [str] methods used by the sources

    The playlist resolver ([src/radio/playlist_parser.py]) works on Python
    strings with [str.endswith], [str.startswith], [str.strip],
    [str.splitlines] and the [in] operator; the notes, menu and link
    scraper handlers use [strip], [startswith] and ['\n'.join].  Python strings are sequences of
    Unicode code points; the model takes the first 256 code points (Latin-1,
    which contains ASCII), one [ascii] value per code point, and gives each
    method the CPython behaviour on that range: [isspace] includes
    [\x1c]..[\x1f], [\x85] and [\xa0]; [splitlines] breaks at [\n], [\r],
    [\r\n], [\x0b], [\x0c], [\x1c], [\x1d], [\x1e] and [\x85]. *)

From stdpp Require Import base list strings option.
From Stdlib Require Import Ascii.
From S2P Require Import Prelude.

Module PyString.

Definition code (c : ascii) : nat := Ascii.nat_of_ascii c.

Lemma ascii_of_code c : ascii_of_nat (code c) = c.
Proof. apply Ascii.ascii_nat_embedding. Qed.

(** [str.isspace] on one code point. *)
Definition isspace (c : ascii) : bool :=
  let n := code c in
  ((9 <=? n) && (n <=? 13)) || ((28 <=? n) && (n <=? 32))
  || (n =? 133) || (n =? 160).

(** The line boundaries of [str.splitlines]. *)
Definition is_linebreak (c : ascii) : bool :=
  let n := code c in
  ((10 <=? n) && (n <=? 13)) || ((28 <=? n) && (n <=? 30)) || (n =? 133).

Definition is_cr (c : ascii) : bool := code c =? 13.
Definition is_lf (c : ascii) : bool := code c =? 10.

(** [str.startswith]: the prefix test. *)
Definition startswith (s prefix : string) : bool := String.prefix prefix s.

(** [str.endswith], as CPython's [tailmatch]: the suffix is no longer than
    the string and equals its last [len(suffix)] code points. *)
Definition endswith (s suffix : string) : bool :=
  let n := String.length s in
  let m := String.length suffix in
  (m <=? n) && String.eqb (String.substring (n - m) m s) suffix.

(** [sub in s]: some suffix of [s] starts with [sub]. *)
Fixpoint contains (s sub : string) : bool :=
  String.prefix sub s ||
  match s with
  | EmptyString => false
  | String _ r => contains r sub
  end.

(** [str.strip()] with no argument: drop leading and trailing whitespace. *)
Fixpoint lstrip (s : string) : string :=
  match s with
  | EmptyString => EmptyString
  | String c r => if isspace c then lstrip r else s
  end.

Fixpoint rstrip (s : string) : string :=
  match s with
  | EmptyString => EmptyString
  | String c r =>
      match rstrip r with
      | EmptyString => if isspace c then EmptyString else String c EmptyString
      | r' => String c r'
      end
  end.

Definition strip (s : string) : string := rstrip (lstrip s).

(** [str.splitlines()] with [keepends=False]: the lines between the
    boundaries, a final boundary not opening an empty last line, and [\r\n]
    counting as one boundary. *)
Definition cons_char (c : ascii) (ls : list string) : list string :=
  match ls with
  | [] => [String c EmptyString]
  | l :: ls' => String c l :: ls'
  end.

Fixpoint splitlines (s : string) : list string :=
  match s with
  | EmptyString => []
  | String c r =>
      if is_linebreak c then
        EmptyString ::
          (if is_cr c then
             match r with
             | String c2 r2 => if is_lf c2 then splitlines r2 else splitlines r
             | EmptyString => []
             end
           else splitlines r)
      else cons_char c (splitlines r)
  end.

(** Predicates used in the statements. *)
Fixpoint str_forallb (p : ascii -> bool) (s : string) : bool :=
  match s with
  | EmptyString => true
  | String c r => p c && str_forallb p r
  end.

Definition no_linebreak (s : string) : bool :=
  str_forallb (fun c => negb (is_linebreak c)) s.

Definition str_head (s : string) : option ascii :=
  match s with EmptyString => None | String c _ => Some c end.

Fixpoint str_last (s : string) : option ascii :=
  match s with
  | EmptyString => None
  | String c EmptyString => Some c
  | String _ r => str_last r
  end.

(** ** Lemmas on the string primitives *)

Lemma append_empty_r (s : string) : s +:+ EmptyString = s.
Proof. induction s; simpl; congruence. Qed.

Lemma append_assoc (s1 s2 s3 : string) :
  s1 +:+ (s2 +:+ s3) = (s1 +:+ s2) +:+ s3.
Proof. induction s1; simpl; congruence. Qed.

Lemma length_append (s1 s2 : string) :
  String.length (s1 +:+ s2) = String.length s1 + String.length s2.
Proof. induction s1; simpl; lia. Qed.

Lemma prefix_spec (p s : string) :
  String.prefix p s = true <-> exists r, s = p +:+ r.
Proof.
  revert s; induction p as [|c p IH]; intros [|d s]; simpl.
  - split; eauto.
  - split; eauto.
  - split; [discriminate | intros [r Hr]; discriminate].
  - destruct (ascii_dec c d) as [->|Hne].
    + rewrite IH. split; intros [r Hr]; exists r; congruence.
    + split; [discriminate | intros [r Hr]; congruence].
Qed.

Lemma substring_append_l (s1 s2 : string) :
  String.substring 0 (String.length s1) (s1 +:+ s2) = s1.
Proof. induction s1; simpl; [by destruct s2 | congruence]. Qed.

Lemma substring_append_r (s1 s2 : string) :
  String.substring (String.length s1) (String.length s2) (s1 +:+ s2) = s2.
Proof.
  induction s1; simpl; [|done].
  induction s2; simpl; congruence.
Qed.

Lemma substring_split (s : string) k :
  k <= String.length s ->
  s = String.substring 0 k s +:+ String.substring k (String.length s - k) s.
Proof.
  revert k; induction s as [|c s IH]; intros [|k] Hk; simpl in *; try lia.
  - done.
  - f_equal. clear IH Hk. induction s; simpl; congruence.
  - f_equal. apply IH. lia.
Qed.

Lemma length_substring_le (s : string) n m :
  n + m <= String.length s ->
  String.length (String.substring n m s) = m.
Proof.
  revert n m; induction s as [|c s IH]; intros [|n] [|m] H; simpl in *;
    try lia; try done; rewrite IH; lia.
Qed.

Lemma startswith_spec (s p : string) :
  startswith s p = true <-> exists r, s = p +:+ r.
Proof. apply prefix_spec. Qed.

Lemma endswith_spec (s suffix : string) :
  endswith s suffix = true <-> exists pre, s = pre +:+ suffix.
Proof.
  unfold endswith. rewrite andb_true_iff, Nat.leb_le, String.eqb_eq. split.
  - intros [Hle Heq].
    pose proof (substring_split s (String.length s - String.length suffix)
                  ltac:(lia)) as Hs.
    replace (String.length s - (String.length s - String.length suffix))
      with (String.length suffix) in Hs by lia.
    rewrite Heq in Hs. eauto.
  - intros [pre ->]. rewrite length_append. split; [lia|].
    replace (String.length pre + String.length suffix - String.length suffix)
      with (String.length pre) by lia.
    apply substring_append_r.
Qed.

Lemma endswith_append (pre suffix : string) :
  endswith (pre +:+ suffix) suffix = true.
Proof. apply endswith_spec. eauto. Qed.

#[export] Hint Resolve endswith_append : lalten.

(** The one-character string [\n]. *)
Definition newline : string := String "010"%char EmptyString.

(** ['\n'.join(ls)], the inverse of [splitlines] on plain lines. *)
Definition join_lines (ls : list string) : string := String.concat newline ls.

Lemma string_len_ind (P : string -> Prop) :
  (forall s, (forall t, String.length t < String.length s -> P t) -> P s) ->
  forall s, P s.
Proof.
  intros H s. remember (String.length s) as n eqn:Hn.
  revert s Hn. induction n as [n IH] using lt_wf_ind.
  intros s ->. apply H. intros t Ht. eauto.
Qed.

Lemma no_linebreak_cons c s :
  no_linebreak (String c s) = negb (is_linebreak c) && no_linebreak s.
Proof. reflexivity. Qed.

Lemma Forall_cons_char c ls :
  is_linebreak c = false ->
  Forall (fun l => no_linebreak l = true) ls ->
  Forall (fun l => no_linebreak l = true) (cons_char c ls).
Proof.
  intros Hc Hls. destruct ls as [|l ls]; simpl.
  - constructor; [by rewrite no_linebreak_cons, Hc | constructor].
  - inversion Hls; subst. constructor; [|done].
    by rewrite no_linebreak_cons, Hc.
Qed.

(** Every line [splitlines] returns is free of line boundaries. *)
Lemma splitlines_no_linebreak s :
  Forall (fun l => no_linebreak l = true) (splitlines s).
Proof.
  induction s as [s IH] using string_len_ind.
  destruct s as [|c r]; simpl; [constructor|].
  assert (Hr : Forall (fun l => no_linebreak l = true) (splitlines r))
    by (apply IH; simpl; lia).
  destruct (is_linebreak c) eqn:Hc; [|by apply Forall_cons_char].
  constructor; [done|].
  destruct (is_cr c); [|done].
  destruct r as [|c2 r2]; [constructor|].
  destruct (is_lf c2); [|done]. apply IH. simpl. lia.
Qed.

Lemma splitlines_line_nl l r :
  no_linebreak l = true ->
  splitlines (l +:+ String "010"%char r) = l :: splitlines r.
Proof.
  induction l as [|c l IH]; simpl; [done|].
  rewrite no_linebreak_cons, andb_true_iff, negb_true_iff.
  intros [-> Hl]. by rewrite IH.
Qed.

Lemma splitlines_single l :
  no_linebreak l = true -> l <> EmptyString -> splitlines l = [l].
Proof.
  induction l as [|c l IH]; [done|].
  rewrite no_linebreak_cons, andb_true_iff, negb_true_iff.
  intros [Hc Hl] _. simpl. rewrite Hc.
  destruct l as [|c' l']; [done|]. by rewrite IH.
Qed.

(** Round trip: lines free of boundaries, joined with [\n], split back to
    themselves (the last one must be non-empty: Python drops a trailing
    empty line). *)
Lemma splitlines_join ls :
  Forall (fun l => no_linebreak l = true) ls ->
  list.last ls <> Some EmptyString ->
  splitlines (join_lines ls) = ls.
Proof.
  unfold join_lines.
  induction ls as [|l [|l2 ls] IH]; intros Hall Hlast; [done| |].
  - inversion Hall; subst. simpl in *.
    apply splitlines_single; [done|]. congruence.
  - inversion Hall; subst. simpl.
    change (l +:+ String "010"%char (String.concat newline (l2 :: ls)))
      with (l +:+ String "010"%char (String.concat newline (l2 :: ls))).
    rewrite splitlines_line_nl by done. f_equal. apply IH; [done|].
    simpl in *. destruct ls; done.
Qed.

(** [strip] removes whitespace on both ends and nothing else. *)
Lemma lstrip_head s :
  match str_head (lstrip s) with Some c => isspace c = false | None => True end.
Proof. induction s as [|c r IH]; simpl; [done|]. destruct (isspace c) eqn:E; simpl; auto. Qed.

Lemma rstrip_nonempty_last s :
  match str_last (rstrip s) with Some c => isspace c = false | None => True end.
Proof.
  induction s as [|c r IH]; simpl; [done|].
  destruct (rstrip r) as [|c' r'] eqn:E.
  - destruct (isspace c) eqn:Ec; simpl; auto.
  - simpl in *. exact IH.
Qed.

Lemma rstrip_str_head s :
  str_head (rstrip s) = None \/ str_head (rstrip s) = str_head s.
Proof.
  destruct s as [|c r]; simpl; [auto|].
  destruct (rstrip r); [destruct (isspace c)|]; simpl; auto.
Qed.

Lemma strip_edges s :
  match str_head (strip s) with Some c => isspace c = false | None => True end /\
  match str_last (strip s) with Some c => isspace c = false | None => True end.
Proof.
  unfold strip. split; [|apply rstrip_nonempty_last].
  pose proof (lstrip_head s) as H.
  destruct (rstrip_str_head (lstrip s)) as [-> | ->]; done.
Qed.

Lemma rstrip_cons c r :
  rstrip (String c r) =
    match rstrip r with
    | EmptyString => if isspace c then EmptyString else String c EmptyString
    | r' => String c r'
    end.
Proof. reflexivity. Qed.

(** [strip] leaves a string alone when neither end is whitespace. *)
Lemma strip_id s :
  match str_head s with Some c => isspace c = false | None => True end ->
  match str_last s with Some c => isspace c = false | None => True end ->
  strip s = s.
Proof.
  intros Hh Hl. unfold strip. replace (lstrip s) with s by (destruct s; simpl in *; [done|by rewrite Hh]).
  clear Hh. induction s as [|c r IH]; [done|]. rewrite rstrip_cons.
  destruct r as [|d r']; simpl in Hl; [by rewrite Hl|]. by rewrite IH.
Qed.

Lemma strip_idem s : strip (strip s) = strip s.
Proof. destruct (strip_edges s). by apply strip_id. Qed.

Lemma str_last_append s t : t <> EmptyString -> str_last (s +:+ t) = str_last t.
Proof.
  intros Ht. induction s as [|c s IH]; [done|]. simpl.
  destruct (s +:+ t) eqn:E; [|done]. destruct s, t; simpl in E; congruence.
Qed.

Lemma endswith_append_same_length (pre suf suf' : string) :
  String.length suf = String.length suf' ->
  endswith (pre +:+ suf) suf' = String.eqb suf suf'.
Proof.
  intros Hlen. unfold endswith. rewrite length_append, <- Hlen.
  replace (String.length pre + String.length suf - String.length suf)
    with (String.length pre) by lia.
  rewrite substring_append_r. destruct (String.length suf <=? _) eqn:E; [done|].
  apply Nat.leb_gt in E. lia.
Qed.

(** A URL cannot end in both [.pls] and [.m3u]. *)
Lemma endswith_m3u_not_pls (s : string) :
  endswith s ".m3u" = true -> endswith s ".pls" = false.
Proof.
  intros H. apply endswith_spec in H as [pre ->].
  by apply endswith_append_same_length.
Qed.

Lemma no_linebreak_app s1 s2 :
  no_linebreak (s1 +:+ s2) = no_linebreak s1 && no_linebreak s2.
Proof.
  induction s1 as [|c s1 IH]; [done|]. simpl String.append.
  rewrite !no_linebreak_cons, IH. apply andb_assoc.
Qed.

Lemma str_forallb_impl (p q : ascii -> bool) s :
  (forall c, p c = true -> q c = true) ->
  str_forallb p s = true -> str_forallb q s = true.
Proof.
  intros Hpq. induction s; simpl; [done|].
  rewrite !andb_true_iff. intros [? ?]; auto.
Qed.

(** A string of whitespace strips to the empty string. *)
Lemma strip_all_space s :
  str_forallb isspace s = true -> strip s = EmptyString.
Proof.
  unfold strip. induction s as [|c r IH]; simpl; [done|].
  rewrite andb_true_iff. intros [-> Hr]. by apply IH.
Qed.

End PyString.
