(* ===== verification/Http.v ===== *)
(** * The blocking HTTP client the sources call ([requests])

    [requests.get(url, timeout=t)] either returns a response, whatever its
    status code, or raises one of the [requests.exceptions]; only
    [Response.raise_for_status()] turns a 4xx/5xx status into an exception
    ([HTTPError]).  [Response.text] decodes with replacement characters and
    does not raise.  This file gives that interface as data: the request, the
    response, the exceptions and the free-monad instance in which the
    resolver ([src/radio/playlist_parser.py]) and the link scraper
    ([src/linkpull/main.py]) are written. *)

From stdpp Require Import base list strings option.
From S2P Require Import Prelude.

Module Http.

(** The exceptions [requests.get] raises.  [ConnectTimeout] is both a
    [Timeout] and a [ConnectionError] in the library's class hierarchy. *)
Inductive request_error :=
  | ConnectTimeout
  | ReadTimeout
  | ConnectionError
  | MissingSchema
  | InvalidURL
  | TooManyRedirects
  | OtherRequestException.

Record response := mk_response {
  status_code : nat;
  reason : string;
  text : string
}.

Inductive get_outcome :=
  | Responded (r : response)
  | Raised (e : request_error).

Record get_request := mk_get {
  req_url : string;
  req_timeout : nat
}.

#[export] Instance request_error_eq_dec : EqDecision request_error.
Proof. solve_decision. Defined.
#[export] Instance response_eq_dec : EqDecision response.
Proof. solve_decision. Defined.
#[export] Instance get_outcome_eq_dec : EqDecision get_outcome.
Proof. solve_decision. Defined.
#[export] Instance get_request_eq_dec : EqDecision get_request.
Proof. solve_decision. Defined.

(** Computations that issue blocking GET requests. *)
Abbreviation http_io := (io get_request get_outcome).

(** [Response.ok]: the status is below 400. *)
Definition ok (r : response) : bool := status_code r <? 400.

(** An environment that serves one fixed body with status 200 and fails
    every other URL: used by the witnesses. *)
Definition serve (url body : string) : get_request -> get_outcome :=
  fun q => if decide (req_url q = url)
           then Responded (mk_response 200 "OK" body)
           else Raised ConnectionError.

End Http.
