(* ===== verification/Playlist.v ===== *)
(** * The playlist resolver: [src/radio/playlist_parser.py]

    [parse_playlist_url(url)] returns [url] unchanged unless it ends in
    [.pls] or [.m3u]; otherwise it fetches the URL once (timeout 10 s), and
    - for [.pls], collects the group of [re.search(r'File\d+=(.+)', line)]
      on every line, stripped, preferring the first one containing [-mp3];
    - for [.m3u], takes the first stripped line starting with [http];
    - falls back to [url] when nothing is found or the fetch raises.

    Module [Playlist] holds the regular-expression matcher (with its
    relational specification), the PLS and M3U scans (with declarative
    specifications), and [parse_playlist_url] as an [Http.http_io]
    computation. *)

From stdpp Require Import base list strings option.
From Stdlib Require Import Ascii.
From S2P Require Import Prelude PyString Http.

Module Playlist.
Import PyString.

(** ** The regular expression [File\d+=(.+)] under [re.search] *)

(** [\d] on the Latin-1 range: the ASCII digits. *)
Definition is_re_digit (c : ascii) : bool := (48 <=? code c) && (code c <=? 57).

(** [.] matches every code point but [\n]. *)
Definition is_re_dot (c : ascii) : bool := negb (code c =? 10).

(** The greedy run of characters satisfying [p], and what follows it. *)
Fixpoint span (p : ascii -> bool) (s : string) : string * string :=
  match s with
  | EmptyString => (EmptyString, EmptyString)
  | String c r =>
      if p c then let '(a, b) := span p r in (String c a, b)
      else (EmptyString, s)
  end.

Fixpoint strip_prefix (p s : string) : option string :=
  match p, s with
  | EmptyString, _ => Some s
  | String c p', String d s' =>
      if decide (c = d) then strip_prefix p' s' else None
  | String _ _, EmptyString => None
  end.

(** The pattern anchored at the start of [s]: [File], a maximal run of
    digits (a shorter run would be followed by a digit, not [=], so the
    engine's backtracking over [\d+] finds nothing else), [=], and the
    greedy [(.+)], which is group 1. *)
Definition match_file_at (s : string) : option string :=
  match strip_prefix "File" s with
  | None => None
  | Some r1 =>
      let '(ds, r2) := span is_re_digit r1 in
      if String.eqb ds EmptyString then None else
      match r2 with
      | String c r3 =>
          if Ascii.eqb c "="%char then
            let '(v, _) := span is_re_dot r3 in
            if String.eqb v EmptyString then None else Some v
          else None
      | EmptyString => None
      end
  end.

(** [re.search]: the leftmost starting position where the pattern matches;
    [match.group(1)] of that match. *)
Fixpoint re_search_file (s : string) : option string :=
  match match_file_at s with
  | Some v => Some v
  | None =>
      match s with
      | EmptyString => None
      | String _ r => re_search_file r
      end
  end.

(** ** The PLS scan: lines 20-35 *)

Definition has_mp3 (u : string) : bool := contains u "-mp3".

(** One iteration of [for line in content.splitlines()]: the accumulators
    are [(mp3_urls, all_urls)]. *)
Definition pls_step (acc : list string * list string) (line : string)
    : list string * list string :=
  let '(mp3_urls, all_urls) := acc in
  match re_search_file line with
  | Some g =>
      let stream_url := strip g in
      (if has_mp3 stream_url then mp3_urls ++ [stream_url] else mp3_urls,
       all_urls ++ [stream_url])
  | None => acc
  end.

Definition pls_scan (content : string) : list string * list string :=
  fold_left pls_step (splitlines content) ([], []).

(** [if mp3_urls: return mp3_urls[0] elif all_urls: return all_urls[0]],
    [None] for falling through to the fallback. *)
Definition pls_choice (content : string) : option string :=
  let '(mp3_urls, all_urls) := pls_scan content in
  match mp3_urls with
  | u :: _ => Some u
  | [] => head all_urls
  end.

(** ** The M3U scan: lines 37-42 *)

Fixpoint m3u_first (lines : list string) : option string :=
  match lines with
  | [] => None
  | line :: rest =>
      let line := strip line in
      if startswith line "http" then Some line else m3u_first rest
  end.

Definition m3u_choice (content : string) : option string :=
  m3u_first (splitlines content).

(** ** [parse_playlist_url] *)

Definition is_playlist_url (url : string) : bool :=
  endswith url ".pls" || endswith url ".m3u".

(** What the [try] block computes from the fetched text (lines 15-45). *)
Definition parse_content (url content : string) : string :=
  if endswith url ".pls" then default url (pls_choice content)
  else if endswith url ".m3u" then default url (m3u_choice content)
  else url.

Definition resolver_timeout : nat := 10.

(** Lines 4-49: one [requests.get] for a playlist URL, every exception
    caught and answered with the original URL. *)
Definition parse_playlist_url (url : string) : Http.http_io string :=
  if negb (is_playlist_url url) then Ret url
  else Call (Http.mk_get url resolver_timeout) (fun o =>
    match o with
    | Http.Responded resp => Ret (parse_content url (Http.text resp))
    | Http.Raised _ => Ret url
    end).

(** Running the resolver against an environment. *)
Definition resolve (env : Http.get_request -> Http.get_outcome) (url : string)
    : string :=
  io_run env (parse_playlist_url url).

(** ** Specifications *)

(** [b] is empty or starts with a character that fails [p]: a greedy run of
    [p] cannot be extended into [b]. *)
Definition stops (p : ascii -> bool) (b : string) : bool :=
  match b with EmptyString => true | String c _ => negb (p c) end.

(** The relational semantics of [File\d+=(.+)] matched at the start of [s]
    with group [v]: a non-empty digit run between [File] and [=], a
    non-empty group of non-newline characters, and (greedy [.+]) the group
    extends to the end of the string or to a newline. *)
Definition re_match_at (s v : string) : Prop :=
  exists ds rest,
    s = "File" +:+ ds +:+ "=" +:+ v +:+ rest /\
    ds <> EmptyString /\ str_forallb is_re_digit ds = true /\
    v <> EmptyString /\ str_forallb is_re_dot v = true /\
    stops is_re_dot rest = true.

(** ** Lemmas on the matcher *)

Lemma span_app p s :
  let '(a, b) := span p s in
  s = a +:+ b /\ str_forallb p a = true /\ stops p b = true.
Proof.
  induction s as [|c r IH]; simpl; [done|].
  destruct (p c) eqn:Hc; simpl.
  - destruct (span p r) as [a b]. destruct IH as (-> & Ha & Hb).
    simpl. rewrite Hc. auto.
  - rewrite Hc. auto.
Qed.

Lemma span_unique p a b :
  str_forallb p a = true -> stops p b = true ->
  span p (a +:+ b) = (a, b).
Proof.
  induction a as [|c a IH]; simpl.
  - intros _ Hb. destruct b as [|c b]; simpl in *; [done|].
    apply negb_true_iff in Hb. by rewrite Hb.
  - rewrite andb_true_iff. intros [Hc Ha] Hb. rewrite Hc, IH; auto.
Qed.

Lemma strip_prefix_spec p s r :
  strip_prefix p s = Some r <-> s = p +:+ r.
Proof.
  revert s; induction p as [|c p IH]; intros [|d s]; simpl;
    try (split; congruence).
  case_decide; subst.
  - rewrite IH. split; congruence.
  - split; congruence.
Qed.

Lemma strip_prefix_app p r : strip_prefix p (p +:+ r) = Some r.
Proof. by apply strip_prefix_spec. Qed.

(** The matcher decides the relational semantics: it returns exactly the
    group of the (unique) match at the start of the string. *)
Lemma match_file_at_spec s v :
  match_file_at s = Some v <-> re_match_at s v.
Proof.
  unfold match_file_at, re_match_at. split.
  - destruct (strip_prefix "File" s) as [r1|] eqn:H1; [|done].
    apply strip_prefix_spec in H1 as ->.
    pose proof (span_app is_re_digit r1) as Hd.
    destruct (span is_re_digit r1) as [ds r2]. destruct Hd as (-> & Hds & Hr2).
    destruct (String.eqb_spec ds EmptyString) as [|Hne]; [done|].
    destruct r2 as [|c r3]; [done|].
    destruct (Ascii.eqb_spec c "="%char) as [->|]; [|done].
    pose proof (span_app is_re_dot r3) as Hv.
    destruct (span is_re_dot r3) as [v' rest]. destruct Hv as (-> & Hv' & Hrest).
    destruct (String.eqb_spec v' EmptyString); [done|].
    intros [= <-]. exists ds, rest. repeat split; auto.
  - intros (ds & rest & -> & Hne & Hds & Hv & Hvd & Hrest).
    rewrite strip_prefix_app, span_unique by done.
    destruct (String.eqb_spec ds EmptyString); [done|]. simpl.
    rewrite span_unique by done.
    by destruct (String.eqb_spec v EmptyString).
Qed.

(** [re.search] semantics: the match starting at the leftmost position
    where the pattern matches at all. *)
Definition leftmost_match (line v : string) : Prop :=
  exists pre rest,
    line = pre +:+ rest /\ re_match_at rest v /\
    forall pre' rest' v', line = pre' +:+ rest' ->
      String.length pre' < String.length pre -> ~ re_match_at rest' v'.

Lemma leftmost_match_here line v :
  match_file_at line = Some v -> leftmost_match line v.
Proof.
  intros H. exists EmptyString, line. split; [done|].
  split; [by apply match_file_at_spec|]. simpl. lia.
Qed.

Lemma leftmost_match_cons c r v :
  match_file_at (String c r) = None ->
  leftmost_match (String c r) v <-> leftmost_match r v.
Proof.
  intros Hnone. split.
  - intros ([|c' pre] & rest & Heq & Hm & Hmin); simpl in Heq.
    + subst. apply match_file_at_spec in Hm. congruence.
    + injection Heq as <- Heq. subst r. exists pre, rest. split; [done|]. split; [done|].
      intros pre' rest' v' Heq Hlt. apply (Hmin (String c pre')); simpl;
        [by rewrite Heq|lia].
  - intros (pre & rest & Heq & Hm & Hmin). subst r. exists (String c pre), rest.
    split; [done|]. split; [done|].
    intros [|c' pre'] rest' v' Heq Hlt Hm'; simpl in Heq, Hlt.
    + subst. apply match_file_at_spec in Hm'. simpl in Hnone. congruence.
    + injection Heq as <- Heq. apply (Hmin pre' rest' v'); [done|lia|done].
Qed.

(** [re_search_file] returns the group of the leftmost match, and finds a
    match whenever there is one. *)
Lemma re_search_file_spec line v :
  re_search_file line = Some v <-> leftmost_match line v.
Proof.
  induction line as [|c r IH]; simpl.
  - split; [done|]. intros ([|] & rest & Heq & Hm & _); [|done].
    simpl in Heq. subst. apply match_file_at_spec in Hm. done.
  - destruct (match_file_at (String c r)) as [v'|] eqn:Hm.
    + split; [intros [= <-]; by apply leftmost_match_here|].
      intros ([|c' pre] & rest & Heq & Hmr & Hmin); simpl in Heq.
      * subst. apply match_file_at_spec in Hmr. congruence.
      * exfalso. apply (Hmin EmptyString (String c r) v'); simpl; [done|lia|].
        by apply match_file_at_spec.
    + rewrite leftmost_match_cons by done. apply IH.
Qed.

(** ** The PLS and M3U scans against declarative specifications *)

(** The candidates of a PLS body: the stripped group of every line where
    the pattern is found, in file order. *)
Definition pls_candidates (content : string) : list string :=
  map strip (omap re_search_file (splitlines content)).

Lemma fold_pls_step lines m a :
  fold_left pls_step lines (m, a) =
    (m ++ List.filter has_mp3 (map strip (omap re_search_file lines)),
     a ++ map strip (omap re_search_file lines)).
Proof.
  revert m a; induction lines as [|l lines IH]; intros m a; simpl.
  - by rewrite !app_nil_r.
  - destruct (re_search_file l) as [g|]; simpl; rewrite IH; [|done].
    destruct (has_mp3 (strip g)); simpl; by rewrite <- !app_assoc.
Qed.

(** The M3U loop returns the first stripped line starting with [http]. *)
Lemma m3u_first_spec lines :
  m3u_first lines =
    head (List.filter (fun l => startswith l "http") (map strip lines)).
Proof.
  induction lines as [|l lines IH]; simpl; [done|].
  by destruct (startswith (strip l) "http").
Qed.

Lemma resolve_responded env url r :
  is_playlist_url url = true ->
  env (Http.mk_get url resolver_timeout) = Http.Responded r ->
  resolve env url = parse_content url (Http.text r).
Proof.
  intros Hp Henv. unfold resolve, parse_playlist_url.
  rewrite Hp. simpl. by rewrite Henv.
Qed.

Lemma is_playlist_pls url : endswith url ".pls" = true -> is_playlist_url url = true.
Proof. unfold is_playlist_url. by intros ->. Qed.

Lemma is_playlist_m3u url : endswith url ".m3u" = true -> is_playlist_url url = true.
Proof. unfold is_playlist_url. intros ->. apply orb_true_r. Qed.

(** ** PLS entries and their recovery *)

(** A PLS entry line [File<n>=<u>]. *)
Definition pls_entry (n u : string) : string := "File" +:+ n +:+ "=" +:+ u.

Definition valid_index (n : string) : bool :=
  negb (String.eqb n EmptyString) && str_forallb is_re_digit n.

(** A URL as a PLS file carries it: non-empty, on one line, and with no
    surrounding whitespace. *)
Definition valid_entry_url (u : string) : bool :=
  negb (String.eqb u EmptyString) && no_linebreak u && String.eqb (strip u) u.

Lemma re_digit_not_linebreak c : is_re_digit c = true -> is_linebreak c = false.
Proof. unfold is_re_digit, is_linebreak. bool_arith. Qed.

Lemma linebreak_free_dot s : no_linebreak s = true -> str_forallb is_re_dot s = true.
Proof.
  apply str_forallb_impl. intros c. unfold is_re_dot, is_linebreak. bool_arith.
Qed.

Lemma re_search_file_eq s :
  re_search_file s =
    match match_file_at s with
    | Some v => Some v
    | None => match s with EmptyString => None | String _ r => re_search_file r end
    end.
Proof. by destruct s. Qed.

Lemma re_search_file_here s v : match_file_at s = Some v -> re_search_file s = Some v.
Proof. rewrite re_search_file_eq. by intros ->. Qed.

Lemma re_search_pls_entry n u :
  valid_index n = true -> u <> EmptyString -> no_linebreak u = true ->
  re_search_file (pls_entry n u) = Some u.
Proof.
  unfold valid_index. rewrite andb_true_iff, negb_true_iff.
  intros [Hn Hd] Hu Hl. apply re_search_file_here, match_file_at_spec.
  exists n, EmptyString. rewrite append_empty_r.
  repeat split; auto using linebreak_free_dot.
  by destruct (String.eqb_spec n EmptyString).
Qed.

Lemma no_linebreak_pls_entry n u :
  valid_index n = true -> no_linebreak u = true -> no_linebreak (pls_entry n u) = true.
Proof.
  unfold valid_index, pls_entry. rewrite andb_true_iff. intros [_ Hd] Hu.
  rewrite !no_linebreak_app, Hu, !andb_true_r. simpl.
  unfold no_linebreak. revert Hd. apply str_forallb_impl.
  intros c Hc. by rewrite re_digit_not_linebreak.
Qed.

Lemma last_zip_with_pls_entry ns us :
  list.last (zip_with pls_entry ns us) <> Some EmptyString.
Proof.
  revert us; induction ns as [|n ns IH]; intros [|u us]; simpl; try done.
  destruct (zip_with pls_entry ns us) eqn:E.
  - simpl. intros [= H].
  - change (list.last (s :: l) <> Some EmptyString). rewrite <- E. apply IH.
Qed.

(** ** Properties of the resolver *)

(** C1: a URL that does not end in [.pls] or [.m3u] (case-sensitively) is
    returned unchanged, and no request is made. *)
Theorem parse_playlist_url_direct url :
  is_playlist_url url = false -> parse_playlist_url url = Ret url.
Proof. unfold parse_playlist_url. by intros ->. Qed.

Lemma parse_playlist_url_direct_witness :
  is_playlist_url "http://radio.example/list.PLS" = false /\
  parse_playlist_url "http://radio.example/list.PLS" =
    Ret "http://radio.example/list.PLS".
Proof.
  split; [vm_compute; reflexivity|].
  apply parse_playlist_url_direct. vm_compute. reflexivity.
Defined.

(** C2: for a playlist URL the resolver issues exactly one request, a GET of
    the URL itself with the 10-second timeout, whatever the answer. *)
Theorem parse_playlist_url_fetch_once env url :
  is_playlist_url url = true ->
  io_requests env (parse_playlist_url url) = [Http.mk_get url resolver_timeout].
Proof.
  unfold parse_playlist_url. intros ->. simpl.
  by destruct (env (Http.mk_get url resolver_timeout)).
Qed.

Lemma parse_playlist_url_fetch_once_witness :
  is_playlist_url "http://a/p.m3u" = true /\
  io_requests (Http.serve "http://a/p.m3u" "") (parse_playlist_url "http://a/p.m3u")
    = [Http.mk_get "http://a/p.m3u" resolver_timeout].
Proof.
  split; [vm_compute; reflexivity|].
  apply parse_playlist_url_fetch_once. vm_compute. reflexivity.
Defined.

(** C3: for a [.pls] URL whose fetch returns a response, the result is the
    first candidate containing [-mp3], else the first candidate, else the
    original URL; the candidates are the stripped [File<N>=] values in file
    order. *)
Theorem resolve_pls_preference env url r :
  endswith url ".pls" = true ->
  env (Http.mk_get url resolver_timeout) = Http.Responded r ->
  resolve env url =
    match List.filter has_mp3 (pls_candidates (Http.text r)) with
    | u :: _ => u
    | [] => default url (head (pls_candidates (Http.text r)))
    end.
Proof.
  intros Hpls Henv. rewrite (resolve_responded _ _ r) by auto using is_playlist_pls.
  unfold parse_content, pls_choice, pls_scan. rewrite Hpls, fold_pls_step.
  simpl. by destruct (List.filter _ _).
Qed.

Lemma resolve_pls_preference_witness :
  let body := "File1=http://a/x-aac" +:+ String "010"%char "File2=http://a/y-mp3" in
  endswith "http://a/p.pls" ".pls" = true /\
  Http.serve "http://a/p.pls" body (Http.mk_get "http://a/p.pls" resolver_timeout)
    = Http.Responded (Http.mk_response 200 "OK" body) /\
  resolve (Http.serve "http://a/p.pls" body) "http://a/p.pls" = "http://a/y-mp3".
Proof.
  intros body. split; [vm_compute; reflexivity|]. split; [vm_compute; reflexivity|].
  rewrite (resolve_pls_preference _ _ (Http.mk_response 200 "OK" body));
    vm_compute; reflexivity.
Defined.

(** C4: for a [.m3u] URL whose fetch returns a response, the result is the
    first line, stripped, that starts with [http], else the original URL. *)
Theorem resolve_m3u_first_http env url r :
  endswith url ".m3u" = true ->
  env (Http.mk_get url resolver_timeout) = Http.Responded r ->
  resolve env url =
    default url (head (List.filter (fun l => startswith l "http")
                          (map strip (splitlines (Http.text r))))).
Proof.
  intros Hm3u Henv. rewrite (resolve_responded _ _ r) by auto using is_playlist_m3u.
  unfold parse_content, m3u_choice.
  by rewrite endswith_m3u_not_pls, Hm3u, m3u_first_spec.
Qed.

Lemma resolve_m3u_first_http_witness :
  let body := "#EXTINF:-1,Live" +:+ String "010"%char "  http://stream.example/live.mp3" in
  endswith "http://a/p.m3u" ".m3u" = true /\
  Http.serve "http://a/p.m3u" body (Http.mk_get "http://a/p.m3u" resolver_timeout)
    = Http.Responded (Http.mk_response 200 "OK" body) /\
  resolve (Http.serve "http://a/p.m3u" body) "http://a/p.m3u"
    = "http://stream.example/live.mp3".
Proof.
  intros body. split; [vm_compute; reflexivity|]. split; [vm_compute; reflexivity|].
  rewrite (resolve_m3u_first_http _ _ (Http.mk_response 200 "OK" body));
    vm_compute; reflexivity.
Defined.

Lemma resolve_direct env url : is_playlist_url url = false -> resolve env url = url.
Proof. unfold resolve, parse_playlist_url. by intros ->. Qed.

Lemma resolve_raised env url e :
  env (Http.mk_get url resolver_timeout) = Http.Raised e -> resolve env url = url.
Proof.
  intros Henv. unfold resolve, parse_playlist_url.
  destruct (is_playlist_url url); simpl; [by rewrite Henv|done].
Qed.

(** C5: whatever exception the fetch raises (timeout, connection error,
    invalid URL, ...), the resolver returns the original URL. *)
Theorem resolve_raised_fallback env url e :
  env (Http.mk_get url resolver_timeout) = Http.Raised e -> resolve env url = url.
Proof. apply resolve_raised. Qed.

Lemma resolve_raised_fallback_witness :
  Http.serve "http://b/q.pls" "" (Http.mk_get "http://a/p.pls" resolver_timeout)
    = Http.Raised Http.ConnectionError /\
  resolve (Http.serve "http://b/q.pls" "") "http://a/p.pls" = "http://a/p.pls".
Proof.
  split; [vm_compute; reflexivity|].
  apply (resolve_raised_fallback _ _ Http.ConnectionError). vm_compute. reflexivity.
Defined.

(** C6: the PLS loop with its two accumulators computes the candidates and,
    separately, the candidates containing [-mp3], both in file order. *)
Theorem pls_scan_filter content :
  pls_scan content =
    (List.filter has_mp3 (pls_candidates content), pls_candidates content).
Proof. unfold pls_scan, pls_candidates. apply fold_pls_step. Qed.

Lemma omap_pls_entries ns us :
  length ns = length us ->
  forallb valid_index ns = true -> forallb valid_entry_url us = true ->
  map strip (omap re_search_file (zip_with pls_entry ns us)) = us /\
  Forall (fun l => no_linebreak l = true) (zip_with pls_entry ns us).
Proof.
  revert us; induction ns as [|n ns IH]; intros [|u us] Hlen Hns Hus;
    simpl in Hlen, Hns, Hus; try lia; [split; [done|constructor]|].
  cbn [zip_with omap list_omap].
  apply andb_true_iff in Hns as [Hn Hns]. apply andb_true_iff in Hus as [Hu Hus].
  unfold valid_entry_url in Hu. rewrite !andb_true_iff, negb_true_iff in Hu.
  destruct Hu as [[Hne Hl] Hs].
  destruct (IH us ltac:(lia) Hns Hus) as [IHm IHf].
  rewrite re_search_pls_entry; [|done| by destruct (String.eqb_spec u EmptyString) |done].
  cbn [map]. apply String.eqb_eq in Hs. rewrite Hs, IHm.
  split; [done|]. constructor; [by apply no_linebreak_pls_entry|done].
Qed.

(** C7: round trip.  The PLS loop run on the lines [File<n_i>=<u_i>], with
    decimal indices and URLs that are non-empty, on one line and already
    stripped, collects exactly the URLs in [all_urls], in order. *)
Theorem pls_roundtrip ns us :
  length ns = length us ->
  forallb valid_index ns = true -> forallb valid_entry_url us = true ->
  snd (pls_scan (join_lines (zip_with pls_entry ns us))) = us.
Proof.
  intros Hlen Hns Hus. destruct (omap_pls_entries ns us Hlen Hns Hus) as [Hm Hf].
  unfold pls_scan. rewrite fold_pls_step, splitlines_join; auto using last_zip_with_pls_entry.
Qed.

Lemma pls_roundtrip_witness :
  length ["1"; "2"; "10"] = length ["http://a/x-aac"; "http://a/y-mp3"; "https://b/z"] /\
  forallb valid_index ["1"; "2"; "10"] = true /\
  forallb valid_entry_url ["http://a/x-aac"; "http://a/y-mp3"; "https://b/z"] = true /\
  snd (pls_scan (join_lines (zip_with pls_entry ["1"; "2"; "10"]
                    ["http://a/x-aac"; "http://a/y-mp3"; "https://b/z"])))
    = ["http://a/x-aac"; "http://a/y-mp3"; "https://b/z"].
Proof.
  split; [reflexivity|]. split; [vm_compute; reflexivity|].
  split; [vm_compute; reflexivity|].
  apply pls_roundtrip; vm_compute; reflexivity.
Defined.

(** C8: [re.search] semantics.  On any line, [re_search_file] returns the
    group of the leftmost match of [File\d+=(.+)], with the greedy group
    running to the end of the line or to a newline, and it returns [None]
    exactly when the pattern matches nowhere. *)
Theorem re_search_file_leftmost line v :
  re_search_file line = Some v <-> leftmost_match line v.
Proof. apply re_search_file_spec. Qed.

(** C9: a [.pls] body whose entry value is only whitespace ([File1=] and
    blanks) resolves to the empty string, not to the original URL: the
    match succeeds ([.+] matches the blanks), [strip] empties the value, and
    the empty string is appended to [all_urls] and returned. *)
Theorem resolve_blank_entry env url r ws :
  endswith url ".pls" = true ->
  env (Http.mk_get url resolver_timeout) = Http.Responded r ->
  Http.text r = "File1=" +:+ ws ->
  ws <> EmptyString -> no_linebreak ws = true -> str_forallb isspace ws = true ->
  resolve env url = EmptyString.
Proof.
  intros Hpls Henv Htext Hne Hl Hsp.
  rewrite (resolve_responded _ _ r) by auto using is_playlist_pls.
  unfold parse_content, pls_choice, pls_scan. rewrite Hpls, Htext.
  change ("File1=" +:+ ws) with (pls_entry "1" ws).
  rewrite splitlines_single; [|apply no_linebreak_pls_entry; done|unfold pls_entry; done].
  cbn [fold_left]. unfold pls_step.
  rewrite re_search_pls_entry, strip_all_space by done. reflexivity.
Qed.

Lemma resolve_blank_entry_witness :
  let body := "File1=   " in
  let env := Http.serve "http://a/p.pls" body in
  endswith "http://a/p.pls" ".pls" = true /\
  env (Http.mk_get "http://a/p.pls" resolver_timeout)
    = Http.Responded (Http.mk_response 200 "OK" body) /\
  resolve env "http://a/p.pls" = "".
Proof.
  intros body env. split; [vm_compute; reflexivity|]. split; [vm_compute; reflexivity|].
  apply (resolve_blank_entry _ _ (Http.mk_response 200 "OK" body) "   ");
    vm_compute; try reflexivity; discriminate.
Defined.

(** The examples of the specification (section 8): MP3 preference over
    declaration order, first entry without MP3, M3U directive skipped and
    whitespace trimmed, and the fallback on a timeout and on a 404 page
    without entries. *)
Example resolve_spec_examples :
  let nl := String "010"%char EmptyString in
  let page body := fun _ : Http.get_request =>
                     Http.Responded (Http.mk_response 200 "OK" body) in
  resolve (page ("File1=http://a/x-aac" +:+ nl +:+ "File2=http://a/y-mp3"))
    "http://a/p.pls" = "http://a/y-mp3" /\
  resolve (page "File1=http://a/x-aac") "http://a/p.pls" = "http://a/x-aac" /\
  resolve (page ("#EXTINF:-1,Live" +:+ nl +:+ "  http://stream.example/live.mp3"))
    "http://a/p.m3u" = "http://stream.example/live.mp3" /\
  resolve (fun _ => Http.Raised Http.ReadTimeout) "http://a/p.pls" = "http://a/p.pls" /\
  resolve (fun _ => Http.Responded (Http.mk_response 404 "Not Found" "<h1>Not Found</h1>"))
    "http://a/p.m3u" = "http://a/p.m3u".
Proof. vm_compute. repeat split. Qed.

(** ** The specification's resolver (spec section 4.1) and the refinement *)

(** What the single fetch of the specification observes. *)
Inductive fetch_result :=
  | FetchFailed
  | Fetched (status : nat) (body : string).

Definition observe (env : Http.get_request -> Http.get_outcome) (url : string) : fetch_result :=
  match env (Http.mk_get url resolver_timeout) with
  | Http.Raised _ => FetchFailed
  | Http.Responded r => Fetched (Http.status_code r) (Http.text r)
  end.

Definition success_status (st : nat) : bool := (200 <=? st) && (st <? 300).

(** Step 3's values: for every line in order where [File<N>=<value>] is
    found (with [re.search] semantics), the trimmed value. *)
Inductive line_values : list string -> list string -> Prop :=
  | lv_nil : line_values [] []
  | lv_match l ls v vs :
      leftmost_match l v -> line_values ls vs -> line_values (l :: ls) (strip v :: vs)
  | lv_skip l ls vs :
      (forall v, ~ leftmost_match l v) -> line_values ls vs -> line_values (l :: ls) vs.

(** Step 3's choice: the first value containing [-mp3], else the first
    value, else (step 5) the input. *)
Definition spec_pls_pick (url : string) (vs : list string) : string :=
  match List.filter (fun v => contains v "-mp3") vs with
  | u :: _ => u
  | [] => default url (head vs)
  end.

(** Steps 1-5 of section 4.1 as a relation between the input, what the
    fetch observed, and the result. *)
Inductive spec_resolves (url : string) : fetch_result -> string -> Prop :=
  | sr_direct o :
      endswith url ".pls" = false -> endswith url ".m3u" = false -> spec_resolves url o url
  | sr_failed :
      endswith url ".pls" || endswith url ".m3u" = true -> spec_resolves url FetchFailed url
  | sr_not_2xx st body :
      endswith url ".pls" || endswith url ".m3u" = true -> success_status st = false ->
      spec_resolves url (Fetched st body) url
  | sr_pls st body vs :
      endswith url ".pls" = true -> success_status st = true ->
      line_values (splitlines body) vs ->
      spec_resolves url (Fetched st body) (spec_pls_pick url vs)
  | sr_m3u st body :
      endswith url ".pls" = false -> endswith url ".m3u" = true -> success_status st = true ->
      spec_resolves url (Fetched st body)
        (default url (head (List.filter (fun l => startswith l "http")
                                        (map strip (splitlines body))))).

Lemma line_values_search lines : line_values lines (map strip (omap re_search_file lines)).
Proof.
  induction lines as [|l ls IH]; [constructor|]. simpl.
  destruct (re_search_file l) as [v|] eqn:E.
  - apply lv_match; [by apply re_search_file_spec|done].
  - apply lv_skip; [|done]. intros v Hv. apply re_search_file_spec in Hv. congruence.
Qed.

Lemma pls_choice_pick url c : default url (pls_choice c) = spec_pls_pick url (pls_candidates c).
Proof.
  unfold pls_choice, pls_scan, spec_pls_pick, pls_candidates. rewrite fold_pls_step. simpl.
  by destruct (List.filter _ _).
Qed.

(** C11: refinement.  Wherever the fetch fails or answers with a 2xx
    status, the resolver computes what section 4.1 of the specification
    prescribes (the non-2xx case is the divergence of C10). *)
Theorem resolve_refines_spec env url :
  (forall r, env (Http.mk_get url resolver_timeout) = Http.Responded r ->
             success_status (Http.status_code r) = true) ->
  spec_resolves url (observe env url) (resolve env url).
Proof.
  intros H2xx. destruct (is_playlist_url url) eqn:Hp.
  - unfold observe. destruct (env _) as [r|e] eqn:Henv.
    + rewrite (resolve_responded _ _ r) by done. specialize (H2xx r eq_refl).
      unfold parse_content. destruct (endswith url ".pls") eqn:Hpls.
      * rewrite pls_choice_pick. by apply sr_pls, line_values_search.
      * unfold is_playlist_url in Hp. rewrite Hpls in Hp. simpl in Hp.
        rewrite Hp. unfold m3u_choice. rewrite m3u_first_spec. by apply sr_m3u.
    + rewrite (resolve_raised _ _ e) by done. by apply sr_failed.
  - rewrite resolve_direct by done. unfold is_playlist_url in Hp.
    apply orb_false_iff in Hp as [H1 H2]. by apply sr_direct.
Qed.

Lemma resolve_refines_spec_witness :
  let body := "File1=http://a/x-aac" +:+ newline +:+ "File2=http://a/y-mp3" in
  let env := fun _ : Http.get_request => Http.Responded (Http.mk_response 200 "OK" body) in
  (forall r, env (Http.mk_get "http://a/p.pls" resolver_timeout) = Http.Responded r ->
             success_status (Http.status_code r) = true) /\
  spec_resolves "http://a/p.pls" (observe env "http://a/p.pls") "http://a/y-mp3".
Proof.
  intros body env.
  assert (H : forall r, env (Http.mk_get "http://a/p.pls" resolver_timeout) = Http.Responded r ->
             success_status (Http.status_code r) = true) by (intros r [= <-]; reflexivity).
  split; [exact H|].
  pose proof (resolve_refines_spec env "http://a/p.pls" H) as Hs.
  assert (Hr : resolve env "http://a/p.pls" = "http://a/y-mp3") by (vm_compute; reflexivity).
  rewrite Hr in Hs. exact Hs.
Defined.

(** The specification allows nothing but the input URL after a non-2xx
    answer. *)
Lemma spec_resolves_not_2xx url st body v :
  success_status st = false -> spec_resolves url (Fetched st body) v -> v = url.
Proof. intros Hst Hs. inversion Hs; subst; congruence. Qed.

(** C10: the status code of the playlist response is never checked.  For
    every playlist URL and every answer, 404 and 500 included, the result
    is what the body parses to, while the specification allows only the
    input URL after a non-2xx answer: the two differ exactly when the error
    page yields another URL. *)
Theorem resolve_error_status_parsed env url r :
  is_playlist_url url = true ->
  env (Http.mk_get url resolver_timeout) = Http.Responded r ->
  success_status (Http.status_code r) = false ->
  resolve env url = parse_content url (Http.text r) /\
  (forall v, spec_resolves url (observe env url) v -> v = url).
Proof.
  intros Hp Henv Hst. split; [by apply resolve_responded|].
  intros v. unfold observe. rewrite Henv. by apply spec_resolves_not_2xx.
Qed.

Lemma resolve_error_status_parsed_witness :
  let page := Http.mk_response 404 "Not Found" "File1=http://mirror.example/x" in
  let env := fun _ : Http.get_request => Http.Responded page in
  (is_playlist_url "http://a/p.pls" = true /\
   env (Http.mk_get "http://a/p.pls" resolver_timeout) = Http.Responded page /\
   success_status (Http.status_code page) = false) /\
  resolve env "http://a/p.pls" = "http://mirror.example/x".
Proof.
  intros page env.
  assert (H1 : is_playlist_url "http://a/p.pls" = true) by reflexivity.
  assert (H2 : env (Http.mk_get "http://a/p.pls" resolver_timeout) = Http.Responded page)
    by reflexivity.
  assert (H3 : success_status (Http.status_code page) = false) by reflexivity.
  split; [split; [exact H1|split; [exact H2|exact H3]]|].
  rewrite (proj1 (resolve_error_status_parsed env "http://a/p.pls" page H1 H2 H3)).
  vm_compute. reflexivity.
Defined.

End Playlist.
