(* ===== verification/Relay.v ===== *)
(** * The stream relay: [stream_audio] in [src/radio/main.py] (lines 138-142)

    [stream_audio] opens an [httpx.AsyncClient(timeout=30.0)], enters
    [client.stream('GET', resolved_url)] and yields every chunk of
    [response.aiter_bytes(chunk_size=8192)]; both [async with] blocks close
    their resource on every exit, the response first.

    [aiter_bytes] re-chunks the raw network reads with httpx's
    [ByteChunker]: [decode] appends the read to a buffer and, once the buffer
    holds at least [chunk_size] bytes, emits the slices
    [value[i:i+chunk_size] for i in range(0, len(value), chunk_size)],
    keeping a short last slice in the buffer; [flush] emits what is left at
    the end of the body.  The content decoder is the identity (radio origins
    send no [Content-Encoding]).

    The origin and the client are an explicit, finite sequence of events: a
    raw read, end of body, a transport error (connection drop, read
    timeout), or the client going away.  The relay is a function from the
    connection result and the events to the trace of its effects and its
    outcome; a sequence with no terminal event is a prefix of a longer (for
    radio, endless) stream, and the outcome is then [Running buf] with the
    bytes still in the chunker's buffer. *)

From stdpp Require Import base list strings option.
From S2P Require Import Prelude.

Module Relay.

Abbreviation bytes := (list Byte.byte).

Definition chunk_size : nat := 8192.

(** ** [ByteChunker] *)

(** The list comprehension
    [[value[i : i + n] for i in range(0, len(value), n)]], with fuel. *)
Fixpoint slices_go {A} (fuel n : nat) (l : list A) : list (list A) :=
  match fuel with
  | 0 => []
  | S f =>
      match l with
      | [] => []
      | _ :: _ => take n l :: slices_go f n (drop n l)
      end
  end.

Definition slices {A} (n : nat) (l : list A) : list (list A) :=
  slices_go (length l) n l.

(** [ByteChunker.decode]: the new buffer and the chunks to yield. *)
Definition chunker_decode (n : nat) (buffer content : bytes) : list bytes * bytes :=
  let value := buffer ++ content in
  if n <=? length value then
    let chunks := slices n value in
    match list.last chunks with
    | Some lst =>
        if length lst =? n then (chunks, [])
        else (removelast chunks, lst)
    | None => (chunks, [])
    end
  else ([], value).

(** [ByteChunker.flush]. *)
Definition chunker_flush (buffer : bytes) : list bytes :=
  match buffer with [] => [] | _ => [buffer] end.

(** ** Lemmas on [slices] *)

Section Slices.
Context {A : Type}.
Implicit Types l : list A.

Lemma slices_go_enough fuel n l :
  0 < n -> length l <= fuel -> slices_go fuel n l = slices_go (S fuel) n l.
Proof.
  revert l; induction fuel as [|f IH]; intros l Hn Hl.
  - destruct l; simpl in *; [done|lia].
  - destruct l as [|x l']; [done|].
    change (take n (x :: l') :: slices_go f n (drop n (x :: l')) =
            take n (x :: l') :: slices_go (S f) n (drop n (x :: l'))).
    f_equal. apply IH; [done|]. rewrite length_drop. simpl in *. lia.
Qed.

Lemma slices_go_fuel fuel n l :
  0 < n -> length l <= fuel -> slices_go fuel n l = slices n l.
Proof.
  intros Hn. unfold slices. induction fuel as [|f IH]; intros Hl.
  - destruct l; simpl in *; [done|lia].
  - destruct (decide (length l <= f)) as [Hle|Hgt].
    + rewrite <- slices_go_enough by done. by apply IH.
    + by replace (S f) with (length l) by lia.
Qed.

Lemma slices_eq n l :
  0 < n ->
  slices n l = match l with [] => [] | _ :: _ => take n l :: slices n (drop n l) end.
Proof.
  intros Hn. destruct l as [|x l']; [done|].
  unfold slices at 1. simpl. f_equal. apply slices_go_fuel; [done|].
  rewrite length_drop. simpl. lia.
Qed.

Lemma slices_concat n l : 0 < n -> concat (slices n l) = l.
Proof.
  intros Hn. induction l as [l IH] using list_len_ind.
  rewrite slices_eq by done. destruct l as [|x l']; [done|]. simpl concat.
  rewrite IH; [apply take_drop|]. rewrite length_drop. simpl. lia.
Qed.

Lemma slices_app n l1 l2 q :
  0 < n -> length l1 = n * q -> slices n (l1 ++ l2) = slices n l1 ++ slices n l2.
Proof.
  intros Hn. revert l1; induction q as [|q IH]; intros l1 Hl1.
  - rewrite Nat.mul_0_r in Hl1. destruct l1; [done|simpl in Hl1; lia].
  - rewrite (slices_eq n l1), (slices_eq n (l1 ++ l2)) by done.
    destruct l1 as [|x l1']; [simpl in Hl1; lia|]. simpl (_ ++ _).
    rewrite app_comm_cons, take_app_le, drop_app_le by (simpl in *; lia).
    simpl. f_equal. apply IH. rewrite length_drop. simpl in *. lia.
Qed.

Lemma slices_short n l : 0 < length l <= n -> slices n l = [l].
Proof.
  intros Hl. rewrite slices_eq by lia. destruct l as [|x l']; [simpl in Hl; lia|].
  rewrite take_ge, drop_ge by lia. by rewrite slices_eq by lia.
Qed.

(** A list of [n * q] elements is cut into [q] slices of [n] elements. *)
Lemma slices_full n q l :
  0 < n -> length l = n * q -> Forall (fun c => length c = n) (slices n l).
Proof.
  intros Hn. revert l; induction q as [|q IH]; intros l Hl.
  - rewrite Nat.mul_0_r in Hl. destruct l; [constructor|simpl in Hl; lia].
  - rewrite slices_eq by done. destruct l as [|x l']; [simpl in Hl; lia|].
    constructor.
    + rewrite length_take. simpl in *. lia.
    + apply IH. rewrite length_drop. simpl in *. lia.
Qed.

End Slices.

(** ** [ByteChunker.decode] against a reference *)

(** The number of bytes a buffer of [m] bytes releases as whole chunks. *)
Definition released (n m : nat) : nat := n * (m / n).

Lemma released_le n m : 0 < n -> released n m <= m.
Proof. intros Hn. unfold released. pose proof (Nat.Div0.mul_div_le m n). lia. Qed.

Lemma sub_released_lt n m : 0 < n -> m - released n m < n.
Proof.
  intros Hn. unfold released. pose proof (Nat.div_mod m n ltac:(lia)).
  pose proof (Nat.mod_upper_bound m n ltac:(lia)). lia.
Qed.

Lemma last_slices_full {A} n q (l : list A) :
  0 < n -> 0 < q -> length l = n * q ->
  exists lst, list.last (slices n l) = Some lst /\ length lst = n.
Proof.
  intros Hn Hq Hl. pose proof (slices_full n q l Hn Hl) as Hall.
  destruct (list.last (slices n l)) as [lst|] eqn:Hlast.
  - exists lst. split; [done|]. apply last_Some_elem_of in Hlast.
    by eapply Forall_forall in Hall; [|apply list_elem_of_In].
  - apply last_None in Hlast. pose proof (slices_concat n l Hn) as Hc.
    rewrite Hlast in Hc. simpl in Hc. subst l. simpl in Hl. lia.
Qed.

(** The decoder releases the largest multiple of [n] bytes of
    [buffer ++ content] as [n]-byte chunks and keeps the rest: the
    comprehension-and-last-slice code of httpx equals this reference. *)
Lemma chunker_decode_eq n buf content :
  0 < n ->
  let value := buf ++ content in
  let k := released n (length value) in
  chunker_decode n buf content = (slices n (take k value), drop k value).
Proof.
  intros Hn value k. unfold chunker_decode. fold value.
  assert (Hk : length (take k value) = n * (length value / n)).
  { rewrite length_take. pose proof (released_le n (length value) Hn).
    unfold k, released in *. lia. }
  pose proof (sub_released_lt n (length value) Hn) as Hr.
  destruct (Nat.leb_spec n (length value)) as [Hge|Hlt].
  - assert (Hsplit : slices n value = slices n (take k value) ++ slices n (drop k value)).
    { rewrite <- (take_drop k value) at 1. by apply (slices_app n _ _ (length value / n)). }
    rewrite Hsplit.
    assert (Hq : 0 < length value / n) by (apply Nat.div_str_pos; lia).
    destruct (drop k value) as [|b r] eqn:Hd.
    + rewrite app_nil_r. destruct (last_slices_full n (length value / n) (take k value))
        as (lst & -> & Hlst); [done|done|done|].
      by rewrite Hlst, Nat.eqb_refl.
    + assert (Hlen : length (b :: r) = length value - k) by (by rewrite <- Hd, length_drop).
      rewrite (slices_short n (b :: r)) by (unfold k in *; simpl in *; lia).
      rewrite last_snoc, removelast_last.
      assert (length (b :: r) <> n) by (unfold k in *; lia).
      by destruct (Nat.eqb_spec (length (b :: r)) n).
  - assert (k = 0) as ->.
    { unfold k, released. rewrite Nat.div_small by done. lia. }
    by rewrite take_0, drop_0.
Qed.

(** ** The relay generator *)

(** Transport errors of httpx the relay can meet. *)
Inductive relay_error :=
  | ConnectError
  | ConnectTimeout
  | ReadTimeout
  | ReadError
  | RemoteProtocolError.

(** What happens next, as seen by the generator: a raw read of the origin's
    body, its end, a transport error, or the client going away (Starlette
    cancels the response task, which closes the generator). *)
Inductive event :=
  | Data (b : bytes)
  | Eof
  | Drop (e : relay_error)
  | Disconnect.

(** Entering [client.stream(...)]: the origin answers with a status line, or
    the connection fails. *)
Inductive connect_result :=
  | Connected (status : nat)
  | ConnectFailed (e : relay_error).

(** The observable effects of [stream_audio], in order. *)
Inductive effect :=
  | OpenClient
  | SendRequest (url : string)
  | OpenResponse
  | Yield (chunk : bytes)
  | CloseResponse
  | CloseClient.

Inductive outcome :=
  | Running (buf : bytes)
  | Completed
  | Failed (e : relay_error)
  | Cancelled.

#[export] Instance relay_error_eq_dec : EqDecision relay_error.
Proof. solve_decision. Defined.
#[export] Instance effect_eq_dec : EqDecision effect.
Proof. solve_decision. Defined.

(** The [async for chunk in response.aiter_bytes(chunk_size=8192)] loop:
    each raw read goes through [ByteChunker.decode]; at the end of the body
    the identity decoder's [flush()] (no bytes) goes through [decode] and
    then [ByteChunker.flush()] releases the rest. *)
Fixpoint pump (buf : bytes) (evs : list event) : list bytes * outcome :=
  match evs with
  | [] => ([], Running buf)
  | Data b :: rest =>
      let '(chunks, buf') := chunker_decode chunk_size buf b in
      let '(more, o) := pump buf' rest in
      (chunks ++ more, o)
  | Eof :: _ =>
      let '(chunks, buf') := chunker_decode chunk_size buf [] in
      (chunks ++ chunker_flush buf', Completed)
  | Drop e :: _ => ([], Failed e)
  | Disconnect :: _ => ([], Cancelled)
  end.

(** Leaving the two [async with] blocks: the response is closed first, then
    the client; a generator that is still running holds both. *)
Definition release (o : outcome) : list effect :=
  match o with
  | Running _ => []
  | _ => [CloseResponse; CloseClient]
  end.

(** [stream_audio()] for the resolved URL. *)
Definition stream_audio (url : string) (conn : connect_result) (evs : list event)
    : list effect * outcome :=
  match conn with
  | ConnectFailed e => ([OpenClient; SendRequest url; CloseClient], Failed e)
  | Connected _ =>
      let '(chunks, o) := pump [] evs in
      ([OpenClient; SendRequest url; OpenResponse] ++ map Yield chunks ++ release o, o)
  end.

(** The body bytes the origin delivered before the first non-read event. *)
Fixpoint received (evs : list event) : bytes :=
  match evs with
  | Data b :: rest => b ++ received rest
  | _ => []
  end.

Definition yields (tr : list effect) : list bytes :=
  omap (fun e => match e with Yield c => Some c | _ => None end) tr.

(** ** The chunking invariant of the loop *)

Lemma chunk_size_pos : 0 < chunk_size.
Proof. apply Nat.ltb_lt. reflexivity. Qed.

#[local] Hint Resolve chunk_size_pos : lalten.

Lemma decode_step buf b :
  let '(chunks, buf') := chunker_decode chunk_size buf b in
  Forall (fun c => length c = chunk_size) chunks /\
  concat chunks ++ buf' = buf ++ b /\ length buf' < chunk_size.
Proof.
  rewrite chunker_decode_eq by apply chunk_size_pos.
  set (v := buf ++ b). set (k := released chunk_size (length v)).
  split; [|split].
  - apply (slices_full _ (length v / chunk_size)); [apply chunk_size_pos|].
    rewrite length_take. pose proof (released_le chunk_size (length v) chunk_size_pos).
    unfold k, released in *. lia.
  - rewrite slices_concat by apply chunk_size_pos. apply take_drop.
  - rewrite length_drop. apply sub_released_lt, chunk_size_pos.
Qed.

Lemma decode_short_empty buf :
  length buf < chunk_size -> chunker_decode chunk_size buf [] = ([], buf).
Proof.
  intros H. unfold chunker_decode. rewrite app_nil_r.
  by destruct (Nat.leb_spec chunk_size (length buf)); [lia|].
Qed.

(** Everything the loop yields is whole [chunk_size] slices, except one
    final short flush when the body ends; what it has not yielded is less
    than one chunk (the buffer), so bytes are never lost, reordered or held
    back beyond one chunk. *)
Lemma pump_inv buf evs :
  length buf < chunk_size ->
  let '(chunks, o) := pump buf evs in
  exists full rest held,
    chunks = full ++ rest /\ Forall (fun c => length c = chunk_size) full /\
    concat full ++ held = buf ++ received evs /\ length held < chunk_size /\
    match o with
    | Running b => rest = [] /\ b = held
    | Completed => rest = chunker_flush held
    | _ => rest = []
    end.
Proof.
  revert buf; induction evs as [|[b| |e|] evs IH]; intros buf Hbuf; simpl.
  - exists [], [], buf. simpl. rewrite app_nil_r. naive_solver.
  - pose proof (decode_step buf b) as Hd.
    destruct (chunker_decode chunk_size buf b) as [chunks buf'].
    destruct Hd as (Hfull & Hcat & Hlen).
    specialize (IH buf' Hlen). destruct (pump buf' evs) as [more o].
    destruct IH as (full & rest & held & -> & Hf & Hc & Hh & Ho).
    exists (chunks ++ full), rest, held. rewrite app_assoc.
    split; [done|]. split; [by apply Forall_app|].
    split; [|done]. rewrite concat_app, <- app_assoc, Hc, app_assoc, Hcat.
    by rewrite <- app_assoc.
  - rewrite decode_short_empty by done. exists [], (chunker_flush buf), buf.
    simpl. rewrite app_nil_r. naive_solver.
  - exists [], [], buf. simpl. rewrite app_nil_r. naive_solver.
  - exists [], [], buf. simpl. rewrite app_nil_r. naive_solver.
Qed.

(** ** The resources of [stream_audio] as a state machine *)

(** [Fresh]: nothing opened; [ClientOpen]: inside [async with AsyncClient];
    [Requested]: the request is sent; [Both]: inside
    [async with client.stream(...)]; [ResponseClosed]: the inner block has
    exited; [Released]: both blocks have exited. *)
Inductive rstate := Fresh | ClientOpen | Requested | Both | ResponseClosed | Released.

#[export] Instance rstate_eq_dec : EqDecision rstate.
Proof. solve_decision. Defined.

(** The effects each state allows: a chunk is yielded only while both the
    client and the response are open, the response is closed before the
    client, and nothing happens after release. *)
Definition res_step (s : rstate) (e : effect) : option rstate :=
  match s, e with
  | Fresh, OpenClient => Some ClientOpen
  | ClientOpen, SendRequest _ => Some Requested
  | Requested, OpenResponse => Some Both
  | Requested, CloseClient => Some Released
  | Both, Yield _ => Some Both
  | Both, CloseResponse => Some ResponseClosed
  | ResponseClosed, CloseClient => Some Released
  | _, _ => None
  end.

Fixpoint res_run (s : rstate) (tr : list effect) : option rstate :=
  match tr with
  | [] => Some s
  | e :: tr' => match res_step s e with Some s' => res_run s' tr' | None => None end
  end.

Lemma res_run_app s tr1 tr2 :
  res_run s (tr1 ++ tr2) = match res_run s tr1 with Some s' => res_run s' tr2 | None => None end.
Proof.
  revert s; induction tr1 as [|e tr1 IH]; intros s; simpl; [done|].
  destruct (res_step s e); [apply IH|done].
Qed.

Lemma res_run_yields chunks : res_run Both (map Yield chunks) = Some Both.
Proof. induction chunks; simpl; auto. Qed.

Lemma yields_app tr1 tr2 : yields (tr1 ++ tr2) = yields tr1 ++ yields tr2.
Proof. unfold yields. apply omap_app. Qed.

Lemma yields_cons e tr :
  yields (e :: tr) = match e with Yield c => c :: yields tr | _ => yields tr end.
Proof. by destruct e. Qed.

Lemma yields_map chunks : yields (map Yield chunks) = chunks.
Proof.
  induction chunks as [|c cs IH]; [done|].
  cbn [map]. by rewrite yields_cons, IH.
Qed.

Lemma yields_release o : yields (release o) = [].
Proof. by destruct o. Qed.

Lemma yields_stream_audio url st evs :
  yields (fst (stream_audio url (Connected st) evs)) = fst (pump [] evs).
Proof.
  unfold stream_audio. destruct (pump [] evs) as [chunks o]. simpl.
  rewrite yields_app, yields_map, yields_release. apply app_nil_r.
Qed.

Lemma snd_stream_audio url st evs :
  snd (stream_audio url (Connected st) evs) = snd (pump [] evs).
Proof. unfold stream_audio. by destruct (pump [] evs). Qed.

Lemma pump_nil_inv evs :
  let '(chunks, o) := pump [] evs in
  exists full rest held,
    chunks = full ++ rest /\ Forall (fun c => length c = chunk_size) full /\
    concat full ++ held = received evs /\ length held < chunk_size /\
    match o with
    | Running b => rest = [] /\ b = held
    | Completed => rest = chunker_flush held
    | _ => rest = []
    end.
Proof. apply (pump_inv [] evs). apply chunk_size_pos. Qed.

Lemma Forall_removelast {A} (P : A -> Prop) l : Forall P l -> Forall P (removelast l).
Proof.
  induction l as [|x [|y l] IH]; simpl; intros H; [done|constructor|].
  inversion H; subst. constructor; auto.
Qed.

Lemma removelast_app_single {A} (l : list A) x : removelast (l ++ [x]) = l.
Proof. apply removelast_last. Qed.

Definition is_data (ev : event) : bool := match ev with Data _ => true | _ => false end.

Lemma pump_disconnect buf pre post :
  forallb is_data pre = true ->
  pump buf (pre ++ Disconnect :: post) = pump buf (pre ++ [Disconnect]) /\
  snd (pump buf (pre ++ [Disconnect])) = Cancelled.
Proof.
  revert buf; induction pre as [|[b| | |] pre IH]; intros buf Hpre; simpl in *;
    try discriminate; [done|].
  destruct (chunker_decode chunk_size buf b) as [chunks buf'].
  destruct (IH buf' Hpre) as [-> Hc].
  destruct (pump buf' (pre ++ [Disconnect])). by simpl in *.
Qed.

(** ** Properties of the relay *)

Lemma completed_yields_received url st evs :
  snd (stream_audio url (Connected st) evs) = Completed ->
  concat (yields (fst (stream_audio url (Connected st) evs))) = received evs.
Proof.
  rewrite yields_stream_audio, snd_stream_audio.
  pose proof (pump_nil_inv evs) as Hinv. destruct (pump [] evs) as [chunks o].
  simpl. intros ->. destruct Hinv as (full & rest & held & -> & _ & Hc & _ & ->).
  rewrite concat_app, <- Hc. f_equal. destruct held; simpl; [done|]. by rewrite app_nil_r.
Qed.

(** C12: when the origin's body ends normally, the chunks yielded are, once
    concatenated, exactly the bytes the origin sent, in order. *)
Theorem relay_completed_all_bytes url st evs tr :
  stream_audio url (Connected st) evs = (tr, Completed) ->
  concat (yields tr) = received evs.
Proof.
  intros H. pose proof (completed_yields_received url st evs) as Hc.
  rewrite H in Hc. by apply Hc.
Qed.

Lemma relay_completed_all_bytes_witness :
  let evs := [Data (replicate 10000 Byte.x00); Data [Byte.x01]; Eof] in
  stream_audio "http://ice2.somafm.com/groovesalad-256-mp3" (Connected 200) evs =
    (fst (stream_audio "http://ice2.somafm.com/groovesalad-256-mp3" (Connected 200) evs),
     Completed) /\
  concat (yields (fst (stream_audio "http://ice2.somafm.com/groovesalad-256-mp3"
                         (Connected 200) evs))) = received evs.
Proof.
  intros evs. split; [vm_compute; reflexivity|].
  apply (relay_completed_all_bytes "http://ice2.somafm.com/groovesalad-256-mp3" 200).
  vm_compute. reflexivity.
Defined.

(** C13: every yielded chunk holds between 1 and 8192 bytes, and all but the
    last hold exactly 8192; unless the body ended normally, all of them
    hold exactly 8192 (only the final flush is short). *)
Theorem relay_chunk_sizes url conn evs tr o :
  stream_audio url conn evs = (tr, o) ->
  Forall (fun c => 0 < length c <= chunk_size) (yields tr) /\
  Forall (fun c => length c = chunk_size) (removelast (yields tr)) /\
  (o <> Completed -> Forall (fun c => length c = chunk_size) (yields tr)).
Proof.
  destruct conn as [st|e]; intros H.
  2:{ injection H as <- <-. repeat split; constructor. }
  pose proof (yields_stream_audio url st evs) as Hy.
  pose proof (snd_stream_audio url st evs) as Ho. rewrite H in Hy, Ho. simpl in Hy, Ho.
  pose proof (pump_nil_inv evs) as Hinv. destruct (pump [] evs) as [chunks o'].
  simpl in *. subst. destruct Hinv as (full & rest & held & -> & Hf & _ & Hh & Hr).
  assert (Hpos : Forall (fun c => 0 < length c <= chunk_size) full).
  { eapply Forall_impl; [|exact Hf]. intros c ->. pose proof chunk_size_pos. lia. }
  assert (Hrest : rest = [] \/ (o' = Completed /\ rest = chunker_flush held)).
  { destruct o'; naive_solver. }
  destruct Hrest as [-> | [-> ->]].
  - rewrite app_nil_r. auto using Forall_removelast.
  - split; [|split; [|done]].
    + apply Forall_app. split; [done|]. destruct held; constructor; [simpl in *; lia|constructor].
    + destruct held; simpl; [rewrite app_nil_r; auto using Forall_removelast|].
      by rewrite removelast_app_single.
Qed.

Lemma relay_chunk_sizes_witness :
  let evs := [Data (replicate 9000 Byte.x00); Data (replicate 8000 Byte.x01); Eof] in
  let tr := fst (stream_audio "http://a/live" (Connected 200) evs) in
  stream_audio "http://a/live" (Connected 200) evs = (tr, Completed) /\
  Forall (fun c => 0 < length c <= chunk_size) (yields tr) /\
  Forall (fun c => length c = chunk_size) (removelast (yields tr)) /\
  (Completed <> Completed -> Forall (fun c => length c = chunk_size) (yields tr)).
Proof.
  intros evs tr. assert (H : stream_audio "http://a/live" (Connected 200) evs = (tr, Completed))
    by (vm_compute; reflexivity).
  split; [exact H|]. exact (relay_chunk_sizes _ _ _ _ _ H).
Defined.

(** C14: while the stream runs, fewer than 8192 bytes are held back and
    every byte received so far is either yielded or held, in order: memory
    stays bounded by one chunk however long the stream lasts. *)
Theorem relay_running_buffer_bounded url st evs tr buf :
  stream_audio url (Connected st) evs = (tr, Running buf) ->
  length buf < chunk_size /\ concat (yields tr) ++ buf = received evs.
Proof.
  intros H. pose proof (yields_stream_audio url st evs) as Hy.
  pose proof (snd_stream_audio url st evs) as Ho. rewrite H in Hy, Ho. simpl in Hy, Ho.
  pose proof (pump_nil_inv evs) as Hinv. destruct (pump [] evs) as [chunks o].
  simpl in *. subst. destruct Hinv as (full & rest & held & -> & _ & Hc & Hh & [-> ->]).
  by rewrite app_nil_r.
Qed.

Lemma relay_running_buffer_bounded_witness :
  let evs := [Data (replicate 5000 Byte.x00); Data (replicate 5000 Byte.x01)] in
  let tr := fst (stream_audio "http://a/live" (Connected 200) evs) in
  stream_audio "http://a/live" (Connected 200) evs = (tr, Running (replicate 1808 Byte.x01)) /\
  length (replicate 1808 Byte.x01) < chunk_size /\
  concat (yields tr) ++ replicate 1808 Byte.x01 = received evs.
Proof.
  intros evs tr.
  assert (H : stream_audio "http://a/live" (Connected 200) evs
              = (tr, Running (replicate 1808 Byte.x01))) by (vm_compute; reflexivity).
  split; [exact H|]. exact (relay_running_buffer_bounded _ _ _ _ _ H).
Defined.

(** C15: streaming, not buffering: as soon as the origin has delivered
    8192 bytes, at least one chunk has been yielded, whether the body has
    ended, failed, been cancelled or is still running. *)
Theorem relay_streams_before_eof url st evs :
  chunk_size <= length (received evs) ->
  yields (fst (stream_audio url (Connected st) evs)) <> [].
Proof.
  intros Hlen. rewrite yields_stream_audio.
  pose proof (pump_nil_inv evs) as Hinv. destruct (pump [] evs) as [chunks o].
  destruct Hinv as (full & rest & held & -> & _ & Hc & Hh & _). simpl.
  intros Hnil. apply app_eq_nil in Hnil as [-> _]. simpl in Hc. subst held. lia.
Qed.

Lemma relay_streams_before_eof_witness :
  let evs := [Data (replicate 4096 Byte.x00); Data (replicate 4096 Byte.x00)] in
  chunk_size <= length (received evs) /\
  yields (fst (stream_audio "http://a/live" (Connected 200) evs)) <> [].
Proof.
  intros evs. assert (H : chunk_size <= length (received evs)).
  { apply Nat.leb_le. vm_compute. reflexivity. }
  split; [exact H|]. exact (relay_streams_before_eof _ _ _ H).
Defined.

(** C16: the relay's resources follow the nested [async with] discipline on
    every path: one client and one request (no retry), chunks yielded only
    while both the client and the response are open, the response closed
    before the client, and both released whenever the generator finishes
    (normal end, origin failure, connection failure or client disconnect). *)
Theorem relay_resources_released url conn evs :
  let '(tr, o) := stream_audio url conn evs in
  res_run Fresh tr = Some (match o with Running _ => Both | _ => Released end).
Proof.
  destruct conn as [st|e]; [|done]. unfold stream_audio.
  destruct (pump [] evs) as [chunks o]. simpl.
  rewrite res_run_app, res_run_yields. by destruct o.
Qed.

(** C17: cancellation.  Once the client disconnects, the relay consumes no
    further origin events: everything after the disconnect is irrelevant, the
    outcome is [Cancelled] and the trace ends by closing the response and
    then the client. *)
Theorem relay_disconnect_stops url st pre post :
  forallb is_data pre = true ->
  stream_audio url (Connected st) (pre ++ Disconnect :: post) =
    stream_audio url (Connected st) (pre ++ [Disconnect]) /\
  snd (stream_audio url (Connected st) (pre ++ [Disconnect])) = Cancelled /\
  exists tr, fst (stream_audio url (Connected st) (pre ++ [Disconnect]))
             = tr ++ [CloseResponse; CloseClient].
Proof.
  intros Hpre. destruct (pump_disconnect [] pre post Hpre) as [Heq Hc].
  unfold stream_audio. rewrite Heq.
  destruct (pump [] (pre ++ [Disconnect])) as [chunks o]. simpl in Hc. subst o.
  split; [done|]. split; [done|].
  eexists. simpl. rewrite app_comm_cons, app_comm_cons, app_comm_cons. reflexivity.
Qed.

Lemma relay_disconnect_stops_witness :
  forallb is_data [Data (replicate 100 Byte.x00)] = true /\
  snd (stream_audio "http://a/live" (Connected 200)
         ([Data (replicate 100 Byte.x00)] ++ Disconnect :: [Data [Byte.x01]; Eof]))
    = Cancelled.
Proof.
  split; [reflexivity|].
  destruct (relay_disconnect_stops "http://a/live" 200 [Data (replicate 100 Byte.x00)]
              [Data [Byte.x01]; Eof] eq_refl) as (-> & Hc & _).
  exact Hc.
Defined.

End Relay.
