(* ===== verification/Proxy.v ===== *)
(** * The [/proxy] endpoint: [proxy_stream] in [src/radio/main.py]

    [proxy_stream(url)] resolves the URL with [parse_playlist_url] (a
    blocking call, before anything is sent), then returns a Starlette
    [StreamingResponse] over the [stream_audio()] generator with media type
    [audio/mpeg] and the headers [Cache-Control: no-cache] and
    [Accept-Ranges: none].  Starlette sends [http.response.start] (status
    200 and the headers) before it first pulls from the generator, one
    [http.response.body] message with [more_body=True] per chunk, and a final
    empty body with [more_body=False] once the generator is exhausted; an
    exception or a cancellation ends the exchange without that message.

    The endpoint is written against the [PlaylistResolver] interface: what
    the proxy needs from a resolver (a direct URL is passed through without a
    request; at most one request, to the input URL).  The playlist module
    provides the instance, and the endpoint's theorems hold for any
    resolver meeting the interface. *)

From stdpp Require Import base list strings option.
From S2P Require Import Prelude PyString Http Playlist Relay.

Module Proxy.
Import Relay.

(** ** The resolver interface *)

Class PlaylistResolver := {
  resolver : string -> Http.http_io string;
  resolver_direct : forall u, Playlist.is_playlist_url u = false -> resolver u = Ret u;
  resolver_requests : forall env u,
    length (io_requests env (resolver u)) <= 1 /\
    Forall (fun q => Http.req_url q = u) (io_requests env (resolver u))
}.

Lemma parse_playlist_url_requests env u :
  length (io_requests env (Playlist.parse_playlist_url u)) <= 1 /\
  Forall (fun q => Http.req_url q = u) (io_requests env (Playlist.parse_playlist_url u)).
Proof.
  unfold Playlist.parse_playlist_url. destruct (Playlist.is_playlist_url u); simpl.
  - destruct (env _); simpl; split; auto.
  - split; [lia|constructor].
Qed.

#[export] Instance playlist_resolver : PlaylistResolver := {
  resolver := Playlist.parse_playlist_url;
  resolver_direct := fun u H => ltac:(unfold Playlist.parse_playlist_url; rewrite H; reflexivity);
  resolver_requests := parse_playlist_url_requests
}.

(** ** Starlette's [StreamingResponse] *)

Inductive asgi_message :=
  | ResponseStart (status : nat) (headers : list (string * string))
  | ResponseBody (body : bytes) (more_body : bool).

(** [init_headers]: the given headers lower-cased, in order, then the
    content type; a streaming response gets no [content-length]. *)
Definition proxy_headers : list (string * string) :=
  [("cache-control", "no-cache"); ("accept-ranges", "none"); ("content-type", "audio/mpeg")].

(** Everything that happens while serving one [/proxy] request, in order:
    the resolver's requests, the relay's effects and the ASGI messages. *)
Inductive proxy_event :=
  | ResolverGet (q : Http.get_request)
  | Relay (e : effect)
  | Send (m : asgi_message).

(** [StreamingResponse.stream_response] around the generator's trace: the
    start message, each yielded chunk forwarded right after it is yielded,
    and the closing empty body only when the generator is exhausted. *)
Definition forward (e : effect) : list proxy_event :=
  match e with
  | Yield c => [Relay (Yield c); Send (ResponseBody c true)]
  | _ => [Relay e]
  end.

Definition streaming_response (relay : list effect * outcome) : list proxy_event :=
  let '(tr, o) := relay in
  Send (ResponseStart 200 proxy_headers) :: concat (map forward tr) ++
    match o with Completed => [Send (ResponseBody [] false)] | _ => [] end.

(** The network beyond the resolver: what connecting to a URL gives and the
    events that follow. *)
Abbreviation origin := (string -> connect_result * list event).

(** [proxy_stream(url)]: resolve first, then stream from the resolved URL. *)
Definition proxy_stream `{PlaylistResolver} (env : Http.get_request -> Http.get_outcome)
    (net : origin) (url : string) : list proxy_event :=
  let resolved := io_run env (resolver url) in
  map ResolverGet (io_requests env (resolver url)) ++
  streaming_response (stream_audio resolved (fst (net resolved)) (snd (net resolved))).

(** ** Observations on a trace *)

Definition is_resolver_get (e : proxy_event) : bool :=
  match e with ResolverGet _ => true | _ => false end.

(** The bodies sent to the client, in order. *)
Definition bodies (tr : list proxy_event) : list bytes :=
  omap (fun e => match e with Send (ResponseBody b _) => Some b | _ => None end) tr.

(** The [more_body] flags of the body messages, in order. *)
Definition body_flags (tr : list proxy_event) : list bool :=
  omap (fun e => match e with Send (ResponseBody _ m) => Some m | _ => None end) tr.

Definition relay_requests (tr : list proxy_event) : list string :=
  omap (fun e => match e with Relay (SendRequest u) => Some u | _ => None end) tr.

Lemma forward_no_resolver tr :
  forallb (fun e => negb (is_resolver_get e)) (concat (map forward tr)) = true.
Proof. induction tr as [|[] tr IH]; simpl; auto. Qed.

Lemma bodies_forward tr : bodies (concat (map forward tr)) = yields tr.
Proof.
  induction tr as [|[] tr IH]; simpl; auto.
  all: unfold bodies, yields in *; simpl; by rewrite IH.
Qed.

Lemma flags_forward tr : body_flags (concat (map forward tr)) = map (fun _ => true) (yields tr).
Proof.
  induction tr as [|[] tr IH]; simpl; auto.
  all: unfold body_flags, yields in *; simpl; by rewrite IH.
Qed.

Lemma relay_requests_forward tr :
  relay_requests (concat (map forward tr)) =
    omap (fun e => match e with SendRequest u => Some u | _ => None end) tr.
Proof.
  induction tr as [|[] tr IH]; simpl; auto.
  all: unfold relay_requests in *; simpl; by rewrite IH.
Qed.

Lemma stream_audio_requests url conn evs :
  omap (fun e => match e with SendRequest u => Some u | _ => None end)
    (fst (stream_audio url conn evs)) = [url].
Proof.
  unfold stream_audio. destruct conn; [|done].
  destruct (pump [] evs) as [chunks o]. simpl. rewrite omap_app.
  replace (omap _ (map Yield chunks)) with (@nil string)
    by (induction chunks; simpl; auto).
  by destruct o.
Qed.

Lemma streaming_response_app relay :
  streaming_response relay =
    Send (ResponseStart 200 proxy_headers) :: concat (map forward (fst relay)) ++
      match snd relay with Completed => [Send (ResponseBody [] false)] | _ => [] end.
Proof. by destruct relay. Qed.

Lemma bodies_app l1 l2 : bodies (l1 ++ l2) = bodies l1 ++ bodies l2.
Proof. apply omap_app. Qed.

Lemma flags_app l1 l2 : body_flags (l1 ++ l2) = body_flags l1 ++ body_flags l2.
Proof. apply omap_app. Qed.

Lemma bodies_resolver qs : bodies (map ResolverGet qs) = [].
Proof. by induction qs. Qed.

Lemma flags_resolver qs : body_flags (map ResolverGet qs) = [].
Proof. by induction qs. Qed.

Lemma bodies_streaming relay :
  bodies (streaming_response relay) =
    yields (fst relay) ++ match snd relay with Completed => [[]] | _ => [] end.
Proof.
  rewrite streaming_response_app. change (bodies (Send (ResponseStart 200 proxy_headers) :: ?l))
    with (bodies l). rewrite bodies_app, bodies_forward. by destruct (snd relay).
Qed.

Lemma flags_streaming relay :
  body_flags (streaming_response relay) =
    map (fun _ => true) (yields (fst relay)) ++
      match snd relay with Completed => [false] | _ => [] end.
Proof.
  rewrite streaming_response_app. change (body_flags (Send (ResponseStart 200 proxy_headers) :: ?l))
    with (body_flags l). rewrite flags_app, flags_forward. by destruct (snd relay).
Qed.

(** ** Properties of the endpoint *)

Section Endpoint.
Context `{R : PlaylistResolver}.

Lemma proxy_stream_unfold env net url :
  proxy_stream env net url =
    map ResolverGet (io_requests env (resolver url)) ++
    streaming_response (stream_audio (io_run env (resolver url))
                          (fst (net (io_run env (resolver url))))
                          (snd (net (io_run env (resolver url))))).
Proof. reflexivity. Qed.

(** C18: ordering.  Serving [/proxy] makes at most one resolver request,
    to the requested URL, and it comes first; then the response start (200
    and the fixed headers) is sent before the origin is contacted; the relay
    then issues exactly one request, to the resolved URL. *)
Theorem proxy_resolves_once_first env net url :
  exists qs rest,
    proxy_stream env net url =
      map ResolverGet qs ++ Send (ResponseStart 200 proxy_headers) :: rest /\
    length qs <= 1 /\ Forall (fun q => Http.req_url q = url) qs /\
    forallb (fun e => negb (is_resolver_get e)) rest = true /\
    relay_requests rest = [io_run env (resolver url)].
Proof.
  destruct (resolver_requests env url) as [Hlen Hurl].
  rewrite proxy_stream_unfold, streaming_response_app.
  eexists _, _. split; [reflexivity|]. split; [done|]. split; [done|]. split.
  - rewrite forallb_app, forward_no_resolver. by destruct (snd _).
  - unfold relay_requests. rewrite omap_app. fold (relay_requests (concat (map forward
      (fst (stream_audio (io_run env (resolver url)) (fst (net (io_run env (resolver url))))
            (snd (net (io_run env (resolver url))))))))).
    rewrite relay_requests_forward, stream_audio_requests. by destruct (snd _).
Qed.

(** C19: a direct stream URL is relayed as it is: no resolver request, and
    the relay connects to the URL the client gave. *)
Theorem proxy_direct_url env net url :
  Playlist.is_playlist_url url = false ->
  proxy_stream env net url = streaming_response (stream_audio url (fst (net url)) (snd (net url))).
Proof. intros H. rewrite proxy_stream_unfold, (resolver_direct url H). reflexivity. Qed.

(** C20: end to end.  When the origin's body ends normally, the bodies sent
    to the client concatenate to exactly the origin's bytes and the last
    body message closes the response ([more_body=False]); while the stream
    has not completed, every body message announces more. *)
Theorem proxy_body_end_to_end env net url :
  let resolved := io_run env (resolver url) in
  let relay := stream_audio resolved (fst (net resolved)) (snd (net resolved)) in
  (snd relay = Completed ->
     concat (bodies (proxy_stream env net url)) = received (snd (net resolved)) /\
     list.last (body_flags (proxy_stream env net url)) = Some false) /\
  (snd relay <> Completed ->
     Forall (fun m => m = true) (body_flags (proxy_stream env net url))).
Proof.
  intros resolved relay. rewrite proxy_stream_unfold. fold resolved relay.
  rewrite bodies_app, flags_app, bodies_resolver, flags_resolver, bodies_streaming,
    flags_streaming. simpl. split.
  - intros Hc. rewrite Hc, concat_app. simpl. rewrite !app_nil_r. split; [|apply last_snoc].
    unfold relay in *. destruct (fst (net resolved)) as [st|e].
    + by apply completed_yields_received.
    + discriminate.
  - intros Hc. destruct (snd relay); try congruence; rewrite app_nil_r;
      apply Forall_fmap, Forall_true; done.
Qed.

(** C21: a connection failure to the origin is not an error response: the
    client has already received [200] and the audio headers, then nothing
    more (no body, no closing message); the relay has released its client. *)
Theorem proxy_connect_failure env net url e :
  fst (net (io_run env (resolver url))) = ConnectFailed e ->
  proxy_stream env net url =
    map ResolverGet (io_requests env (resolver url)) ++
    [Send (ResponseStart 200 proxy_headers); Relay OpenClient;
     Relay (SendRequest (io_run env (resolver url))); Relay CloseClient].
Proof. intros H. rewrite proxy_stream_unfold, H. reflexivity. Qed.

(** C22: the origin's status is never checked: whatever status the origin
    answers with (404 and 500 included), the client sees exactly what a
    [200] origin sending the same bytes would produce, a [200]
    [audio/mpeg] response whose body is the origin's body. *)
Theorem proxy_relays_error_status env net url st :
  fst (net (io_run env (resolver url))) = Connected st ->
  proxy_stream env net url =
    map ResolverGet (io_requests env (resolver url)) ++
    streaming_response (stream_audio (io_run env (resolver url)) (Connected 200)
                          (snd (net (io_run env (resolver url))))).
Proof. intros H. by rewrite proxy_stream_unfold, H. Qed.

End Endpoint.

Lemma proxy_direct_url_witness :
  let net := fun _ : string => (Connected 200, [Data [Byte.x01]; Eof]) in
  Playlist.is_playlist_url "http://ice2.somafm.com/dronezone-256-mp3" = false /\
  proxy_stream (fun _ => Http.Raised Http.ConnectionError) net
    "http://ice2.somafm.com/dronezone-256-mp3" =
  streaming_response (stream_audio "http://ice2.somafm.com/dronezone-256-mp3"
    (Connected 200) [Data [Byte.x01]; Eof]).
Proof.
  intros net. split; [vm_compute; reflexivity|].
  apply (proxy_direct_url _ net). vm_compute. reflexivity.
Defined.

Lemma proxy_body_end_to_end_witness :
  let net := fun _ : string => (Connected 200, [Data (replicate 9000 Byte.x00); Eof]) in
  let env := Http.serve "http://a/p.m3u" "http://a/live" in
  snd (stream_audio "http://a/live" (Connected 200) [Data (replicate 9000 Byte.x00); Eof])
    = Completed /\
  concat (bodies (proxy_stream env net "http://a/p.m3u")) = replicate 9000 Byte.x00.
Proof.
  intros net env. split; [vm_compute; reflexivity|].
  destruct (proxy_body_end_to_end env net "http://a/p.m3u") as [Hc _].
  apply Hc. vm_compute. reflexivity.
Defined.

Lemma proxy_connect_failure_witness :
  let net := fun _ : string => (ConnectFailed ConnectTimeout, @nil event) in
  fst (net (io_run (fun _ => Http.Raised Http.ConnectionError)
              (resolver "http://a/live"))) = ConnectFailed ConnectTimeout /\
  proxy_stream (fun _ => Http.Raised Http.ConnectionError) net "http://a/live" =
    [Send (ResponseStart 200 proxy_headers); Relay OpenClient;
     Relay (SendRequest "http://a/live"); Relay CloseClient].
Proof.
  intros net. split; [reflexivity|].
  rewrite (proxy_connect_failure _ net _ ConnectTimeout); reflexivity.
Defined.

Lemma proxy_relays_error_status_witness :
  let page := [Byte.x3c; Byte.x68; Byte.x31; Byte.x3e] in
  let net := fun _ : string => (Connected 404, [Data page; Eof]) in
  let env := fun _ : Http.get_request => Http.Raised Http.ConnectionError in
  fst (net (io_run env (resolver "http://a/live"))) = Connected 404 /\
  proxy_stream env net "http://a/live" =
    [Send (ResponseStart 200 proxy_headers); Relay OpenClient;
     Relay (SendRequest "http://a/live"); Relay OpenResponse; Relay (Yield page);
     Send (ResponseBody page true); Relay CloseResponse; Relay CloseClient;
     Send (ResponseBody [] false)].
Proof.
  intros page net env. assert (H : fst (net (io_run env (resolver "http://a/live"))) = Connected 404)
    by reflexivity.
  split; [exact H|]. rewrite (proxy_relays_error_status env net "http://a/live" 404 H).
  vm_compute. reflexivity.
Defined.

End Proxy.
