(* ===== verification/Table.v ===== *)
(** * fastlite tables: the persistence interface of the notes, menu and radio apps

    The apps store rows with [fastlite] over SQLite.  What they use of a
    table [t]: [t.insert(...)] (a new row; with an [INTEGER PRIMARY KEY] id
    and no [AUTOINCREMENT], SQLite gives it the largest id plus one, or 1),
    [t[id]] and [t.update(id=..., ...)] and [t.delete(id)] (all three raise
    [NotFoundError] when the id is absent, [update] and [delete] checking
    with a [get] first), and a select of all rows ordered by [id DESC].

    [Table] is that interface as a type class over the row type, with the
    laws the handlers rely on in [TableLaws]; [GmapTable] implements it with
    stdpp's [gmap nat] and the SQLite id rule.  The handlers of the notes
    and menu apps are written and proved against the interface. *)

From stdpp Require Import base list list_numbers gmap fin_maps.
From Stdlib Require Import Sorting.Sorted.
From S2P Require Import Prelude.

Module Table.

Inductive db_error := NotFoundError.

Class Table (T : Type -> Type) := {
  tbl_empty {R} : T R;
  tbl_insert {R} : R -> T R -> nat * T R;
  tbl_get {R} : nat -> T R -> option R;
  tbl_set {R} : nat -> R -> T R -> T R;
  tbl_remove {R} : nat -> T R -> T R;
  tbl_rows {R} : T R -> list (nat * R)
}.

Section Laws.
Context (T : Type -> Type) `{Table T}.

Class TableLaws := {
  get_empty {R} i : tbl_get i (@tbl_empty _ _ R) = None;
  get_insert {R} (r : R) t i t' :
    tbl_insert r t = (i, t') ->
    tbl_get i t = None /\ tbl_get i t' = Some r /\
    forall j, j <> i -> tbl_get j t' = tbl_get j t;
  get_set {R} i (r : R) t j :
    tbl_get j (tbl_set i r t) = if decide (j = i) then Some r else tbl_get j t;
  get_remove {R} i (t : T R) j :
    tbl_get j (tbl_remove i t) = if decide (j = i) then None else tbl_get j t;
  rows_spec {R} (t : T R) i r : (i, r) ∈ tbl_rows t <-> tbl_get i t = Some r;
  rows_sorted {R} (t : T R) : StronglySorted (fun a b => fst b < fst a) (tbl_rows t)
}.
End Laws.
Arguments get_empty {T _ _ R}.
Arguments get_insert {T _ _ R}.
Arguments get_set {T _ _ R}.
Arguments get_remove {T _ _ R}.
Arguments rows_spec {T _ _ R}.
Arguments rows_sorted {T _ _ R}.

(** The operations as fastlite performs them. *)
Section Ops.
Context {T : Type -> Type} `{Table T} {R : Type}.

(** [t[id]]. *)
Definition get (t : T R) (i : nat) : db_error + R :=
  match tbl_get i t with Some r => inr r | None => inl NotFoundError end.

(** [t.update(id=i, ...)]: [get] first, then write the changed row. *)
Definition update (t : T R) (i : nat) (f : R -> R) : db_error + T R :=
  match tbl_get i t with
  | Some r => inr (tbl_set i (f r) t)
  | None => inl NotFoundError
  end.

(** [t.delete(i)]: [get] first, then delete. *)
Definition delete_row (t : T R) (i : nat) : db_error + T R :=
  match tbl_get i t with
  | Some _ => inr (tbl_remove i t)
  | None => inl NotFoundError
  end.

(** The abstraction of a table: the finite map from ids to rows it stores. *)
Definition tbl_abs (t : T R) : gmap nat R := list_to_map (tbl_rows t).

(** [t(where=..., order_by='id DESC')]. *)
Definition select (p : R -> bool) (t : T R) : list (nat * R) :=
  List.filter (fun ir => p (snd ir)) (tbl_rows t).
End Ops.

(** ** Lemmas every client uses, proved from the laws *)

Section Clients.
Context {T : Type -> Type} `{Table T} `{!TableLaws T} {R : Type}.
Implicit Types t : T R.

Lemma select_spec (p : R -> bool) t i r :
  (i, r) ∈ select p t <-> tbl_get i t = Some r /\ p r = true.
Proof.
  unfold select. rewrite list_elem_of_In, filter_In, <- list_elem_of_In, rows_spec.
  done.
Qed.

Lemma select_keys (p : R -> bool) t i :
  i ∈ map fst (select p t) <-> exists r, tbl_get i t = Some r /\ p r = true.
Proof.
  rewrite list_elem_of_In, in_map_iff. split.
  - intros ([i' r] & <- & Hin). exists r. apply select_spec, list_elem_of_In, Hin.
  - intros (r & Hr). exists (i, r). split; [done|]. apply list_elem_of_In, select_spec, Hr.
Qed.

Lemma StronglySorted_filter {A} (Rel : A -> A -> Prop) (f : A -> bool) l :
  StronglySorted Rel l -> StronglySorted Rel (List.filter f l).
Proof.
  induction 1 as [|x l Hs IH Hall]; simpl; [constructor|].
  destruct (f x); [|done]. constructor; [done|].
  apply Forall_forall. intros y Hy. rewrite list_elem_of_In, filter_In in Hy.
  eapply Forall_forall in Hall; [exact Hall|]. apply list_elem_of_In, Hy.
Qed.

(** A select lists each selected row once, newest id first. *)
Lemma select_sorted (p : R -> bool) t :
  StronglySorted (fun a b => fst b < fst a) (select p t).
Proof. apply StronglySorted_filter, rows_sorted. Qed.

Lemma update_ok t i f r :
  tbl_get i t = Some r -> update t i f = inr (tbl_set i (f r) t).
Proof. unfold update. by intros ->. Qed.

Lemma update_missing t i f : tbl_get i t = None -> update t i f = inl NotFoundError.
Proof. unfold update. by intros ->. Qed.

Lemma delete_row_ok t i r : tbl_get i t = Some r -> delete_row t i = inr (tbl_remove i t).
Proof. unfold delete_row. by intros ->. Qed.

Lemma delete_row_missing t i : tbl_get i t = None -> delete_row t i = inl NotFoundError.
Proof. unfold delete_row. by intros ->. Qed.

Lemma get_set_eq i (r : R) t : tbl_get i (tbl_set i r t) = Some r.
Proof. rewrite get_set. by case_decide. Qed.

Lemma get_set_ne i j (r : R) t : j <> i -> tbl_get j (tbl_set i r t) = tbl_get j t.
Proof. rewrite get_set. by case_decide. Qed.

(** ** The abstraction function *)

Lemma tbl_abs_lookup t i : tbl_abs t !! i = tbl_get i t.
Proof.
  unfold tbl_abs. destruct (tbl_get i t) as [r|] eqn:E.
  - apply elem_of_list_to_map'; [|by apply rows_spec].
    intros x' H1 H2. apply rows_spec in H1, H2. congruence.
  - apply not_elem_of_list_to_map_1. intros Hin.
    apply list_elem_of_fmap in Hin as ([j x] & Heq & Hin). simpl in Heq. subst j.
    apply rows_spec in Hin. congruence.
Qed.

Lemma tbl_abs_set i (r : R) t : tbl_abs (tbl_set i r t) = <[i := r]> (tbl_abs t).
Proof.
  apply map_eq. intros j. rewrite tbl_abs_lookup, get_set, lookup_insert, tbl_abs_lookup.
  by case_decide; case_decide; subst.
Qed.

Lemma tbl_abs_remove i t : tbl_abs (tbl_remove i t) = delete i (tbl_abs t).
Proof.
  apply map_eq. intros j. rewrite tbl_abs_lookup, get_remove, lookup_delete, tbl_abs_lookup.
  by case_decide; case_decide; subst.
Qed.

Lemma tbl_abs_insert (r : R) t k t' :
  tbl_insert r t = (k, t') ->
  tbl_abs t !! k = None /\ tbl_abs t' = <[k := r]> (tbl_abs t).
Proof.
  intros Hins. destruct (get_insert _ _ _ _ Hins) as (Hnone & Hk & Hother).
  rewrite tbl_abs_lookup. split; [done|].
  apply map_eq. intros j. rewrite tbl_abs_lookup, lookup_insert, tbl_abs_lookup.
  case_decide; [by subst|]. by apply Hother.
Qed.

End Clients.

(** ** The gmap implementation with SQLite's rowid rule *)

Definition max_key {R} (m : gmap nat R) : nat := max_list (map fst (map_to_list m)).

Definition gmap_rows {R} (m : gmap nat R) : list (nat * R) :=
  omap (fun k => (fun r => (k, r)) <$> m !! k) (reverse (seq 0 (S (max_key m)))).

#[export] Instance GmapTable : Table (gmap nat) := {
  tbl_empty R := ∅;
  tbl_insert R r m := let i := S (max_key m) in (i, <[i := r]> m);
  tbl_get R i m := m !! i;
  tbl_set R i r m := <[i := r]> m;
  tbl_remove R i m := delete i m;
  tbl_rows R m := gmap_rows m
}.

Lemma max_key_ge {R} (m : gmap nat R) i r : m !! i = Some r -> i <= max_key m.
Proof.
  intros Hi. apply max_list_elem_of_le. apply list_elem_of_In, in_map_iff.
  exists (i, r). split; [done|]. by apply list_elem_of_In, elem_of_map_to_list.
Qed.

Lemma reverse_seq_sorted n : StronglySorted (fun a b => b < a) (reverse (seq 0 n)).
Proof.
  induction n as [|n IH]; [constructor|].
  rewrite seq_S, reverse_snoc. constructor; [done|].
  apply Forall_forall. intros x Hx. rewrite elem_of_reverse, elem_of_seq in Hx.
  lia.
Qed.

Lemma omap_sorted_fst {B} (f : nat -> option (nat * B)) (l : list nat) (Rel : nat -> nat -> Prop) :
  (forall k y, f k = Some y -> fst y = k) ->
  StronglySorted Rel l -> StronglySorted (fun a b => Rel (fst a) (fst b)) (omap f l).
Proof.
  intros Hf. induction 1 as [|k l Hs IH Hall]; simpl; [constructor|].
  destruct (f k) as [y|] eqn:Hk; [|done]. constructor; [done|].
  apply Forall_forall. intros z Hz. rewrite list_elem_of_omap in Hz.
  destruct Hz as (k' & Hk' & Hz). rewrite (Hf _ _ Hk), (Hf _ _ Hz).
  by eapply Forall_forall in Hall; [exact Hall|].
Qed.

#[export] Instance GmapTable_laws : TableLaws (gmap nat).
Proof.
  split.
  - intros R i. apply lookup_empty.
  - intros R r m i m' [= <- <-]. split; [|split].
    + simpl. destruct (m !! S (max_key m)) eqn:E; [|done].
      apply max_key_ge in E. lia.
    + apply lookup_insert_eq.
    + intros j Hj. by apply lookup_insert_ne.
  - intros R i r m j. simpl. rewrite lookup_insert. by case_decide; case_decide; subst.
  - intros R i m j. simpl. rewrite lookup_delete. by case_decide; case_decide; subst.
  - intros R m i r. simpl. unfold gmap_rows. rewrite list_elem_of_omap. split.
    + intros (k & _ & Hk). destruct (m !! k) eqn:E; simpl in Hk; [|done]. by simplify_eq.
    + intros Hi. exists i. split; [|by rewrite Hi].
      apply elem_of_reverse, elem_of_seq. apply max_key_ge in Hi. lia.
  - intros R m. simpl. unfold gmap_rows.
    apply (omap_sorted_fst _ _ (fun a b => b < a)); [|apply reverse_seq_sorted].
    intros k y Hk. destruct (m !! k); simpl in Hk; by simplify_eq.
Qed.

End Table.
