(* ===== verification/Notes.v ===== *)
(** * The shopping list: [src/notes/main.py]

    One table [notes(id, content, created_at, status)]; [status] is
    ['active'] or ['archived'] (the page also counts NULL as active).  At
    startup the table is created when absent, and a table of the older
    version without [status] gets the column with the default ['active']
    ([startup]).  The page lists the active notes and, when
    there are any, the archived notes, newest first, each with two buttons
    posting to [/notes/archive/{id}] or [/notes/activate/{id}] and
    [/notes/delete/{id}].  [POST /add] inserts a note unless the content is
    blank after [strip]; the three id routes update or delete the row and
    raise [NotFoundError] (a server error) for an unknown id.  Every handler
    answers with a 303 redirect to [/notes].

    The handlers are written against [Table.Table]; the theorems use only
    [Table.TableLaws], except those about startup and about SQLite's id
    reuse, which are statements about the [gmap] instance. *)

From stdpp Require Import base list strings gmap pretty.
From Stdlib Require Import Sorting.Sorted.
From S2P Require Import Prelude PyString Table.

Module Notes.
Import Table.

Record note := mk_note {
  content : string;
  created_at : string;
  status : option string
}.

(** A rendered item: its id, its text, and its buttons as (label, action). *)
Record item := mk_item {
  item_id : nat;
  item_text : string;
  item_actions : list (string * string)
}.

Record page := mk_page {
  active_items : list item;
  archived_items : option (list item)
}.

Inductive response :=
  | Redirect (code : nat) (location : string)
  | ServerError (e : db_error)
  | Page (p : page).

Section Handlers.
Context {T : Type -> Type} `{Table T}.

(** [where='status = "active" OR status IS NULL'] and
    [where='status = "archived"']. *)
Definition is_active (n : note) : bool :=
  match status n with None => true | Some s => String.eqb s "active" end.

Definition is_archived (n : note) : bool :=
  match status n with None => false | Some s => String.eqb s "archived" end.

Definition active_item (ir : nat * note) : item :=
  mk_item (fst ir) (content (snd ir))
    [("Archive", "/notes/archive/" +:+ pretty (fst ir));
     ("Delete", "/notes/delete/" +:+ pretty (fst ir))].

Definition archived_item (ir : nat * note) : item :=
  mk_item (fst ir) (content (snd ir))
    [("Reactivate", "/notes/activate/" +:+ pretty (fst ir));
     ("Delete", "/notes/delete/" +:+ pretty (fst ir))].

(** [get()] (lines 19-103): the two selects and what the page shows of
    them; the archived section is an empty [Div()] when there is nothing to
    show. *)
Definition get_page (t : T note) : page :=
  let active_notes := select is_active t in
  let archived_notes := select is_archived t in
  mk_page (map active_item active_notes)
    (if 0 <? length archived_notes then Some (map archived_item archived_notes) else None).

Definition back : response := Redirect 303 "/notes".

(** [post(content)] (lines 105-110); [now] is [datetime.now().isoformat()]. *)
Definition add (now content : string) (t : T note) : T note * response :=
  if negb (String.eqb (PyString.strip content) "") then
    (snd (tbl_insert (mk_note content now (Some "active")) t), back)
  else (t, back).

Definition set_status (s : string) (n : note) : note :=
  mk_note (content n) (created_at n) (Some s).

Definition respond (r : db_error + T note) (t : T note) : T note * response :=
  match r with inr t' => (t', back) | inl e => (t, ServerError e) end.

(** [archive(note_id)], [activate(note_id)], [delete(note_id)]
    (lines 112-125). *)
Definition archive (i : nat) (t : T note) : T note * response :=
  respond (update t i (set_status "archived")) t.

Definition activate (i : nat) (t : T note) : T note * response :=
  respond (update t i (set_status "active")) t.

Definition delete (i : nat) (t : T note) : T note * response :=
  respond (delete_row t i) t.

(** The requests the app serves, and one step of the server. *)
Inductive request :=
  | Add (now content : string)
  | Archive (i : nat)
  | Activate (i : nat)
  | Delete (i : nat).

Definition handle (rq : request) (t : T note) : T note * response :=
  match rq with
  | Add now c => add now c t
  | Archive i => archive i t
  | Activate i => activate i t
  | Delete i => delete i t
  end.

(** The states reachable from a table by a sequence of requests. *)
Inductive reachable (t0 : T note) : T note -> Prop :=
  | reach_init : reachable t0 t0
  | reach_step rq t : reachable t0 t -> reachable t0 (fst (handle rq t)).

End Handlers.

(** ** Startup (lines 4-14)

    The table the app finds on disk: none, one created by an older version
    of the app without the [status] column (its rows are content and
    creation time), or one with the column.  [notes.create] makes the
    table when it is absent, with the column; then the migration runs
    [ALTER TABLE notes ADD COLUMN status TEXT DEFAULT 'active'], which
    gives every existing row the default, and whose error (the column
    exists already, or there is no table) the bare [except] ignores. *)
Inductive stored_notes :=
  | NoTable
  | LegacyTable (rows : gmap nat (string * string))
  | StatusTable (rows : gmap nat note).

(** Lines 6-7. *)
Definition create_if_absent (s : stored_notes) : stored_notes :=
  match s with NoTable => StatusTable ∅ | _ => s end.

(** A row of the older table after [ADD COLUMN ... DEFAULT 'active']. *)
Definition legacy_note (r : string * string) : note := mk_note r.1 r.2 (Some "active").

(** Line 12: [None] is the [OperationalError] SQLite raises. *)
Definition add_status_column (s : stored_notes) : option stored_notes :=
  match s with
  | LegacyTable rows => Some (StatusTable (legacy_note <$> rows))
  | StatusTable _ => None
  | NoTable => None
  end.

(** Lines 6-14: create, then migrate, ignoring the migration's error. *)
Definition startup (s : stored_notes) : stored_notes :=
  let s := create_if_absent s in
  match add_status_column s with Some s' => s' | None => s end.

(** The table the handlers serve after startup ([startup] always leaves a
    table with the column, [startup_status_table]). *)
Definition started (s : stored_notes) : gmap nat note :=
  match startup s with StatusTable t => t | _ => ∅ end.

(** ** The abstract shopping list

    What the app promises, stated on the finite map from ids to notes that
    the table stores: a request changes that map as below, and nothing
    else.  [Add] stores a non-blank note under some id that was free (the
    database picks it); the id routes change or remove the note under
    their id, and fail with [NotFoundError], changing nothing, when there is
    none. *)

Definition request_target (rq : request) : option nat :=
  match rq with Add _ _ => None | Archive i | Activate i | Delete i => Some i end.

Inductive spec_step : request -> gmap nat note -> gmap nat note -> response -> Prop :=
  | spec_add_blank now c m :
      PyString.strip c = "" -> spec_step (Add now c) m m back
  | spec_add_new now c m i :
      PyString.strip c <> "" -> m !! i = None ->
      spec_step (Add now c) m (<[i := mk_note c now (Some "active")]> m) back
  | spec_archive i m n :
      m !! i = Some n -> spec_step (Archive i) m (<[i := set_status "archived" n]> m) back
  | spec_activate i m n :
      m !! i = Some n -> spec_step (Activate i) m (<[i := set_status "active" n]> m) back
  | spec_delete i m n :
      m !! i = Some n -> spec_step (Delete i) m (base.delete i m) back
  | spec_missing rq i m :
      request_target rq = Some i -> m !! i = None ->
      spec_step rq m m (ServerError NotFoundError).

(** ** Properties of the shopping list *)

Section Proofs.
Context {T : Type -> Type} `{Table T} `{!TableLaws T}.
Implicit Types t : T note.

(** The statuses the handlers can write, plus NULL from older rows. *)
Definition status_ok (n : note) : bool :=
  match status n with
  | None => true
  | Some s => String.eqb s "active" || String.eqb s "archived"
  end.

Definition table_wf t : Prop := forall i n, tbl_get i t = Some n -> status_ok n = true.

(** The executable check of [table_wf]. *)
Definition table_wfb t : bool := forallb (fun ir => status_ok (snd ir)) (tbl_rows t).

Lemma table_wfb_sound t : table_wfb t = true -> table_wf t.
Proof.
  unfold table_wfb. rewrite forallb_forall. intros Hall i n Hn.
  apply (Hall (i, n)). apply list_elem_of_In, rows_spec, Hn.
Qed.

Definition shown_active (p : page) (i : nat) : Prop := i ∈ map item_id (active_items p).
Definition shown_archived (p : page) (i : nat) : Prop :=
  i ∈ map item_id (default [] (archived_items p)).

Lemma map_item_id_active (l : list (nat * note)) : map item_id (map active_item l) = map fst l.
Proof. rewrite map_map. reflexivity. Qed.

Lemma map_item_id_archived (l : list (nat * note)) : map item_id (map archived_item l) = map fst l.
Proof. rewrite map_map. reflexivity. Qed.

Lemma shown_active_iff t i :
  shown_active (get_page t) i <-> exists n, tbl_get i t = Some n /\ is_active n = true.
Proof. unfold shown_active, get_page. simpl. rewrite map_item_id_active. apply select_keys. Qed.

Lemma shown_archived_iff t i :
  shown_archived (get_page t) i <-> exists n, tbl_get i t = Some n /\ is_archived n = true.
Proof.
  unfold shown_archived, get_page. simpl. rewrite <- select_keys.
  destruct (Nat.ltb_spec 0 (length (select is_archived t))) as [_|Hl]; simpl.
  - by rewrite map_item_id_archived.
  - destruct (select is_archived t); simpl in *; [|lia]. split; intros Hin; inversion Hin.
Qed.

Lemma active_archived_exclusive n : is_active n = true -> is_archived n = false.
Proof.
  unfold is_active, is_archived. destruct (status n) as [s|]; [|done].
  intros Ha%String.eqb_eq. by subst.
Qed.

Lemma status_ok_cases n : status_ok n = true -> is_active n = true \/ is_archived n = true.
Proof.
  unfold status_ok, is_active, is_archived. destruct (status n); [|auto].
  rewrite orb_true_iff. tauto.
Qed.

Lemma respond_inr (t t' : T note) : respond (inr t') t = (t', back).
Proof. done. Qed.

Lemma set_status_ok s n :
  s = "active" \/ s = "archived" -> status_ok (set_status s n) = true.
Proof. intros [-> | ->]; reflexivity. Qed.

(** The table invariant for any predicate on notes that the handlers'
    writes satisfy: a new note is active, and the id routes set the status
    to active or archived. *)
Definition table_all (P : note -> bool) t : Prop :=
  forall i n, tbl_get i t = Some n -> P n = true.

Definition writes_ok (P : note -> bool) : Prop :=
  forall s n, s = "active" \/ s = "archived" -> P (set_status s n) = true.

Lemma update_status_keeps P t i s :
  writes_ok P -> table_all P t -> s = "active" \/ s = "archived" ->
  table_all P (fst (respond (update t i (set_status s)) t)).
Proof.
  intros HP Ht Hs. unfold update. destruct (tbl_get i t) as [n|] eqn:Hi; simpl; [|done].
  intros j m. rewrite get_set. case_decide; [intros [= <-]; by apply HP|].
  apply Ht.
Qed.

Lemma handle_keeps P rq t : writes_ok P -> table_all P t -> table_all P (fst (handle rq t)).
Proof.
  intros HP Ht. destruct rq as [now c|i|i|i]; simpl.
  - unfold add. destruct (negb _); simpl; [|done].
    destruct (tbl_insert (mk_note c now (Some "active")) t) as [k t'] eqn:Hins.
    destruct (get_insert _ _ _ _ Hins) as (_ & Hk & Hother). simpl.
    intros j m. destruct (decide (j = k)) as [->|Hne].
    + rewrite Hk. intros [= <-]. apply (HP "active" (mk_note c now None)). auto.
    + rewrite Hother by done. apply Ht.
  - apply update_status_keeps; auto.
  - apply update_status_keeps; auto.
  - unfold delete, delete_row. destruct (tbl_get i t); simpl; [|done].
    intros j m. rewrite get_remove. case_decide; [done|]. apply Ht.
Qed.

Lemma reachable_keeps P t0 t : writes_ok P -> table_all P t0 -> reachable t0 t -> table_all P t.
Proof. intros HP Ht0. induction 1; [done|]. by apply handle_keeps. Qed.

Lemma handle_wf rq t : table_wf t -> table_wf (fst (handle rq t)).
Proof. apply handle_keeps. intros s n Hs. by apply set_status_ok. Qed.

(** From a table whose statuses are active, archived or NULL, every
    sequence of requests keeps it so. *)
Lemma reachable_wf t0 t : table_wf t0 -> reachable t0 t -> table_wf t.
Proof. apply reachable_keeps. intros s n Hs. by apply set_status_ok. Qed.

Lemma respond_update_step rq i s t :
  request_target rq = Some i ->
  (forall m n, m !! i = Some n -> spec_step rq m (<[i := set_status s n]> m) back) ->
  spec_step rq (tbl_abs t) (tbl_abs (fst (respond (update t i (set_status s)) t)))
    (snd (respond (update t i (set_status s)) t)).
Proof.
  intros Hrq Hok. unfold update. destruct (tbl_get i t) as [n|] eqn:Hi; simpl.
  - rewrite tbl_abs_set. apply Hok. by rewrite tbl_abs_lookup.
  - apply (spec_missing _ i); [done|by rewrite tbl_abs_lookup].
Qed.

(** C24: refinement.  Every handler, on any table meeting the fastlite
    laws, changes the stored notes exactly as the abstract shopping list
    [spec_step] allows, with the same response. *)
Theorem notes_handlers_refine rq t :
  spec_step rq (tbl_abs t) (tbl_abs (fst (handle rq t))) (snd (handle rq t)).
Proof.
  destruct rq as [now c|i|i|i]; simpl.
  - unfold add. destruct (String.eqb (PyString.strip c) "") eqn:E; simpl.
    + apply spec_add_blank. by apply String.eqb_eq.
    + destruct (tbl_insert (mk_note c now (Some "active")) t) as [k t'] eqn:Hins. simpl.
      destruct (tbl_abs_insert _ _ _ _ Hins) as [Hk ->].
      apply spec_add_new; [by apply String.eqb_neq|done].
  - apply respond_update_step; [done|]. intros m n. apply spec_archive.
  - apply respond_update_step; [done|]. intros m n. apply spec_activate.
  - unfold delete, delete_row. destruct (tbl_get i t) as [n|] eqn:Hi; simpl.
    + rewrite tbl_abs_remove. apply (spec_delete _ _ n). by rewrite tbl_abs_lookup.
    + apply (spec_missing _ i); [done|by rewrite tbl_abs_lookup].
Qed.






(** C25: the page shows exactly the stored notes, each in exactly one of the
    two lists (for a table whose statuses are active, archived or NULL). *)
Theorem notes_page_partition t :
  table_wf t ->
  forall i,
    ((exists n, tbl_get i t = Some n) <->
       shown_active (get_page t) i \/ shown_archived (get_page t) i) /\
    ~ (shown_active (get_page t) i /\ shown_archived (get_page t) i).
Proof.
  intros Hwf i. rewrite shown_active_iff, shown_archived_iff. split.
  - split; [|naive_solver]. intros (n & Hn).
    destruct (status_ok_cases n (Hwf _ _ Hn)); eauto.
  - intros [(n & Hn & Ha) (m & Hm & Hb)]. rewrite Hn in Hm. injection Hm as <-.
    by rewrite active_archived_exclusive in Hb.
Qed.


(** [POST /add] ignores content that is blank after [strip] and otherwise
    stores it unstripped as a new active note under a fresh id, leaving
    every other note as it was; it always redirects to [/notes]. *)
Lemma notes_add_spec now c t :
  snd (add now c t) = back /\
  (String.eqb (PyString.strip c) "" = true -> fst (add now c t) = t) /\
  (String.eqb (PyString.strip c) "" = false ->
     exists i, tbl_get i t = None /\
       tbl_get i (fst (add now c t)) = Some (mk_note c now (Some "active")) /\
       forall j, j <> i -> tbl_get j (fst (add now c t)) = tbl_get j t).
Proof.
  unfold add. destruct (String.eqb (PyString.strip c) "") eqn:E; simpl.
  - split; [done|]. split; [done|discriminate].
  - destruct (tbl_insert (mk_note c now (Some "active")) t) as [k t'] eqn:Hins.
    split; [done|]. split; [discriminate|]. intros _. exists k.
    exact (get_insert _ _ _ _ Hins).
Qed.

(** Archiving an active note and reactivating it gives back the same
    table, row for row. *)
Lemma notes_archive_activate_roundtrip t i n :
  tbl_get i t = Some n -> status n = Some "active" ->
  forall j, tbl_get j (fst (activate i (fst (archive i t)))) = tbl_get j t.
Proof.
  intros Hi Hs j. unfold archive. rewrite (update_ok _ _ _ n Hi). simpl.
  unfold activate. rewrite (update_ok _ _ _ (set_status "archived" n)) by apply get_set_eq.
  simpl. rewrite !get_set. case_decide; [subst|done].
  rewrite Hi. destruct n as [c d st]. simpl in *. by subst.
Qed.

(** C27: an unknown id makes archive, reactivate and delete fail with
    [NotFoundError] (an unhandled server error) and leaves the table as it
    was. *)
Theorem notes_missing_id_error t i :
  tbl_get i t = None ->
  archive i t = (t, ServerError NotFoundError) /\
  activate i t = (t, ServerError NotFoundError) /\
  delete i t = (t, ServerError NotFoundError).
Proof.
  intros Hi. unfold archive, activate, delete.
  by rewrite !update_missing, delete_row_missing.
Qed.


End Proofs.

(** ** The SQLite instance *)

Lemma gmap_add_fresh (t : gmap nat note) now c :
  PyString.strip c <> "" ->
  t !! S (max_key t) = None /\
  fst (add now c t) = <[S (max_key t) := mk_note c now (Some "active")]> t.
Proof.
  intros Hc. split.
  - destruct (t !! S (max_key t)) eqn:E; [|done]. apply max_key_ge in E. lia.
  - unfold add. by destruct (String.eqb_spec (PyString.strip c) "").
Qed.

Lemma gmap_delete_fresh (t : gmap nat note) i n :
  t !! i = None -> fst (delete i (<[i := n]> t)) = t.
Proof.
  intros H. unfold delete, delete_row.
  change (tbl_get i (<[i := n]> t)) with (<[i := n]> t !! i).
  rewrite lookup_insert_eq. cbn. by apply delete_insert_id.
Qed.

(** C29: ids are reused.  SQLite gives a new row the largest id plus one,
    so in every table, after a note is added and deleted, the next note
    gets the same id: the delete form of the first note (from a page
    rendered before) now deletes the second one, and archiving acts on it
    too. *)
Theorem notes_id_reuse (t : gmap nat note) now c now' c' :
  PyString.strip c <> "" -> PyString.strip c' <> "" ->
  let i := S (max_key t) in
  let t1 := fst (add now c t) in
  let t2 := fst (add now' c' (fst (delete i t1))) in
  t1 !! i = Some (mk_note c now (Some "active")) /\
  t2 !! i = Some (mk_note c' now' (Some "active")) /\
  fst (delete i t2) = t.
Proof.
  intros Hc Hc'. cbv zeta.
  destruct (gmap_add_fresh t now c Hc) as [Hfresh Ht1]. rewrite Ht1, gmap_delete_fresh by done.
  destruct (gmap_add_fresh t now' c' Hc') as [_ Ht2]. rewrite Ht2, gmap_delete_fresh by done.
  by rewrite !lookup_insert_eq.
Qed.
(** ** Startup and the migration *)

(** A status this app writes: active or archived, never NULL. *)
Definition status_known (n : note) : bool :=
  match status n with
  | None => false
  | Some s => String.eqb s "active" || String.eqb s "archived"
  end.

Definition stored_ok (s : stored_notes) : Prop :=
  match s with StatusTable t => table_all status_known t | _ => True end.

Lemma writes_ok_known : writes_ok status_known.
Proof. intros s n [-> | ->]; reflexivity. Qed.

Lemma startup_status_table s : exists t, startup s = StatusTable t /\ started s = t.
Proof. unfold started. destruct s; eauto. Qed.

(** Restarting the app changes nothing: on a migrated table the [ALTER]
    fails and is ignored. *)
Lemma startup_idem s : startup (startup s) = startup s.
Proof. by destruct s. Qed.

(** A row of the older table keeps its id, its text and its time, and is
    active. *)
Lemma started_legacy rows i : started (LegacyTable rows) !! i = legacy_note <$> rows !! i.
Proof. apply lookup_fmap. Qed.

(** After the migration every row of the older table is listed among the
    active notes, and nothing else is. *)
Lemma started_legacy_shown rows i :
  shown_active (get_page (started (LegacyTable rows))) i <-> is_Some (rows !! i).
Proof.
  rewrite shown_active_iff. change (tbl_get i (started (LegacyTable rows))) with
    (started (LegacyTable rows) !! i). rewrite started_legacy.
  split.
  - intros (n & (r & Hr & _)%fmap_Some & _). by exists r.
  - intros [r Hr]. exists (legacy_note r). by rewrite Hr.
Qed.

Lemma started_known s : stored_ok s -> table_all status_known (started s).
Proof.
  intros Hs i n. change (tbl_get i (started s)) with (started s !! i).
  destruct s as [|rows|t].
  - change (started NoTable) with (∅ : gmap nat note). by rewrite lookup_empty.
  - rewrite started_legacy. intros (r & _ & ->)%fmap_Some. reflexivity.
  - apply Hs.
Qed.

(** C23: invariant of the running app.  Whatever table the app finds on
    disk (none, one of the older version without the [status] column,
    which the migration gives the default 'active', or one whose statuses
    are all active or archived), after startup every sequence of requests
    leaves every status active or archived: no row ever has a NULL status,
    so the [status IS NULL] case of the page's query is never needed. *)
Theorem notes_reachable_wf s t :
  stored_ok s -> reachable (started s) t -> table_all status_known t.
Proof. intros Hs. apply reachable_keeps; [apply writes_ok_known|by apply started_known]. Qed.

(** ** Witnesses on the SQLite instance *)

Definition sample : gmap nat note :=
  <[2 := mk_note "eggs" "t2" (Some "archived")]> {[1 := mk_note "milk" "t1" (Some "active")]}.

Definition legacy_sample : stored_notes := LegacyTable {[1 := ("milk", "t1")]}.

Lemma notes_reachable_wf_witness :
  stored_ok legacy_sample /\
  reachable (started legacy_sample) (fst (handle (Archive 1) (started legacy_sample))) /\
  table_all status_known (fst (handle (Archive 1) (started legacy_sample))).
Proof.
  assert (Hs : stored_ok legacy_sample) by exact I.
  assert (Hr : reachable (started legacy_sample) (fst (handle (Archive 1) (started legacy_sample))))
    by (apply reach_step, reach_init).
  split; [done|]. split; [done|]. exact (notes_reachable_wf legacy_sample _ Hs Hr).
Defined.

Lemma notes_page_partition_witness :
  table_wf sample /\
  ~ (shown_active (get_page sample) 2 /\ shown_archived (get_page sample) 2).
Proof.
  assert (Hwf : table_wf sample) by (apply table_wfb_sound; vm_compute; reflexivity).
  split; [done|]. exact (proj2 (notes_page_partition sample Hwf 2)).
Defined.


Lemma notes_missing_id_error_witness :
  tbl_get 7 sample = None /\ archive 7 sample = (sample, ServerError NotFoundError).
Proof.
  split; [reflexivity|]. exact (proj1 (notes_missing_id_error sample 7 eq_refl)).
Defined.


Lemma notes_handlers_refine_witness :
  snd (handle (Archive 1) sample) = back /\
  spec_step (Archive 1) (tbl_abs sample) (tbl_abs (fst (handle (Archive 1) sample))) back.
Proof.
  assert (Hb : snd (handle (Archive 1) sample) = back) by reflexivity.
  split; [exact Hb|]. pose proof (notes_handlers_refine (Archive 1) sample) as Hs.
  rewrite Hb in Hs. exact Hs.
Defined.

Lemma notes_id_reuse_witness :
  (PyString.strip "milk" <> "" /\ PyString.strip "eggs" <> "") /\
  fst (delete 1 (fst (add "t2" "eggs" (fst (delete 1 (fst (add "t1" "milk" ∅)))))))
    = (∅ : gmap nat note).
Proof.
  assert (H1 : PyString.strip "milk" <> "") by discriminate.
  assert (H2 : PyString.strip "eggs" <> "") by discriminate.
  split; [split; [exact H1|exact H2]|].
  exact (proj2 (proj2 (notes_id_reuse ∅ "t1" "milk" "t2" "eggs" H1 H2))).
Defined.

End Notes.
