(* ===== verification/Menu.v ===== *)
(** * The family menu: [src/menu/main.py]

    One table [menu_items(id, content, created_at)].  The page lists every
    item, newest first, each with an [Edit] button ([GET /menu/edit/{id}])
    and a [Delete] button ([POST /menu/delete/{id}]).  [POST /add] inserts
    an item unless the content is blank after [strip]; [GET /edit/{id}]
    reads the item ([menu_items[item_id]], [NotFoundError] if absent) and
    shows a form posting the content to [/menu/update/{id}];
    [POST /update/{id}] writes the content when it is not blank and does
    nothing otherwise; [POST /delete/{id}] deletes.

    Like the notes app, the handlers are written against [Table.Table] and
    proved from [Table.TableLaws]. *)

From stdpp Require Import base list strings gmap pretty.
From Stdlib Require Import Sorting.Sorted.
From S2P Require Import Prelude PyString Table.

Module Menu.
Import Table.

Record menu_item := mk_menu_item {
  m_content : string;
  m_created_at : string
}.

(** A listed item: id, text, and its two forms as (method, action). *)
Record entry := mk_entry {
  entry_id : nat;
  entry_text : string;
  entry_forms : list (string * string)
}.

Record edit_form := mk_edit_form {
  form_title : string;
  form_text : string;
  form_action : string
}.

Inductive response :=
  | Redirect (code : nat) (location : string)
  | ServerError (e : db_error)
  | ListPage (entries : list entry)
  | EditPage (f : edit_form).

Section Handlers.
Context {T : Type -> Type} `{Table T}.

Definition back : response := Redirect 303 "/menu".

Definition nonblank (s : string) : bool := negb (String.eqb (PyString.strip s) "").

Definition list_entry (ir : nat * menu_item) : entry :=
  mk_entry (fst ir) (m_content (snd ir))
    [("get", "/menu/edit/" +:+ pretty (fst ir)); ("post", "/menu/delete/" +:+ pretty (fst ir))].

(** [get()] (lines 13-66). *)
Definition get_page (t : T menu_item) : response :=
  ListPage (map list_entry (select (fun _ => true) t)).

(** [post(content)] (lines 68-73). *)
Definition add (now content : string) (t : T menu_item) : T menu_item * response :=
  if nonblank content then (snd (tbl_insert (mk_menu_item content now) t), back)
  else (t, back).

(** [edit(item_id)] (lines 75-98). *)
Definition edit (i : nat) (t : T menu_item) : response :=
  match get t i with
  | inr it => EditPage (mk_edit_form ("Edit Item #" +:+ pretty i) (m_content it)
                                     ("/menu/update/" +:+ pretty i))
  | inl e => ServerError e
  end.

Definition set_content (c : string) (it : menu_item) : menu_item :=
  mk_menu_item c (m_created_at it).

(** [update(item_id, content)] (lines 100-104): no lookup at all when the
    content is blank. *)
Definition update_item (i : nat) (content : string) (t : T menu_item)
    : T menu_item * response :=
  if nonblank content then
    match update t i (set_content content) with
    | inr t' => (t', back)
    | inl e => (t, ServerError e)
    end
  else (t, back).

(** [delete(item_id)] (lines 106-109). *)
Definition delete (i : nat) (t : T menu_item) : T menu_item * response :=
  match delete_row t i with
  | inr t' => (t', back)
  | inl e => (t, ServerError e)
  end.

Inductive request :=
  | Add (now content : string)
  | Update (i : nat) (content : string)
  | Delete (i : nat).

Definition handle (rq : request) (t : T menu_item) : T menu_item * response :=
  match rq with
  | Add now c => add now c t
  | Update i c => update_item i c t
  | Delete i => delete i t
  end.

Inductive reachable (t0 : T menu_item) : T menu_item -> Prop :=
  | reach_init : reachable t0 t0
  | reach_step rq t : reachable t0 t -> reachable t0 (fst (handle rq t)).

End Handlers.

(** ** Properties of the menu *)

Section Proofs.
Context {T : Type -> Type} `{Table T} `{!TableLaws T}.
Implicit Types t : T menu_item.

Definition content_ok t : Prop :=
  forall i it, tbl_get i t = Some it -> nonblank (m_content it) = true.

Definition content_okb t : bool := forallb (fun ir => nonblank (m_content (snd ir))) (tbl_rows t).

Lemma content_okb_sound t : content_okb t = true -> content_ok t.
Proof.
  unfold content_okb. rewrite forallb_forall. intros Hall i it Hi.
  apply (Hall (i, it)). apply list_elem_of_In, rows_spec, Hi.
Qed.

Lemma handle_content_ok rq t : content_ok t -> content_ok (fst (handle rq t)).
Proof.
  intros Hok. destruct rq as [now c|i c|i]; simpl.
  - unfold add. destruct (nonblank c) eqn:Hc; simpl; [|done].
    destruct (tbl_insert (mk_menu_item c now) t) as [k t'] eqn:Hins.
    destruct (get_insert _ _ _ _ Hins) as (_ & Hk & Hother). simpl.
    intros j it. destruct (decide (j = k)) as [->|Hne].
    + rewrite Hk. by intros [= <-].
    + rewrite Hother by done. apply Hok.
  - unfold update_item. destruct (nonblank c) eqn:Hc; [|done].
    unfold update. destruct (tbl_get i t) eqn:Hi; simpl; [|done].
    intros j it. rewrite get_set. case_decide; [by intros [= <-]|]. apply Hok.
  - unfold delete, delete_row. destruct (tbl_get i t); simpl; [|done].
    intros j it. rewrite get_remove. case_decide; [done|]. apply Hok.
Qed.

(** C30: invariant.  No request stores blank content: from a table without
    blank items, every reachable table has none. *)
Theorem menu_reachable_nonblank t0 t : content_ok t0 -> reachable t0 t -> content_ok t.
Proof. intros Hok. induction 1; [done|]. by apply handle_content_ok. Qed.

Lemma edit_ok t i it :
  tbl_get i t = Some it ->
  edit i t = EditPage (mk_edit_form ("Edit Item #" +:+ pretty i) (m_content it)
                                    ("/menu/update/" +:+ pretty i)).
Proof. unfold edit, get. by intros ->. Qed.


(** C32: [update] checks the id only for non-blank content: blank content is
    accepted silently for any id, existing or not, while non-blank content
    for an unknown id raises [NotFoundError]. *)
Theorem menu_update_blank_unchecked t i c :
  (nonblank c = false -> update_item i c t = (t, back)) /\
  (nonblank c = true -> tbl_get i t = None -> update_item i c t = (t, ServerError NotFoundError)).
Proof.
  unfold update_item. split; intros Hc; rewrite Hc; [done|].
  intros Hi. by rewrite update_missing.
Qed.

Lemma in_map_entry (l : list (nat * menu_item)) e :
  e ∈ map list_entry l -> exists ir, ir ∈ l /\ e = list_entry ir.
Proof.
  rewrite list_elem_of_In, in_map_iff. intros (ir & <- & Hin).
  exists ir. split; [by apply list_elem_of_In|done].
Qed.

(** Every entry of the list page names a stored item: its edit page opens
    and its delete form succeeds. *)
Lemma menu_page_links_valid t es :
  get_page t = ListPage es ->
  forall e, e ∈ es ->
    (exists f, edit (entry_id e) t = EditPage f) /\ snd (delete (entry_id e) t) = back.
Proof.
  unfold get_page. intros [= <-] e He. apply in_map_entry in He as ([i it] & Hin & ->).
  apply select_spec in Hin as [Hi _]. simpl. split.
  - eexists. by apply edit_ok.
  - unfold delete. by rewrite (delete_row_ok _ _ it Hi).
Qed.

End Proofs.

(** ** Witnesses on the SQLite instance *)

Definition sample : gmap nat menu_item :=
  <[2 := mk_menu_item "Tacos" "t2"]> {[1 := mk_menu_item "Dal and rice" "t1"]}.

Lemma menu_reachable_nonblank_witness :
  content_ok sample /\ reachable sample (fst (handle (Add "t3" "   ") sample)) /\
  content_ok (fst (handle (Add "t3" "   ") sample)).
Proof.
  assert (Hok : content_ok sample) by (apply content_okb_sound; vm_compute; reflexivity).
  assert (Hr : reachable sample (fst (handle (Add "t3" "   ") sample)))
    by (apply reach_step, reach_init).
  split; [done|]. split; [done|]. exact (menu_reachable_nonblank sample _ Hok Hr).
Defined.


Lemma menu_update_blank_unchecked_witness :
  nonblank " " = false /\ update_item 9 " " sample = (sample, back) /\
  nonblank "Soup" = true /\ tbl_get 9 sample = None /\
  update_item 9 "Soup" sample = (sample, ServerError NotFoundError).
Proof.
  split; [reflexivity|]. split; [exact (proj1 (menu_update_blank_unchecked sample 9 " ") eq_refl)|].
  split; [reflexivity|]. split; [reflexivity|].
  exact (proj2 (menu_update_blank_unchecked sample 9 "Soup") eq_refl eq_refl).
Defined.

End Menu.
