(* ===== verification/Player.v ===== *)
(** * The radio page's player: the [audio_js] script of [src/radio/main.py]

    The script keeps three globals, [currentStation], [audio] (the current
    HTML5 [Audio] element) and the DOM it writes to: the [nowPlaying]
    heading, the pause button's label and the debug console, which keeps the
    20 newest messages, newest first ([log], lines 21-35).
    [playStation(name, url)] (lines 37-102) pauses and empties the previous
    element, creates a new one with volume 0.8, attaches listeners that
    close over [name], sets its source and calls [play()]; [pauseRadio()]
    toggles the current element; [setVolume(v)] sets its volume.

    Listeners are never removed, so events of an old element still run their
    handlers; and the [error] handler reads the error code of the global
    [audio], not of the element that fired.  The model keeps every element
    ever created, numbered, and delivers the browser's events (media events
    of any element, settlement of [play()] promises) as explicit inputs of
    [step]. *)

From stdpp Require Import base list strings pretty.
From S2P Require Import Prelude.

Module Player.

(** An [Audio] element: the station name its listeners close over, its
    source, [paused], its volume in percent, and [error.code]. *)
Record elem := mk_elem {
  el_name : string;
  el_src : string;
  el_paused : bool;
  el_volume : nat;
  el_error : option nat
}.

Record player := mk_player {
  current_station : option string;
  audio : option nat;
  elems : list elem;
  now_playing : string;
  pause_label : string;
  debug_log : list string;
  highlighted : option string
}.

Inductive media_event :=
  | LoadStart | CanPlay | Playing | Pause | Error (code : nat) | Stalled | Waiting | Progress.

(** What the browser can deliver: the user's clicks (with the clicked
    button for [playStation]), media events of element [k], and the
    settlement of the [play()] promise made by [playStation] or by
    [pauseRadio]. *)
Inductive input :=
  | PlayStation (name url target : string)
  | PauseRadio
  | SetVolume (v : nat)
  | Media (k : nat) (ev : media_event)
  | PlayPromise (from_pause : bool) (ok : bool) (msg : string).

Definition log_limit : nat := 20.

(** [while (debugLog.children.length > 20) removeChild(lastChild)]. *)
Fixpoint trim_log (fuel : nat) (l : list string) : list string :=
  match fuel with
  | 0 => l
  | S f => if log_limit <? length l then trim_log f (removelast l) else l
  end.

(** [log(message)]: insert before the first child, then trim. *)
Definition log (msg : string) (p : player) : player :=
  let l := msg :: debug_log p in
  mk_player (current_station p) (audio p) (elems p) (now_playing p) (pause_label p)
    (trim_log (length l) l) (highlighted p).

Definition set_now_playing (s : string) (p : player) : player :=
  mk_player (current_station p) (audio p) (elems p) s (pause_label p) (debug_log p) (highlighted p).

Definition set_pause_label (s : string) (p : player) : player :=
  mk_player (current_station p) (audio p) (elems p) (now_playing p) s (debug_log p) (highlighted p).

Definition update_elem (k : nat) (f : elem -> elem) (p : player) : player :=
  mk_player (current_station p) (audio p) (alter f k (elems p)) (now_playing p)
    (pause_label p) (debug_log p) (highlighted p).

Definition set_paused (b : bool) (e : elem) : elem :=
  mk_elem (el_name e) (el_src e) b (el_volume e) (el_error e).
Definition set_src (s : string) (e : elem) : elem :=
  mk_elem (el_name e) s (el_paused e) (el_volume e) (el_error e).
Definition set_volume (v : nat) (e : elem) : elem :=
  mk_elem (el_name e) (el_src e) (el_paused e) v (el_error e).
Definition set_error (c : nat) (e : elem) : elem :=
  mk_elem (el_name e) (el_src e) (el_paused e) (el_volume e) (Some c).

Definition error_messages : list string :=
  ["Unknown error"; "MEDIA_ERR_ABORTED: Playback aborted"; "MEDIA_ERR_NETWORK: Network error";
   "MEDIA_ERR_DECODE: Decode error"; "MEDIA_ERR_SRC_NOT_SUPPORTED: Format not supported"].

(** [errorMessages[audio.error?.code || 0] || 'Unknown error'], with the
    global [audio]. *)
Definition current_error_message (p : player) : string :=
  let code := match audio p with
              | Some k => match elems p !! k with Some e => default 0 (el_error e) | None => 0 end
              | None => 0
              end in
  default "Unknown error" (error_messages !! code).

(** The listeners attached by [playStation] (lines 56-79), run for an event
    of element [k] whose listeners close over [name]. *)
Definition on_media (name : string) (ev : media_event) (p : player) : player :=
  match ev with
  | LoadStart => log "Loading stream..." p
  | CanPlay => log "✓ Stream ready to play" p
  | Playing => set_pause_label "⏸️ Pause" (set_now_playing ("Now Playing: " +:+ name)
                 (log "✓ Playback started" p))
  | Pause => set_pause_label "▶️ Resume" (log "Paused" p)
  | Error _ => set_now_playing ("Error: " +:+ name)
                 (log ("✗ Error: " +:+ current_error_message p) p)
  | Stalled => log "Stream stalled (buffering...)" p
  | Waiting => log "Buffering..." p
  | Progress => log "Downloading stream data..." p
  end.

(** [playStation(name, url)]. *)
Definition play_station (name url target : string) (p : player) : player :=
  let p := log ("Stream URL: " +:+ url) (log ("Attempting to play: " +:+ name)
             (mk_player (Some name) (audio p) (elems p) (now_playing p) (pause_label p)
                (debug_log p) (highlighted p))) in
  let p := match audio p with
           | Some k => log "Stopped previous stream" (update_elem k (set_src "")
                         (update_elem k (set_paused true) p))
           | None => p
           end in
  let k := length (elems p) in
  mk_player (current_station p) (Some k) (elems p ++ [mk_elem name url false 80 None])
    (now_playing p) (pause_label p) (debug_log p) (Some target).

(** [pauseRadio()] (lines 104-117). *)
Definition pause_radio (p : player) : player :=
  match audio p with
  | None => p
  | Some k =>
      match elems p !! k with
      | Some e =>
          if negb (el_paused e) then
            set_now_playing ("Paused: " +:+ default "null" (current_station p))
              (update_elem k (set_paused true) p)
          else update_elem k (set_paused false) p
      | None => p
      end
  end.

(** [setVolume(value)] (lines 119-124). *)
Definition set_volume_js (v : nat) (p : player) : player :=
  match audio p with
  | None => p
  | Some k => log ("Volume set to " +:+ pretty v +:+ "%") (update_elem k (set_volume v) p)
  end.

Definition step (i : input) (p : player) : player :=
  match i with
  | PlayStation name url target => play_station name url target p
  | PauseRadio => pause_radio p
  | SetVolume v => set_volume_js v p
  | Media k ev =>
      match elems p !! k with
      | Some e =>
          let p := match ev with Error c => update_elem k (set_error c) p | _ => p end in
          on_media (el_name e) ev p
      | None => p
      end
  | PlayPromise false true _ => log "✓ Play request successful" p
  | PlayPromise false false msg => log ("✗ Play blocked: " +:+ msg +:+ " (click play again)") p
  | PlayPromise true true _ =>
      set_now_playing ("Now Playing: " +:+ default "null" (current_station p)) p
  | PlayPromise true false msg => log ("✗ Resume error: " +:+ msg) p
  end.

Definition run (ins : list input) (p : player) : player := fold_left (fun p i => step i p) ins p.

(** The page as loaded: no station, the initial texts, and the script's
    first log line (line 126). *)
Definition initial : player :=
  log "Radio player initialized (HTML5 Audio)"
    (mk_player None None [] "Select a station" "⏸️ Pause" [] None).

(** ** The debug console *)

(** Each iteration of the [while] loop removes the last line: after [fuel]
    iterations at most, [max 20 (length l - fuel)] lines remain. *)
Lemma trim_log_spec fuel l :
  trim_log fuel l = take (Nat.max log_limit (length l - fuel)) l.
Proof.
  revert l; induction fuel as [|f IH]; intros l; simpl.
  - rewrite take_ge; [done|]. lia.
  - destruct (Nat.ltb_spec log_limit (length l)) as [Hgt|Hle].
    + rewrite IH, removelast_firstn_len, length_firstn, take_take. f_equal. lia.
    + rewrite take_ge; [done|]. lia.
Qed.

Lemma trim_log_take fuel l :
  length l <= fuel + log_limit -> trim_log fuel l = take log_limit l.
Proof. intros Hl. rewrite trim_log_spec. f_equal. lia. Qed.

(** C34: termination.  The [while (debugLog.children.length > 20)] loop
    exits after exactly [length l - 20] iterations: with that many or more
    its guard is false and the result is the one [log] computes (fuel
    [length l]); with fewer the guard still holds. *)
Theorem trim_log_terminates l fuel :
  (length l - log_limit <= fuel ->
     length (trim_log fuel l) <= log_limit /\ trim_log fuel l = trim_log (length l) l) /\
  (fuel < length l - log_limit -> log_limit < length (trim_log fuel l)).
Proof.
  rewrite !trim_log_spec, !length_take. split; [intros Hf|intros Hf; lia].
  split; [lia|]. f_equal. lia.
Qed.

Lemma debug_log_log msg p : debug_log (log msg p) = take log_limit (msg :: debug_log p).
Proof. apply trim_log_take. lia. Qed.

Lemma take_app_take {A} n m (l k : list A) :
  n <= length l + m -> take n (l ++ take m k) = take n (l ++ k).
Proof.
  revert n; induction l as [|x l IH]; intros n Hn; simpl in *.
  - rewrite take_take. f_equal. lia.
  - destruct n as [|n]; [done|]. simpl. f_equal. apply IH. lia.
Qed.

(** C33: the console is a window of the 20 newest messages, newest first:
    after logging [ms] in order, it shows the first 20 of [ms] reversed
    followed by what was there before. *)
Theorem log_window ms p :
  length (debug_log p) <= log_limit ->
  debug_log (fold_left (fun p m => log m p) ms p) = take log_limit (reverse ms ++ debug_log p).
Proof.
  revert p; induction ms as [|m ms IH]; intros p Hp; simpl.
  - by rewrite take_ge.
  - rewrite IH by (rewrite debug_log_log, length_take; lia).
    rewrite debug_log_log, take_app_take by lia.
    by rewrite reverse_cons, <- app_assoc.
Qed.

Lemma log_window_witness :
  length (debug_log initial) <= log_limit /\
  debug_log (fold_left (fun p m => log m p) ["a"; "b"] initial)
    = take log_limit (reverse ["a"; "b"] ++ debug_log initial).
Proof.
  assert (H : length (debug_log initial) <= log_limit) by (vm_compute; lia).
  split; [exact H|]. exact (log_window ["a"; "b"] initial H).
Defined.

Lemma trim_log_terminates_witness :
  let l := map (fun n => pretty n) (seq 0 22) in
  (length l - log_limit <= 2 /\ length (trim_log 2 l) <= log_limit) /\
  (1 < length l - log_limit /\ log_limit < length (trim_log 1 l)).
Proof.
  intros l. assert (H2 : length l - log_limit <= 2) by (vm_compute; lia).
  assert (H1 : 1 < length l - log_limit) by (vm_compute; lia).
  split; split; [exact H2| exact (proj1 (proj1 (trim_log_terminates l 2) H2))
                |exact H1| exact (proj2 (trim_log_terminates l 1) H1)].
Defined.

(** ** The player's invariant *)

(** Only the current element can be playing, and the console holds at most
    20 lines. *)
Definition player_inv (p : player) : Prop :=
  (forall k e, elems p !! k = Some e -> el_paused e = false -> audio p = Some k) /\
  length (debug_log p) <= log_limit.

Lemma log_inv msg p : player_inv p -> player_inv (log msg p).
Proof.
  intros [Hp Hl]. split; [exact Hp|]. rewrite debug_log_log, length_take. lia.
Qed.

Lemma set_now_playing_inv s p : player_inv p -> player_inv (set_now_playing s p).
Proof. done. Qed.

Lemma set_pause_label_inv s p : player_inv p -> player_inv (set_pause_label s p).
Proof. done. Qed.

(** Changing an element without touching [paused] keeps the invariant. *)
Lemma update_elem_inv k f p :
  (forall e, el_paused (f e) = el_paused e) -> player_inv p -> player_inv (update_elem k f p).
Proof.
  intros Hf [Hp Hl]. split; [|exact Hl]. simpl. intros j e.
  rewrite list_lookup_alter. case_decide as Hkj; [subst|apply Hp].
  destruct (elems p !! j) as [e0|] eqn:Ej; simpl; [|done].
  intros [= <-]. rewrite Hf. apply Hp, Ej.
Qed.

(** Pausing an element keeps the invariant. *)
Lemma pause_elem_inv k p : player_inv p -> player_inv (update_elem k (set_paused true) p).
Proof.
  intros [Hp Hl]. split; [|exact Hl]. simpl. intros j e.
  rewrite list_lookup_alter. case_decide as Hkj; [subst|apply Hp].
  destruct (elems p !! j); simpl; [|done]. by intros [= <-].
Qed.

Lemma on_media_inv name ev p : player_inv p -> player_inv (on_media name ev p).
Proof. intros Hp. destruct ev; simpl; auto using log_inv, set_now_playing_inv, set_pause_label_inv. Qed.

Lemma pause_radio_inv p : player_inv p -> player_inv (pause_radio p).
Proof.
  intros Hp. unfold pause_radio. destruct (audio p) as [k|] eqn:Ha; [|done].
  destruct (elems p !! k) as [e|] eqn:Ek; [|done].
  destruct (negb (el_paused e)); [apply set_now_playing_inv, pause_elem_inv, Hp|].
  destruct Hp as [Hp Hl]. split; [|exact Hl]. simpl. intros j e'.
  rewrite list_lookup_alter. case_decide as Hkj; [subst; by intros _ _|].
  apply Hp.
Qed.

Lemma play_station_inv name url target p : player_inv p -> player_inv (play_station name url target p).
Proof.
  intros Hp. unfold play_station.
  set (p1 := log ("Stream URL: " +:+ url) _).
  assert (Hp1 : player_inv p1) by (apply log_inv, log_inv; exact Hp).
  assert (Ha1 : audio p1 = audio p) by done.
  set (p2 := match audio p1 with Some k => _ | None => p1 end).
  assert (Hp2 : player_inv p2 /\ forall k e, elems p2 !! k = Some e -> el_paused e = true).
  { unfold p2. destruct (audio p1) as [k|] eqn:Ha.
    - split; [apply log_inv, update_elem_inv, pause_elem_inv, Hp1; done|].
      intros j e. simpl. rewrite !list_lookup_alter.
      destruct Hp1 as [Hq _]. destruct (decide (k = j)) as [<-|Hkj].
      + rewrite decide_True by done.
        destruct (elems p !! k); simpl; intros [= <-]; done.
      + intros Hj. destruct (el_paused e) eqn:He; [done|].
        specialize (Hq j e Hj He). congruence.
    - split; [exact Hp1|]. intros j e Hj. destruct (el_paused e) eqn:He; [done|].
      destruct Hp1 as [Hq _]. specialize (Hq j e Hj He). congruence. }
  destruct Hp2 as [[_ Hl2] Hall]. split; [|exact Hl2]. simpl. intros j e.
  destruct (decide (j < length (elems p2))) as [Hlt|Hge].
  - rewrite lookup_app_l by done. intros Hj He. by rewrite (Hall j e Hj) in He.
  - rewrite lookup_app_r by lia. intros Hj _.
    destruct (j - length (elems p2)) eqn:E; [|done]. f_equal. lia.
Qed.

(** [playStation] makes the new element the current one, playing [url]. *)
Lemma play_station_current name url target p :
  exists k, audio (play_station name url target p) = Some k /\
    elems (play_station name url target p) !! k = Some (mk_elem name url false 80 None).
Proof.
  unfold play_station. eexists. split; [reflexivity|]. cbn [elems].
  rewrite lookup_app_r, Nat.sub_diag by lia. reflexivity.
Qed.

Lemma play_station_elems name url target p :
  elems (play_station name url target p) =
    match audio p with
    | Some j => alter (set_src "") j (alter (set_paused true) j (elems p))
    | None => elems p
    end ++ [mk_elem name url false 80 None].
Proof. unfold play_station. by destruct (audio p). Qed.

Lemma play_station_audio name url target p :
  audio (play_station name url target p) = Some (length (elems p)) /\
  current_station (play_station name url target p) = Some name.
Proof. unfold play_station. destruct (audio p); cbn; by rewrite ?length_alter. Qed.

Lemma play_station_new name url target p :
  elems (play_station name url target p) !! length (elems p) = Some (mk_elem name url false 80 None).
Proof.
  rewrite play_station_elems, lookup_app_r; destruct (audio p); by rewrite ?length_alter, ?Nat.sub_diag.
Qed.

Lemma play_station_old name url target p k e :
  elems p !! k = Some e ->
  exists e', elems (play_station name url target p) !! k = Some e' /\ el_name e' = el_name e.
Proof.
  intros Hk. rewrite play_station_elems, lookup_app_l.
  - destruct (audio p) as [j|]; [|eauto]. rewrite !list_lookup_alter.
    destruct (decide (j = k)) as [->|Hjk].
    + case_decide; [|done]. rewrite Hk. simpl. eauto.
    + rewrite Hk. eauto.
  - apply lookup_lt_Some in Hk. destruct (audio p); by rewrite ?length_alter.
Qed.

Lemma step_inv i p : player_inv p -> player_inv (step i p).
Proof.
  intros Hp. destruct i as [name url target| |v|k ev|[] [] msg]; simpl.
  5-8: auto using log_inv, set_now_playing_inv.
  - by apply play_station_inv.
  - by apply pause_radio_inv.
  - unfold set_volume_js. destruct (audio p); [|done].
    apply log_inv, update_elem_inv; [done|exact Hp].
  - destruct (elems p !! k) as [e|]; [|done]. apply on_media_inv.
    destruct ev; try exact Hp. apply update_elem_inv; [done|exact Hp].
Qed.

Lemma initial_inv : player_inv initial.
Proof. split; [|vm_compute; lia]. intros k e. simpl. by rewrite lookup_nil. Qed.

(** C35: whatever the user clicks and whatever events the browser delivers,
    at most one stream plays (every element but the current one is paused)
    and the console never holds more than 20 lines. *)
Theorem player_single_stream ins : player_inv (run ins initial).
Proof.
  unfold run. generalize initial_inv. generalize initial.
  induction ins as [|i ins IH]; intros p Hp; simpl; [done|]. apply IH, step_inv, Hp.
Qed.

(** C36: switching stations leaves the old elements' listeners attached.
    From any player state, after [playStation] an [error] event of any
    earlier element [k] (emptying the previous element's [src] makes it
    fire one, code 4) still runs that element's listener: the new station
    stays the current one, the heading reports the error under the old
    element's station name, and the console logs "Unknown error", because
    the handler reads the error code of the new global [audio] element,
    which has none, instead of the code [c] that was fired and recorded on
    element [k]. *)
Theorem player_stale_error p k e name url target c :
  elems p !! k = Some e ->
  let p' := step (Media k (Error c)) (play_station name url target p) in
  current_station p' = Some name /\ audio p' = Some (length (elems p)) /\
  now_playing p' = "Error: " +:+ el_name e /\
  head (debug_log p') = Some "✗ Error: Unknown error" /\
  elems p' !! k ≫= el_error = Some c.
Proof.
  intros Hk. destruct (play_station_old name url target p k e Hk) as (e' & Hk' & Hn).
  destruct (play_station_audio name url target p) as [Ha Hc].
  assert (Hlt : k < length (elems p)) by (by eapply lookup_lt_Some).
  cbn zeta. unfold step. rewrite Hk'. cbn [on_media].
  unfold current_error_message. cbn [audio elems update_elem].
  rewrite Ha, list_lookup_alter, decide_False by lia.
  rewrite play_station_new. cbn [default el_error set_now_playing current_station audio now_playing debug_log elems].
  rewrite debug_log_log. unfold log, update_elem. cbn [current_station audio elems].
  rewrite Hc, Ha, Hn, list_lookup_alter, Hk'. case_decide; [|done]. auto.
Qed.

Lemma player_stale_error_witness :
  let p := run [PlayStation "Groove Salad" "/proxy?url=a.pls" "btn1"; Media 0 Playing] initial in
  elems p !! 0 = Some (mk_elem "Groove Salad" "/proxy?url=a.pls" false 80 None) /\
  now_playing (step (Media 0 (Error 4)) (play_station "Drone Zone" "/proxy?url=b.pls" "btn2" p))
    = "Error: Groove Salad".
Proof.
  intros p. assert (H : elems p !! 0 = Some (mk_elem "Groove Salad" "/proxy?url=a.pls" false 80 None))
    by (vm_compute; reflexivity).
  split; [exact H|].
  exact (proj1 (proj2 (proj2 (player_stale_error p 0 _ "Drone Zone" "/proxy?url=b.pls" "btn2" 4 H)))).
Defined.

End Player.
