(* ===== verification/RadioPage.v ===== *)
(** * The radio page: [get] and [add_station] in [src/radio/main.py]

    The page lists the stations of the [stations] table (primary key
    [name]) in table order.  Each station's button calls
    [playStation(name, '/proxy?url=' + quote(stream_url))]; the random
    button picks from a JSON list of [{name, url: stream_url}] and calls
    [playStation(station.name, station.url)] with the stored URL itself.
    [POST /add_station] inserts [{name, stream_url}] and redirects to [/].

    [urllib.parse.quote(s)] (with its default [safe='/']) encodes a string
    as UTF-8 and percent-escapes every byte but ASCII letters, digits,
    [_.-~] and [/].  On the server, Starlette reads the query with
    [parse_qsl(qs, keep_blank_values=True)], which splits on [&], splits
    each field at its first [=], turns [+] into a space and percent-decodes
    as UTF-8.  The decoding is modelled on ASCII input and returns [None]
    where Python would produce a replacement character or a code point
    above 255. *)

From stdpp Require Import base list strings.
From Stdlib Require Import Ascii.
From S2P Require Import Prelude PyString Player.

Module RadioPage.
Import PyString.

(** ** [urllib.parse.quote] *)

Definition hex_char (n : nat) : ascii :=
  ascii_of_nat (if n <? 10 then 48 + n else 55 + n).

Definition pct (b : nat) : string :=
  String "%" (String (hex_char (b / 16)) (String (hex_char (b mod 16)) EmptyString)).

(** [_ALWAYS_SAFE] and the default [safe='/']. *)
Definition quote_safe (c : ascii) : bool :=
  let n := code c in
  ((48 <=? n) && (n <=? 57)) || ((65 <=? n) && (n <=? 90)) || ((97 <=? n) && (n <=? 122))
  || (n =? 95) || (n =? 46) || (n =? 45) || (n =? 126) || (n =? 47).

(** One code point: itself when [safe], else its UTF-8 bytes escaped as
    [%XX] with upper-case digits (what [quote] and JavaScript's
    [encodeURIComponent] both do, with different safe sets). *)
Definition escape_char (safe : ascii -> bool) (c : ascii) : string :=
  let n := code c in
  if n <? 128 then (if safe c then String c EmptyString else pct n)
  else pct (192 + n / 64) +:+ pct (128 + n mod 64).

Fixpoint escape (safe : ascii -> bool) (s : string) : string :=
  match s with
  | EmptyString => EmptyString
  | String c r => escape_char safe c +:+ escape safe r
  end.

(** [urllib.parse.quote(s)]. *)
Definition quote (s : string) : string := escape quote_safe s.

(** The characters [encodeURIComponent] leaves alone: ASCII letters and
    digits and [-_.!~*'()]. *)
Definition uri_component_safe (c : ascii) : bool :=
  let n := code c in
  ((48 <=? n) && (n <=? 57)) || ((65 <=? n) && (n <=? 90)) || ((97 <=? n) && (n <=? 122))
  || (n =? 45) || (n =? 95) || (n =? 46) || (n =? 33) || (n =? 126) || (n =? 42)
  || (n =? 39) || (n =? 40) || (n =? 41).

(** JavaScript's [encodeURIComponent(s)]. *)
Definition encode_uri_component (s : string) : string := escape uri_component_safe s.

(** ** The query string as Starlette reads it *)

(** [str.split(sep)]. *)
Fixpoint split_on (sep : ascii) (s : string) : list string :=
  match s with
  | EmptyString => [EmptyString]
  | String c r =>
      if Ascii.eqb c sep then EmptyString :: split_on sep r
      else match split_on sep r with
           | [] => [String c EmptyString]
           | w :: ws => String c w :: ws
           end
  end.

(** [name_value.split('=', 1)]. *)
Fixpoint split_first (sep : ascii) (s : string) : string * option string :=
  match s with
  | EmptyString => (EmptyString, None)
  | String c r =>
      if Ascii.eqb c sep then (EmptyString, Some r)
      else let '(a, b) := split_first sep r in (String c a, b)
  end.

Definition hex_val (c : ascii) : option nat :=
  let n := code c in
  if (48 <=? n) && (n <=? 57) then Some (n - 48)
  else if (65 <=? n) && (n <=? 70) then Some (n - 55)
  else if (97 <=? n) && (n <=? 102) then Some (n - 87)
  else None.

(** [unquote_to_bytes]: [%XX] with two hex digits is one byte; any other
    [%] stays as it is. *)
Fixpoint pct_decode (s : string) : list nat :=
  match s with
  | EmptyString => []
  | String c r =>
      if Ascii.eqb c "%"%char then
        match r with
        | String h1 (String h2 r') =>
            match hex_val h1, hex_val h2 with
            | Some a, Some b => (16 * a + b) :: pct_decode r'
            | _, _ => code c :: pct_decode r
            end
        | _ => code c :: pct_decode r
        end
      else code c :: pct_decode r
  end.

(** UTF-8 decoding into code points 0-255; [None] outside. *)
Fixpoint utf8_decode (bs : list nat) : option string :=
  match bs with
  | [] => Some EmptyString
  | b :: rest =>
      if b <? 128 then String (ascii_of_nat b) <$> utf8_decode rest
      else if (b =? 194) || (b =? 195) then
        match rest with
        | b2 :: rest' =>
            if (128 <=? b2) && (b2 <? 192)
            then String (ascii_of_nat ((b - 192) * 64 + (b2 - 128))) <$> utf8_decode rest'
            else None
        | [] => None
        end
      else None
  end.

Fixpoint plus_to_space (s : string) : string :=
  match s with
  | EmptyString => EmptyString
  | String c r => String (if Ascii.eqb c "+"%char then " "%char else c) (plus_to_space r)
  end.

Definition unquote_plus (s : string) : option string :=
  if str_forallb (fun c => code c <? 128) s then utf8_decode (pct_decode (plus_to_space s))
  else None.

(** [parse_qsl(qs, keep_blank_values=True)]: empty fields are skipped. *)
Definition parse_qsl (qs : string) : list (option string * option string) :=
  omap (fun nv =>
          if String.eqb nv EmptyString then None
          else let '(n, v) := split_first "="%char nv in
               Some (unquote_plus n, unquote_plus (default EmptyString v)))
       (split_on "&"%char qs).

(** ** The page *)

Record station := mk_station {
  st_name : string;
  st_url : option string;
  st_stream_url : string;
  st_category : option string
}.

Definition play_url (s : station) : string := "/proxy?url=" +:+ quote (st_stream_url s).

(** The query string the browser sends for a path [/proxy?...]. *)
Definition query_of (path : string) : string :=
  default EmptyString (snd (split_first "?"%char path)).

(** A station button (lines 225-244): the name, the play URL and the
    [onclick] source text. *)
Definition station_button (s : station) : string * string * string :=
  (st_name s, play_url s,
   "playStation('" +:+ st_name s +:+ "', '" +:+ play_url s +:+ "')").

(** The random button's list (lines 246-250): name and stored URL. *)
Definition random_entry (s : station) : string * string := (st_name s, st_stream_url s).

(** The status panel (lines 170-184) and the custom stream form (lines
    195-222): the initial heading and pause label, the volume slider's
    range and initial value, and where the form posts which fields. *)
Record controls := mk_controls {
  now_playing_text : string;
  pause_text : string;
  slider_min : nat;
  slider_max : nat;
  slider_value : nat;
  form_action : string;
  form_fields : list string
}.

Definition page_controls : controls :=
  mk_controls "Select a station" "⏸️ Pause" 0 100 80 "/add_station" ["name"; "url"].

Record page := mk_page {
  panel : controls;
  buttons : list (string * string * string);
  random_list : list (string * string)
}.

(** [get()] (lines 165-270). *)
Definition get_page (stations : list station) : page :=
  mk_page page_controls (map station_button stations) (map random_entry stations).

(** What clicking does, as an input of the player: the station's own
    button, or the random button when it draws station [s]. *)
Definition click_station (s : station) : Player.input :=
  Player.PlayStation (st_name s) (play_url s) "station-btn".

Definition click_random (s : station) : Player.input :=
  Player.PlayStation (fst (random_entry s)) (snd (random_entry s)) "random-btn".

(** The custom stream's Play button (line 211): the typed name, or
    ['Custom Stream'] when the field is empty ([||] on strings), and the
    typed URL through [/proxy] with [encodeURIComponent]. *)
Definition click_custom (name_value url_value : string) : Player.input :=
  Player.PlayStation (if String.eqb name_value "" then "Custom Stream" else name_value)
    ("/proxy?url=" +:+ encode_uri_component url_value) "custom-play".

(** [add_station(name, url)] (lines 153-163): the table's primary key is
    the name, so a second station with the same name is rejected by SQLite
    ([IntegrityError]). *)
Inductive add_result := Added (stations : list station) | IntegrityError.

Definition add_station (name url : string) (stations : list station) : add_result :=
  if existsb (fun s => String.eqb (st_name s) name) stations then IntegrityError
  else Added (stations ++ [mk_station name None url None]).

(** ** The round trip from the stored URL to the proxy's parameter *)

Lemma code_lt_256 c : code c < 256.
Proof. apply Ascii.nat_ascii_bounded. Qed.

Lemma hex_val_hex_char d : d < 16 -> hex_val (hex_char d) = Some d.
Proof. intros Hd. do 16 (destruct d as [|d]; [reflexivity|]). lia. Qed.

(** The UTF-8 bytes of one code point of the model. *)
Definition utf8_bytes (c : ascii) : list nat :=
  let n := code c in if n <? 128 then [n] else [192 + n / 64; 128 + n mod 64].

Lemma pct_decode_esc h1 h2 r a b :
  hex_val h1 = Some a -> hex_val h2 = Some b ->
  pct_decode (String "%" (String h1 (String h2 r))) = (16 * a + b) :: pct_decode r.
Proof.
  intros H1 H2.
  change (pct_decode (String "%" (String h1 (String h2 r)))) with
    (match hex_val h1, hex_val h2 with
     | Some a, Some b => (16 * a + b) :: pct_decode r
     | _, _ => code "%"%char :: pct_decode (String h1 (String h2 r))
     end).
  by rewrite H1, H2.
Qed.

Lemma pct_decode_pct b r : b < 256 -> pct_decode (pct b +:+ r) = b :: pct_decode r.
Proof.
  intros Hb. unfold pct. cbn [String.append].
  rewrite (pct_decode_esc _ _ _ (b / 16) (b mod 16)).
  - f_equal. pose proof (Nat.div_mod b 16). lia.
  - apply hex_val_hex_char, Nat.Div0.div_lt_upper_bound. lia.
  - apply hex_val_hex_char, Nat.mod_upper_bound. lia.
Qed.

Lemma utf8_decode_two b1 b2 rest :
  b1 = 194 \/ b1 = 195 -> 128 <= b2 < 192 ->
  utf8_decode (b1 :: b2 :: rest) =
    String (ascii_of_nat ((b1 - 192) * 64 + (b2 - 128))) <$> utf8_decode rest.
Proof.
  intros Hb1 Hb2. cbn [utf8_decode].
  destruct (Nat.leb_spec 128 b2), (Nat.ltb_spec b2 192); try lia.
  destruct Hb1 as [-> | ->]; reflexivity.
Qed.

Lemma utf8_decode_bytes c rest :
  utf8_decode (utf8_bytes c ++ rest) = String c <$> utf8_decode rest.
Proof.
  unfold utf8_bytes. pose proof (code_lt_256 c) as Hc.
  destruct (Nat.ltb_spec (code c) 128) as [Hlt|Hge].
  - cbn [app utf8_decode]. destruct (Nat.ltb_spec (code c) 128); [|lia].
    by rewrite ascii_of_code.
  - change ([192 + code c / 64; 128 + code c mod 64] ++ rest)
      with (192 + code c / 64 :: 128 + code c mod 64 :: rest).
    pose proof (Nat.div_mod (code c) 64). pose proof (Nat.mod_upper_bound (code c) 64).
    rewrite utf8_decode_two by lia.
    replace ((192 + code c / 64 - 192) * 64 + (128 + code c mod 64 - 128)) with (code c) by lia.
    by rewrite ascii_of_code.
Qed.

(** Every character [quote] emits is ASCII and neither [&] nor [+]. *)
Definition query_char_ok (c : ascii) : bool :=
  (code c <? 128) && negb (Ascii.eqb c "&"%char) && negb (Ascii.eqb c "+"%char).

Lemma str_forallb_app p s1 s2 :
  str_forallb p (s1 +:+ s2) = str_forallb p s1 && str_forallb p s2.
Proof. induction s1; simpl; [done|]. rewrite IHs1. apply andb_assoc. Qed.

Lemma query_char_ok_hex d : d < 16 -> query_char_ok (hex_char d) = true.
Proof. intros Hd. do 16 (destruct d as [|d]; [reflexivity|]). lia. Qed.

Lemma pct_ok b : b < 256 -> str_forallb query_char_ok (pct b) = true.
Proof.
  intros Hb. unfold pct. cbn [str_forallb].
  rewrite !query_char_ok_hex; [done| |].
  - apply Nat.mod_upper_bound. lia.
  - apply Nat.Div0.div_lt_upper_bound. lia.
Qed.









Fixpoint utf8_encode (s : string) : list nat :=
  match s with
  | EmptyString => []
  | String c r => utf8_bytes c ++ utf8_encode r
  end.


Lemma utf8_decode_encode u : utf8_decode (utf8_encode u) = Some u.
Proof. induction u as [|c r IH]; [done|]. simpl. by rewrite utf8_decode_bytes, IH. Qed.

Lemma plus_to_space_id s :
  str_forallb query_char_ok s = true -> plus_to_space s = s.
Proof.
  induction s as [|c r IH]; [done|]. simpl. unfold query_char_ok at 1.
  rewrite !andb_true_iff, !negb_true_iff. intros [[[_ _] Hp] Hr].
  by rewrite Hp, IH.
Qed.

Lemma query_ascii s : str_forallb query_char_ok s = true -> str_forallb (fun c => code c <? 128) s = true.
Proof. apply str_forallb_impl. unfold query_char_ok. intros c. rewrite !andb_true_iff. tauto. Qed.


Lemma split_on_single sep s :
  str_forallb (fun c => negb (Ascii.eqb c sep)) s = true -> split_on sep s = [s].
Proof.
  induction s as [|c r IH]; [done|]. simpl. rewrite andb_true_iff, negb_true_iff.
  intros [-> Hr]. by rewrite IH.
Qed.

Lemma query_no_amp s : str_forallb query_char_ok s = true ->
  str_forallb (fun c => negb (Ascii.eqb c "&"%char)) s = true.
Proof. apply str_forallb_impl. unfold query_char_ok. intros c. rewrite !andb_true_iff. tauto. Qed.


(** ** Escaping and its inverse, for any safe set of ASCII characters
    other than [%], [&] and [+] *)

Section Escape.
Variable safe : ascii -> bool.
Hypothesis safe_ok : forall c, safe c = true ->
  code c < 128 /\ c <> "%"%char /\ c <> "&"%char /\ c <> "+"%char.

Lemma pct_decode_escape_char c r :
  pct_decode (escape_char safe c +:+ r) = utf8_bytes c ++ pct_decode r.
Proof.
  unfold escape_char, utf8_bytes. pose proof (code_lt_256 c).
  destruct (Nat.ltb_spec (code c) 128).
  - destruct (safe c) eqn:Hs; [|by rewrite pct_decode_pct].
    destruct (safe_ok c Hs) as (_ & Hpct & _). simpl.
    destruct (Ascii.eqb_spec c "%"%char); [done|reflexivity].
  - rewrite <- append_assoc, !pct_decode_pct; [done| |].
    + pose proof (Nat.mod_upper_bound (code c) 64). lia.
    + pose proof (Nat.Div0.div_lt_upper_bound (code c) 64 4). lia.
Qed.

Lemma escape_ok s : str_forallb query_char_ok (escape safe s) = true.
Proof.
  induction s as [|c r IH]; [done|]. simpl. rewrite str_forallb_app, IH, andb_true_r.
  unfold escape_char. pose proof (code_lt_256 c).
  destruct (Nat.ltb_spec (code c) 128).
  - destruct (safe c) eqn:Hs; [|apply pct_ok; lia].
    destruct (safe_ok c Hs) as (Hc & _ & Hamp & Hplus). simpl. unfold query_char_ok.
    destruct (Nat.ltb_spec (code c) 128); [|lia].
    destruct (Ascii.eqb_spec c "&"%char); [done|].
    destruct (Ascii.eqb_spec c "+"%char); [done|reflexivity].
  - rewrite str_forallb_app, !pct_ok; [done| |].
    + pose proof (Nat.mod_upper_bound (code c) 64). lia.
    + pose proof (Nat.Div0.div_lt_upper_bound (code c) 64 4). lia.
Qed.

Lemma pct_decode_escape u : pct_decode (escape safe u) = utf8_encode u.
Proof. induction u as [|c r IH]; [done|]. simpl. by rewrite pct_decode_escape_char, IH. Qed.

Lemma unquote_plus_escape u : unquote_plus (escape safe u) = Some u.
Proof.
  unfold unquote_plus. rewrite query_ascii by apply escape_ok.
  rewrite plus_to_space_id by apply escape_ok.
  by rewrite pct_decode_escape, utf8_decode_encode.
Qed.

(** Escaping a value into [url=...] and parsing the query back gives the
    value. *)
Lemma parse_qsl_url_param u : parse_qsl ("url=" +:+ escape safe u) = [(Some "url", Some u)].
Proof.
  unfold parse_qsl. rewrite split_on_single.
  - cbn [omap list_omap]. simpl (String.eqb _ _).
    change (split_first "="%char ("url=" +:+ escape safe u)) with ("url", Some (escape safe u)).
    cbn [default id]. by rewrite unquote_plus_escape.
  - change (str_forallb (fun c => negb (Ascii.eqb c "&"%char)) ("url=" +:+ escape safe u))
      with (str_forallb (fun c => negb (Ascii.eqb c "&"%char)) (escape safe u)).
    apply query_no_amp, escape_ok.
Qed.

End Escape.

Lemma quote_safe_ok c : quote_safe c = true ->
  code c < 128 /\ c <> "%"%char /\ c <> "&"%char /\ c <> "+"%char.
Proof.
  unfold quote_safe. intros H. repeat split; [bool_arith| intros ->; discriminate H..].
Qed.

Lemma uri_component_safe_ok c : uri_component_safe c = true ->
  code c < 128 /\ c <> "%"%char /\ c <> "&"%char /\ c <> "+"%char.
Proof.
  unfold uri_component_safe. intros H. repeat split; [bool_arith| intros ->; discriminate H..].
Qed.

(** C37: round trip.  The query of a station button's play URL, read back
    the way Starlette reads it, has exactly one parameter, [url], whose
    value is the station's stored stream URL, for every URL (spaces,
    [&], [=], [+], [?], [#] and non-ASCII Latin-1 characters included). *)
Theorem play_url_roundtrip s :
  parse_qsl (query_of (play_url s)) = [(Some "url", Some (st_stream_url s))].
Proof. apply parse_qsl_url_param, quote_safe_ok. Qed.

(** The random button bypasses the proxy.  Its list carries the stored
    URL itself, so for a station stored as a [.pls] playlist the audio
    element is pointed at the playlist file (which a browser cannot play,
    and which is fetched without the proxy), while the station's own button
    plays it through [/proxy]. *)
Example random_button_unproxied :
  let s := mk_station "SOMA_GROOVE" None "http://somafm.com/groovesalad.pls" None in
  let via_random := Player.run [click_random s] Player.initial in
  let via_button := Player.run [click_station s] Player.initial in
  (Player.elems via_random !! 0) ≫= (fun e => Some (Player.el_src e))
    = Some "http://somafm.com/groovesalad.pls" /\
  (Player.elems via_button !! 0) ≫= (fun e => Some (Player.el_src e))
    = Some "/proxy?url=http%3A//somafm.com/groovesalad.pls".
Proof. vm_compute. split; reflexivity. Qed.

(** A second station with a stored name is refused by the primary key. *)
Lemma add_station_duplicate name url stations s :
  s ∈ stations -> st_name s = name -> add_station name url stations = IntegrityError.
Proof.
  intros Hs Hn. unfold add_station.
  replace (existsb _ stations) with true; [done|]. symmetry.
  apply existsb_exists. exists s. split; [by apply list_elem_of_In|]. by apply String.eqb_eq.
Qed.

(** The name is pasted into the JavaScript source unescaped: for a name
    with an apostrophe the first string literal of the call ends inside the
    name. *)
Example station_button_unescaped :
  let s := mk_station "Bob's Radio" None "http://bob.example/live" None in
  snd (station_button s) =
    "playStation('Bob" +:+ "'" +:+ "s Radio', '/proxy?url=http%3A//bob.example/live')".
Proof. reflexivity. Qed.

End RadioPage.
