(* ===== verification/LinkPull.v ===== *)
(** * The link scraper: [src/linkpull/main.py]

    [POST /extract] strips the URL and the pattern, prefixes [https://] to a
    URL that starts with neither [http://] nor [https://], and calls
    [scrape_links(url, pattern)]: one [requests.get(url, timeout=10)],
    [raise_for_status()], the [href] of every [<a href>] made absolute with
    [urljoin], then, when the pattern is truthy, the links in which
    [re.search(pat, link)] finds a match.  Every exception becomes an error
    message: timeouts, connection errors, HTTP errors with code and reason,
    other [RequestException]s, and an invalid pattern.

    HTML parsing ([BeautifulSoup]), URL joining ([urljoin]) and regular
    expressions ([re]) are libraries the code only calls: they are the
    parameters of the section, so the theorems hold for every behaviour of
    them.  The scraper is written in the [http_io] free monad of [Http]. *)

From stdpp Require Import base list strings pretty.
From S2P Require Import Prelude PyString Http.

Module LinkPull.
Import PyString.
Local Open Scope io_scope.

(** [requests.Response.raise_for_status]: 4xx and 5xx raise [HTTPError]. *)
Definition raises_for_status (r : Http.response) : bool :=
  (400 <=? Http.status_code r) && (Http.status_code r <? 600).

(** The messages of the [except] clauses that do not embed [str(e)]. *)
Definition timeout_message : string :=
  "Request timed out. The server took too long to respond.".
Definition connection_message : string := "Connection error. Could not reach the URL.".

Definition truthy (s : option string) : bool :=
  match s with Some p => negb (String.eqb p EmptyString) | None => false end.

Section Scrape.
(** [BeautifulSoup(text, 'html.parser').find_all('a', href=True)], as the
    list of [href] values in document order. *)
Variable find_all_hrefs : string -> list string.
(** [urllib.parse.urljoin(base, href)]. *)
Variable urljoin : string -> string -> string.
(** [re.search(pat, s) is not None], or the text of the [re.error] raised
    when the pattern does not compile. *)
Variable re_search : string -> string -> string + bool.
(** [str(e)] of a request exception. *)
Variable error_text : Http.request_error -> string.

(** The list comprehension of line 39: the first [re.error] aborts it. *)
Fixpoint filter_links (pat : string) (links : list string) : string + list string :=
  match links with
  | [] => inr []
  | l :: ls =>
      match re_search pat l with
      | inl e => inl e
      | inr b =>
          match filter_links pat ls with
          | inl e => inl e
          | inr fs => inr (if b then l :: fs else fs)
          end
      end
  end.

Definition request_error_message (e : Http.request_error) : string :=
  match e with
  | Http.ConnectTimeout | Http.ReadTimeout => timeout_message
  | Http.ConnectionError => connection_message
  | _ => "Error during request: " +:+ error_text e
  end.

Definition http_error_message (r : Http.response) : string :=
  "HTTP error: " +:+ pretty (Http.status_code r) +:+ " - " +:+ Http.reason r.

(** [scrape_links(url, pat)] (lines 10-55): [inr links] is [(True, links)],
    [inl msg] is [(False, msg)]. *)
Definition scrape_links (url : string) (pat : option string)
    : Http.http_io (string + list string) :=
  let* o := Call (Http.mk_get url 10) Ret in
  match o with
  | Http.Raised e => Ret (inl (request_error_message e))
  | Http.Responded r =>
      if raises_for_status r then Ret (inl (http_error_message r))
      else
        let links := map (urljoin url) (find_all_hrefs (Http.text r)) in
        match pat with
        | Some p =>
            if truthy pat then
              Ret (match filter_links p links with
                   | inl e => inl ("Invalid regex pattern: " +:+ e)
                   | inr fs => inr fs
                   end)
            else Ret (inr links)
        | None => Ret (inr links)
        end
  end.

(** Lines 154-159: the inputs as [post] cleans them. *)
Definition clean_url (url : string) : string :=
  let u := strip url in
  if startswith u "http://" || startswith u "https://" then u else "https://" +:+ u.

Definition clean_pattern (pattern : option string) : option string :=
  if truthy pattern then strip <$> pattern else None.

(** What the results page shows.  The heading's leading check mark
    (U+2713) is outside the Latin-1 strings of the model and is left out. *)
Inductive result_view :=
  | Found (heading : string) (links_text : string) (copy_button : bool)
  | Error (message : string).

Record page := mk_page {
  form_url : string;
  form_pattern : string;
  status : result_view
}.

Definition found_heading (count : nat) : string :=
  "Found " +:+ pretty count +:+ " matching link" +:+ (if count =? 1 then "" else "s").

Definition view (res : string + list string) : result_view :=
  match res with
  | inr links => Found (found_heading (length links)) (join_lines links)
                       (0 <? length links)
  | inl msg => Error msg
  end.

(** [post(url, pattern)] (lines 149-251). *)
Definition post (url : string) (pattern : option string) : Http.http_io page :=
  let u := clean_url url in
  let p := clean_pattern pattern in
  let* res := scrape_links u p in
  Ret (mk_page u (default "" p) (view res)).

(** ** The forms: the landing page (lines 85-146) and the results page's
    form (lines 203-234), and what the browser submits *)

Record field := mk_field {
  field_name : string;
  field_required : bool;
  field_value : string
}.

Record form := mk_form {
  form_method : string;
  form_action : string;
  form_fields : list field
}.

Definition extract_action : string := "/linkpull/extract".

(** The example patterns of the landing page, with their captions. *)
Definition example_patterns : list (string * string) :=
  [(".*\.pdf$", " - All PDF files"); (".*\.(jpg|png|gif|webp)$", " - All images");
   (".*\.(pdf|doc|docx|ppt|pptx)$", " - All documents");
   ("https://example\.com/.*", " - Links from specific domain")].

Definition landing_form : form :=
  mk_form "post" extract_action [mk_field "url" true ""; mk_field "pattern" false ""].

Record landing := mk_landing {
  landing_examples : list (string * string);
  landing_input : form
}.

(** [get()] (lines 85-146). *)
Definition get_landing : landing := mk_landing example_patterns landing_form.

(** The form of the results page, filled with the cleaned inputs. *)
Definition results_form (pg : page) : form :=
  mk_form "post" extract_action
    [mk_field "url" true (form_url pg); mk_field "pattern" false (form_pattern pg)].

Definition field_data (typed : string -> option string) (f : field) : string :=
  default (field_value f) (typed (field_name f)).

Fixpoint lookup_field (name : string) (data : list (string * string)) : option string :=
  match data with
  | [] => None
  | (n, v) :: rest => if String.eqb n name then Some v else lookup_field name rest
  end.

(** Submitting a form to [post(url, pattern)] (lines 149-150): each field
    sends what was typed into it or its value; the browser refuses to
    submit while a [required] field is empty; [url] is required by the
    handler and [pattern] optional. *)
Definition submit (f : form) (typed : string -> option string) : option (string * option string) :=
  let data := map (fun fl => (field_name fl, field_data typed fl)) (form_fields f) in
  if existsb (fun fl => field_required fl && String.eqb (field_data typed fl) "") (form_fields f)
  then None
  else (fun u => (u, lookup_field "pattern" data)) <$> lookup_field "url" data.

(** ** Properties *)

Lemma clean_url_scheme_https t :
  startswith ("https://" +:+ t) "http://" || startswith ("https://" +:+ t) "https://" = true.
Proof. apply orb_true_intro. right. apply startswith_spec. eauto. Qed.

Lemma clean_url_scheme u :
  startswith (clean_url u) "http://" || startswith (clean_url u) "https://" = true.
Proof.
  unfold clean_url.
  destruct (startswith (strip u) "http://" || startswith (strip u) "https://") eqn:E;
    [exact E|apply clean_url_scheme_https].
Qed.

Lemma clean_url_idem u : clean_url (clean_url u) = clean_url u.
Proof.
  destruct (strip_edges u) as [Hh Hl].
  unfold clean_url at 2.
  destruct (startswith (strip u) "http://" || startswith (strip u) "https://") eqn:E.
  - unfold clean_url. by rewrite strip_idem, E.
  - unfold clean_url. rewrite strip_id.
    + rewrite (clean_url_scheme_https (strip u)), E. done.
    + reflexivity.
    + destruct (decide (strip u = EmptyString)) as [->|Hne]; [reflexivity|].
      by rewrite str_last_append.
Qed.

(** The pattern reaches [re.search] only when truthy: an absent and an
    empty pattern both list every link. *)
Lemma scrape_links_untruthy env u p :
  truthy p = false -> io_run env (scrape_links u p) = io_run env (scrape_links u None).
Proof.
  intros Hp. simpl. destruct (env _) as [r|e]; [|done].
  destruct (raises_for_status r); [done|]. destruct p; [by rewrite Hp|done].
Qed.

Lemma scrape_links_requests env u p :
  io_requests env (scrape_links u p) = [Http.mk_get u 10].
Proof.
  simpl. destruct (env _) as [r|e]; [|done].
  destruct (raises_for_status r); [done|]. destruct p; [by destruct (truthy _)|done].
Qed.

Lemma post_run env url pattern :
  io_run env (post url pattern) =
    mk_page (clean_url url) (default "" (clean_pattern pattern))
            (view (io_run env (scrape_links (clean_url url) (clean_pattern pattern)))).
Proof. unfold post. by rewrite io_run_bind. Qed.

Lemma post_requests env url pattern :
  io_requests env (post url pattern) = [Http.mk_get (clean_url url) 10].
Proof. unfold post. by rewrite io_requests_bind, scrape_links_requests, app_nil_r. Qed.

Lemma clean_pattern_truthy pattern :
  truthy (clean_pattern pattern) = true ->
  clean_pattern (Some (default "" (clean_pattern pattern))) = clean_pattern pattern.
Proof.
  destruct (clean_pattern pattern) as [q|] eqn:E; [|done]. intros Hq.
  assert (strip q = q) as Hs.
  { unfold clean_pattern in E. destruct (truthy pattern), pattern; simplify_eq.
    simpl in E. simplify_eq. apply strip_idem. }
  unfold clean_pattern. simpl in *. rewrite Hq. simpl. by rewrite Hs.
Qed.

Lemma clean_pattern_untruthy pattern :
  truthy (clean_pattern pattern) = false ->
  truthy (clean_pattern (Some (default "" (clean_pattern pattern)))) = false /\
  default "" (clean_pattern (Some (default "" (clean_pattern pattern)))) = "".
Proof.
  intros Hp. destruct (clean_pattern pattern) as [q|]; [|done].
  unfold clean_pattern. simpl. simpl in Hp. by rewrite Hp.
Qed.

Lemma clean_url_nonempty u : clean_url u <> "".
Proof.
  intros He. pose proof (clean_url_scheme u) as H. rewrite He in H. discriminate H.
Qed.

(** The landing page's form submits what was typed, as [post]'s two
    parameters, once a URL is given. *)
Lemma submit_landing typed u :
  typed "url" = Some u -> u <> "" ->
  submit landing_form typed = Some (u, Some (default "" (typed "pattern"))).
Proof.
  intros Hu Hne. unfold submit, field_data. cbn. rewrite Hu. cbn [default id].
  destruct (String.eqb_spec u "") as [|_]; [done|]. reflexivity.
Qed.

(** C40: the results page echoes the cleaned URL and pattern in its form,
    which submits them as they are, and the cleaning is idempotent:
    submitting that form again fetches the same URL, once, with the same
    timeout, and (the server answering the same) shows the same page. *)
Theorem linkpull_resubmit env url pattern :
  let pg := io_run env (post url pattern) in
  io_requests env (post url pattern) = [Http.mk_get (clean_url url) 10] /\
  submit (results_form pg) (fun _ => None) = Some (form_url pg, Some (form_pattern pg)) /\
  io_requests env (post (form_url pg) (Some (form_pattern pg))) = io_requests env (post url pattern) /\
  io_run env (post (form_url pg) (Some (form_pattern pg))) = pg.
Proof.
  cbv zeta. rewrite !post_requests. split; [done|]. split; [|split].
  - rewrite post_run. unfold submit, field_data. cbn.
    destruct (String.eqb_spec (clean_url url) "") as [He|_]; [by apply clean_url_nonempty in He|].
    reflexivity.
  - rewrite post_run. cbn [form_url]. by rewrite clean_url_idem.
  - rewrite !post_run. cbn [form_url form_pattern]. rewrite clean_url_idem.
    destruct (truthy (clean_pattern pattern)) eqn:Hp.
    + by rewrite clean_pattern_truthy.
    + destruct (clean_pattern_untruthy _ Hp) as [Hf ->].
      rewrite (scrape_links_untruthy _ _ _ Hf), (scrape_links_untruthy _ _ _ Hp).
      destruct (clean_pattern pattern) as [q|]; [|done].
      simpl in Hp. cbn [default]. destruct (String.eqb_spec q EmptyString); [by subst|done].
Qed.

End Scrape.

(** The scheme test is case-sensitive: an upper-case scheme gets a second
    one prepended. *)
Example clean_url_uppercase_scheme :
  clean_url " HTTP://example.com " = "https://HTTP://example.com".
Proof. reflexivity. Qed.

(** ** The results page's script [copy_js] (lines 59-83)

    [copyToClipboard()] copies the results box, remembers the button's
    current text as [originalText], shows a confirmation and schedules,
    2000 ms later, a timer that puts [originalText] back.  Timers of the
    same delay fire in the order they were set.  [showLoading()] dims the
    results section when the page has one. *)

Record copy_ui := mk_copy_ui {
  clipboard : string;
  copy_text : string;
  copy_color : string;
  pending : list string;
  results_opacity : option string
}.

Inductive ui_input :=
  | CopyClick
  | TimerFires
  | ShowLoading.

Definition copy_label : string := "📋 Copy All Links".
Definition copied_label : string := "✓ Copied!".

(** The script's state on a results page showing [links_text]: the
    button exists only when there are links ([count > 0]). *)
Definition copy_initial : copy_ui := mk_copy_ui "" copy_label "#007bff" [] None.

Definition copy_step (links_text : string) (has_results : bool) (i : ui_input) (u : copy_ui)
    : copy_ui :=
  match i with
  | CopyClick =>
      mk_copy_ui links_text copied_label "#28a745" (pending u ++ [copy_text u]) (results_opacity u)
  | TimerFires =>
      match pending u with
      | original :: rest => mk_copy_ui (clipboard u) original "#007bff" rest (results_opacity u)
      | [] => u
      end
  | ShowLoading =>
      if has_results then mk_copy_ui (clipboard u) (copy_text u) (copy_color u) (pending u) (Some "0.6")
      else u
  end.

Definition copy_run (links_text : string) (has_results : bool) (ins : list ui_input) (u : copy_ui)
    : copy_ui :=
  fold_left (fun u i => copy_step links_text has_results i u) ins u.

(** One click copies the links and, once its timer fires, the button is
    back as it was. *)
Lemma copy_click_restores links_text r :
  copy_run links_text r [CopyClick; TimerFires] copy_initial =
    mk_copy_ui links_text copy_label "#007bff" [] None.
Proof. reflexivity. Qed.

(** Two clicks within 2 s: the second remembers the confirmation text as
    the original, and after both timers the button keeps saying it. *)
Example copy_double_click_stuck links_text r :
  copy_text (copy_run links_text r [CopyClick; CopyClick; TimerFires; TimerFires] copy_initial)
    = copied_label.
Proof. reflexivity. Qed.

End LinkPull.
