(* ===== verification/Stations.v ===== *)
(** * Seeding the stations table: [init_db] in [src/radio/db_setup.py]

    On first start (the [stations] table absent) [init_db] creates the
    table with primary key [name] and inserts one row per entry of the
    JSON object in [stations.txt], in file order: the URL stored both as
    [url] and as [stream_url] (unresolved), a category from the name's
    prefix, [description] the name and [last_checked] NULL.  When the table
    exists nothing is read or written.

    The rows are [RadioPage.station]s; [description] and [last_checked] are
    written but never read by the program and are left out.  The JSON
    object is the list of its (distinct) keys with their values. *)

From stdpp Require Import base list strings.
From S2P Require Import Prelude PyString RadioPage.

Module Stations.
Import PyString RadioPage.

(** Lines 28-34. *)
Definition categorize (name : string) : string :=
  if startswith name "SOMA" then "SomaFM"
  else if existsb (String.eqb name) ["BLUE"; "CRYO"; "VOWI"] then "Bluemars"
  else "Other".

(** The row of lines 39-46. *)
Definition seed_row (entry : string * string) : station :=
  mk_station (fst entry) (Some (snd entry)) (snd entry) (Some (categorize (fst entry))).

(** [init_db()] (lines 6-48): [None] is the absent table. *)
Definition init_db (table : option (list station)) (station_data : list (string * string))
    : list station :=
  match table with
  | Some rows => rows
  | None => map seed_row station_data
  end.

(** Every seeded station plays through the proxy from the URL of the
    file, unresolved, and its category follows the name. *)
Lemma init_db_seeded data s :
  s ∈ init_db None data <->
  exists name url, (name, url) ∈ data /\
    s = mk_station name (Some url) url (Some (categorize name)).
Proof.
  simpl. rewrite list_elem_of_In, in_map_iff. split.
  - intros ([n u] & <- & Hin). exists n, u. split; [by apply list_elem_of_In|done].
  - intros (n & u & Hin & ->). exists (n, u). split; [done|by apply list_elem_of_In].
Qed.

Lemma categorize_cases name :
  (categorize name = "SomaFM" /\ startswith name "SOMA" = true) \/
  (categorize name = "Bluemars" /\ startswith name "SOMA" = false /\
     (name = "BLUE" \/ name = "CRYO" \/ name = "VOWI")) \/
  (categorize name = "Other" /\ startswith name "SOMA" = false /\
     name <> "BLUE" /\ name <> "CRYO" /\ name <> "VOWI").
Proof.
  unfold categorize. destruct (startswith name "SOMA"); [by left|right].
  simpl. destruct (String.eqb_spec name "BLUE"); [left; auto|].
  destruct (String.eqb_spec name "CRYO"); [left; auto|].
  destruct (String.eqb_spec name "VOWI"); [left; auto|]. right. auto.
Qed.

End Stations.
