(* ===== verification/Probe.v ===== *)
(** * The stream probe script: [src/radio/test_streams.py]

    For each of five SomaFM stations the script tries every variant
    [<protocol>://<ice>.somafm.com/<station>-<format>], protocols [http]
    then [https], servers [ice2], [ice4], [ice6], four formats, with
    [test_url]: one streaming GET with a 5 s timeout, the first chunk of at
    most 1024 bytes, success when the status is 200 and that chunk is
    non-empty, failure on any exception.  The working variants of each
    station are collected in order.

    The GET is a request of the free monad [io] whose answer is the status,
    the [content-type] header, the first chunk ([None] when the body is
    empty), or an exception with its message.  The console output is the
    list of printed lines; [str.upper] is modelled on ASCII, which is all
    the script applies it to. *)

From stdpp Require Import base list strings pretty.
From Stdlib Require Import Ascii.
From S2P Require Import Prelude PyString.

Module Probe.
Local Open Scope io_scope.

Record probe_request := mk_probe {
  probe_url : string;
  probe_timeout : nat
}.

Inductive probe_outcome :=
  | Streamed (status : nat) (content_type : option string) (first_chunk : option (list Byte.byte))
  | Raised (message : string).

Abbreviation probe_io := (io probe_request probe_outcome).

Definition stations_to_test : list string :=
  ["groovesalad"; "dronezone"; "deepspaceone"; "secretagent"; "lush"].
Definition ice_servers : list string := ["ice2"; "ice4"; "ice6"].
Definition protocols : list string := ["http"; "https"].
Definition formats : list (string * string) :=
  [("256-mp3", "MP3 256k"); ("128-mp3", "MP3 128k"); ("128-aac", "AAC 128k");
   ("64-aacp", "AAC+ 64k")].

(** [(protocol, ice, fmt_code, fmt_name)], in the order of the three nested
    loops (lines 59-61). *)
Definition variant := (string * string * string * string)%type.

Definition variants : list variant :=
  protocols ≫= (fun p => ice_servers ≫= (fun i =>
    map (fun f => (p, i, fst f, snd f)) formats)).

(** Line 62. *)
Definition variant_url (station : string) (v : variant) : string :=
  let '(p, i, code, _) := v in
  p +:+ "://" +:+ i +:+ ".somafm.com/" +:+ station +:+ "-" +:+ code.

Definition chunk_ok (c : option (list Byte.byte)) : bool :=
  match c with Some (_ :: _) => true | _ => false end.

(** [str.upper] on ASCII. *)
Definition upper_char (c : ascii) : ascii :=
  let n := nat_of_ascii c in if (97 <=? n) && (n <=? 122) then ascii_of_nat (n - 32) else c.

Fixpoint upper (s : string) : string :=
  match s with EmptyString => EmptyString | String c r => String (upper_char c) (upper r) end.

(** [f"{s:n}"] for a string and [f"{k:n}"] for an integer. *)
Definition ljust (n : nat) (s : string) : string :=
  s +:+ String.concat "" (repeat " " (n - String.length s)).
Definition rjust_nat (n k : nat) : string :=
  let d := pretty k in String.concat "" (repeat " " (n - String.length d)) +:+ d.

Definition rule (c : string) : string := String.concat "" (repeat c 100).

(** [test_url(name, url)] (lines 9-26): the verdict and the line printed. *)
Definition test_url (name url : string) : probe_io (bool * string) :=
  Call (mk_probe url 5) (fun o =>
    match o with
    | Streamed status ctype chunk =>
        if (status =? 200) && chunk_ok chunk then
          Ret (true, "✓ " +:+ ljust 40 name +:+ " | " +:+ ljust 20 (default "unknown" ctype)
                     +:+ " | " +:+ rjust_nat 4 (length (default [] chunk)) +:+ " bytes")
        else Ret (false, "✗ " +:+ ljust 40 name +:+ " | Status: " +:+ pretty status)
    | Raised msg => Ret (false, "✗ " +:+ ljust 40 name +:+ " | " +:+ String.substring 0 50 msg)
    end).

(** Line 63: the label of a variant. *)
Definition variant_name (v : variant) : string :=
  let '(p, i, _, fname) := v in "  " +:+ upper p +:+ " " +:+ i +:+ " " +:+ fname.

(** The inner loops for one station (lines 59-65): the working variants
    and the lines printed. *)
Fixpoint probe_variants (station : string) (vs : list variant)
    : probe_io (list variant * list string) :=
  match vs with
  | [] => Ret ([], [])
  | v :: vs' =>
      let* r := test_url (variant_name v) (variant_url station v) in
      let* rest := probe_variants station vs' in
      Ret (if fst r then v :: fst rest else fst rest, snd r :: snd rest)
  end.

(** The outer loop (lines 55-65): [results] as an association list in
    insertion order, the order of the dict, and the lines printed (a blank
    line and the station's name in upper case before its variants). *)
Fixpoint probe_stations (ss : list string)
    : probe_io (list (string * list variant) * list string) :=
  match ss with
  | [] => Ret ([], [])
  | s :: ss' =>
      let* w := probe_variants s variants in
      let* r := probe_stations ss' in
      Ret ((s, fst w) :: fst r, ("" :: upper s :: snd w) ++ snd r)
  end.

(** The summary (lines 67-77). *)
Definition summary_lines (results : list (string * list variant)) : list string :=
  ["" ; rule "="; "WORKING VARIANTS SUMMARY"; rule "="] ++
  results ≫= (fun sw =>
    match snd sw with
    | [] => [""; fst sw +:+ ": NO WORKING VARIANTS FOUND"]
    | ws => [""; fst sw +:+ ":"] ++ map (fun v => "  ✓ " +:+ variant_url (fst sw) v) ws
    end).

(** The whole script (lines 28-77): the header, the probes, the summary. *)
Definition script : probe_io (list (string * list variant) * list string) :=
  let* r := probe_stations stations_to_test in
  Ret (fst r,
       [rule "="; "TESTING SOMAFM STREAM VARIANTS"; rule "="; "";
        ljust 60 "URL" +:+ " | " +:+ ljust 20 "Type" +:+ " | Status"; rule "-"]
       ++ snd r ++ summary_lines (fst r)).

(** ** What the script requests and what it reports *)

Definition works (env : probe_request -> probe_outcome) (url : string) : bool :=
  match env (mk_probe url 5) with
  | Streamed status _ chunk => (status =? 200) && chunk_ok chunk
  | Raised _ => false
  end.

Lemma test_url_run env name url : fst (io_run env (test_url name url)) = works env url.
Proof. unfold test_url, works. simpl. destruct (env _) as [st ct ch|m]; [|done]. by destruct (_ && _). Qed.

Lemma test_url_requests env name url : io_requests env (test_url name url) = [mk_probe url 5].
Proof. unfold test_url. simpl. destruct (env _) as [st ct ch|m]; [|done]. by destruct (_ && _). Qed.

Lemma probe_variants_requests env s vs :
  io_requests env (probe_variants s vs) = map (fun v => mk_probe (variant_url s v) 5) vs.
Proof.
  induction vs as [|v vs IH]; [done|]. cbn [probe_variants].
  rewrite io_requests_bind, io_requests_bind, IH, test_url_requests.
  cbn [io_requests]. by rewrite app_nil_r.
Qed.

Lemma probe_variants_run env s vs :
  fst (io_run env (probe_variants s vs)) = List.filter (fun v => works env (variant_url s v)) vs.
Proof.
  induction vs as [|v vs IH]; [done|]. cbn [probe_variants List.filter].
  rewrite io_run_bind, io_run_bind. cbn [io_run fst]. rewrite IH, test_url_run.
  by destruct (works env _).
Qed.

(** The script requests every variant of every station exactly once, in
    loop order, and reports for each station exactly the variants whose
    probe succeeded, in the same order. *)
Lemma probe_stations_spec env ss :
  io_requests env (probe_stations ss) =
    ss ≫= (fun s => map (fun v => mk_probe (variant_url s v) 5) variants) /\
  fst (io_run env (probe_stations ss)) =
    map (fun s => (s, List.filter (fun v => works env (variant_url s v)) variants)) ss.
Proof.
  induction ss as [|s ss [IHq IHr]]; [done|]. cbn [probe_stations].
  rewrite !io_requests_bind, !io_run_bind, probe_variants_requests. cbn [io_run io_requests fst].
  rewrite probe_variants_run, IHq, IHr, !app_nil_r. split; reflexivity.
Qed.

Definition check_line (l : string) : bool := String.prefix "  ✓ " l.

Lemma check_line_tick x : check_line ("  ✓ " +:+ x) = true.
Proof. apply PyString.prefix_spec. eauto. Qed.

Lemma filter_ticks (f : variant -> string) ws :
  List.filter check_line (map (fun v => "  ✓ " +:+ f v) ws) = map (fun v => "  ✓ " +:+ f v) ws.
Proof. induction ws as [|v ws IH]; [done|]. cbn [map List.filter]. by rewrite check_line_tick, IH. Qed.

Lemma check_line_station s suffix :
  PyString.str_head s <> Some " "%char -> s <> "" -> check_line (s +:+ suffix) = false.
Proof.
  destruct s as [|c r]; [done|]. intros Hc _. unfold check_line. cbn [String.append String.prefix].
  destruct (Ascii.ascii_dec " "%char c) as [<-|]; [done|reflexivity].
Qed.

(** The summary's check-marked lines are exactly the URLs of the working
    variants, station by station, in order. *)
Lemma summary_checks results :
  Forall (fun sw => PyString.str_head (fst sw) <> Some " "%char /\ fst sw <> "") results ->
  List.filter check_line (summary_lines results) =
    results ≫= (fun sw => map (fun v => "  ✓ " +:+ variant_url (fst sw) v) (snd sw)).
Proof.
  intros Hall. unfold summary_lines. rewrite List.filter_app.
  replace (List.filter check_line [""; rule "="; "WORKING VARIANTS SUMMARY"; rule "="])
    with (@nil string) by (vm_compute; reflexivity). cbn [app].
  induction Hall as [|[s ws] results [Hh Hne] _ IH]; [done|]. cbn [mbind list_bind fst snd].
  rewrite List.filter_app, IH. f_equal. destruct ws as [|v ws].
  - cbn [List.filter]. change (check_line "") with false.
    by rewrite check_line_station.
  - cbn [List.filter app]. change (check_line "") with false.
    rewrite check_line_station by done. apply (filter_ticks (variant_url s) (v :: ws)).
Qed.

Lemma bind_map {A B C} (f : A -> B) (g : B -> list C) l :
  (map f l) ≫= g = l ≫= (fun x => g (f x)).
Proof. induction l as [|x l IH]; [done|]. cbn [map mbind list_bind]. by rewrite <- IH. Qed.

(** What the script reports: every variant of every station requested once,
    in loop order; the results are exactly the variants whose probe
    succeeded; and the summary's check-marked lines are exactly their
    URLs. *)
Lemma script_spec env :
  let out := io_run env script in
  io_requests env script =
    stations_to_test ≫= (fun s => map (fun v => mk_probe (variant_url s v) 5) variants) /\
  fst out = map (fun s => (s, List.filter (fun v => works env (variant_url s v)) variants))
              stations_to_test /\
  List.filter check_line (summary_lines (fst out)) =
    stations_to_test ≫= (fun s =>
      map (fun v => "  ✓ " +:+ variant_url s v)
          (List.filter (fun v => works env (variant_url s v)) variants)).
Proof.
  destruct (probe_stations_spec env stations_to_test) as [Hq Hr].
  unfold script. rewrite io_run_bind, io_requests_bind. cbn [io_run io_requests fst].
  rewrite Hr, Hq, app_nil_r. split; [done|]. split; [done|].
  rewrite summary_checks.
  - by rewrite bind_map.
  - apply Forall_fmap. repeat constructor; discriminate.
Qed.

End Probe.
