(* ===== verification/RadioApp.v ===== *)
(** * The radio app end to end: button, browser, [/proxy]

    The pieces of [src/radio/main.py] composed: a station button calls
    [playStation(name, '/proxy?url=' + quote(stream_url))] ([RadioPage]),
    the player points a new audio element at that path ([Player]), the
    browser requests it, Starlette routes [/proxy] and reads the [url]
    query parameter ([QueryParams] keeps the last value of a repeated key),
    and [proxy_stream(url)] resolves and relays ([Proxy]).  The app's
    startup ([db = init_db()]) is [Stations.init_db]: on the first start
    every entry of [stations.txt] plays through this chain
    ([first_start_plays]). *)

From stdpp Require Import base list strings.
From Stdlib Require Import Ascii.
From S2P Require Import Prelude PyString Http Playlist Relay Proxy Player RadioPage Stations.

Module RadioApp.
Import PyString RadioPage Proxy.

(** The path part of a request target. *)
Definition route_of (target : string) : string := fst (split_first "?"%char target).

(** [request.query_params[key]]: the last value given for [key]. *)
Definition query_get (key : string) (pairs : list (option string * option string))
    : option string :=
  list.last (omap (fun kv => match kv with
                             | (Some k, Some v) => if String.eqb k key then Some v else None
                             | _ => None
                             end) pairs).

(** [@rt('/proxy') async def proxy_stream(url: str)]: the route and its
    required query parameter; [None] is a request the route does not
    serve (another path, or no [url]). *)
Definition serve_proxy (env : Http.get_request -> Http.get_outcome) (net : origin)
    (target : string) : option (list proxy_event) :=
  if String.eqb (route_of target) "/proxy"
  then proxy_stream env net <$> query_get "url" (parse_qsl (query_of target))
  else None.

(** The page's controls that play through the proxy: a station's button,
    and the custom stream's Play button with what was typed. *)
Inductive page_click :=
  | ClickStation (s : station)
  | ClickCustom (name_value url_value : string).

Definition click_input (c : page_click) : Player.input :=
  match c with
  | ClickStation s => click_station s
  | ClickCustom n u => click_custom n u
  end.

(** The URL the click means to play: the stored or the typed one. *)
Definition click_url (c : page_click) : string :=
  match c with ClickStation s => st_stream_url s | ClickCustom _ u => u end.

Lemma serve_proxy_escaped env net safe u :
  (forall c, safe c = true -> code c < 128 /\ c <> "%"%char /\ c <> "&"%char /\ c <> "+"%char) ->
  serve_proxy env net ("/proxy?url=" +:+ escape safe u) = Some (proxy_stream env net u).
Proof.
  intros Hsafe. unfold serve_proxy.
  change (route_of ("/proxy?url=" +:+ escape safe u)) with "/proxy". cbn [String.eqb].
  change (query_of ("/proxy?url=" +:+ escape safe u)) with ("url=" +:+ escape safe u).
  by rewrite parse_qsl_url_param.
Qed.

(** What a click does, from any player state (the statement of C39). *)
Lemma click_reaches_proxy c p0 env net :
  let p := Player.step (click_input c) p0 in
  exists k e, Player.audio p = Some k /\ Player.elems p !! k = Some e /\
    Player.el_paused e = false /\
    serve_proxy env net (Player.el_src e) = Some (proxy_stream env net (click_url c)) /\
    Forall (fun q => Http.req_url q = click_url c)
      (io_requests env (Playlist.parse_playlist_url (click_url c))).
Proof.
  cbn zeta. destruct c as [s|n u]; cbn [click_input click_url click_station click_custom Player.step].
  - destruct (Player.play_station_current (st_name s) (play_url s) "station-btn" p0)
      as (k & Ha & He).
    eexists k, _. split; [exact Ha|]. split; [exact He|]. split; [done|]. split.
    + apply serve_proxy_escaped, quote_safe_ok.
    + apply parse_playlist_url_requests.
  - destruct (Player.play_station_current (if String.eqb n "" then "Custom Stream" else n)
      ("/proxy?url=" +:+ encode_uri_component u) "custom-play" p0) as (k & Ha & He).
    eexists k, _. split; [exact Ha|]. split; [exact He|]. split; [done|]. split.
    + apply serve_proxy_escaped, uri_component_safe_ok.
    + apply parse_playlist_url_requests.
Qed.

(** C39: composition.  Clicking a station's button or the custom stream's
    Play button, from any player state, makes a new playing element the
    current one, whose source, requested by the browser, is served by
    [/proxy] with exactly the stored or typed URL; the only resolver
    requests are GETs of that URL. *)
Theorem page_click_reaches_proxy c p0 env net :
  let p := Player.step (click_input c) p0 in
  exists k e, Player.audio p = Some k /\ Player.elems p !! k = Some e /\
    Player.el_paused e = false /\
    serve_proxy env net (Player.el_src e) = Some (proxy_stream env net (click_url c)) /\
    Forall (fun q => Http.req_url q = click_url c)
      (io_requests env (Playlist.parse_playlist_url (click_url c))).
Proof. apply click_reaches_proxy. Qed.

(** The radio app's startup (lines 8-10: [db = init_db()]) composed with
    the page and the route: on the first start every entry of
    [stations.txt] has a button on the page whose click, from any player
    state, plays through [/proxy] exactly the entry's URL. *)
Lemma first_start_plays data name url p0 env net :
  (name, url) ∈ data ->
  exists s, s ∈ Stations.init_db None data /\ st_name s = name /\
    station_button s ∈ buttons (get_page (Stations.init_db None data)) /\
    let p := Player.step (click_input (ClickStation s)) p0 in
    exists k e, Player.audio p = Some k /\ Player.elems p !! k = Some e /\
      Player.el_paused e = false /\
      serve_proxy env net (Player.el_src e) = Some (proxy_stream env net url).
Proof.
  intros Hin. set (s := mk_station name (Some url) url (Some (Stations.categorize name))).
  assert (Hs : s ∈ Stations.init_db None data) by (apply Stations.init_db_seeded; eauto).
  exists s. split; [done|]. split; [done|]. split; [by apply list_elem_of_fmap_2|].
  destruct (click_reaches_proxy (ClickStation s) p0 env net) as (k & e & H1 & H2 & H3 & H4 & _).
  eauto 10.
Qed.

(** ** The controls and the player *)

(** The page's static texts are the player's initial ones, and the slider
    starts at the volume a new element gets. *)
Lemma page_controls_initial :
  now_playing_text page_controls = Player.now_playing Player.initial /\
  pause_text page_controls = Player.pause_label Player.initial /\
  slider_value page_controls = 80.
Proof. repeat split. Qed.

(** The slider's position after the user's inputs: it moves only when the
    user drags it ([oninput] is [setVolume(this.value)]). *)
Definition slider_after (ins : list Player.input) : nat :=
  fold_left (fun v i => match i with Player.SetVolume w => w | _ => v end) ins
    (slider_value page_controls).

(** Every [playStation] creates its element at volume 0.8 whatever the
    slider shows: after turning the volume down and switching station the
    new stream plays at 80% under a slider at 30%. *)
Example volume_reset_on_switch :
  let a := mk_station "A" None "http://a/live" None in
  let b := mk_station "B" None "http://b/live" None in
  let ins := [click_station a; Player.SetVolume 30; click_station b] in
  slider_after ins = 30 /\
  (Player.audio (Player.run ins Player.initial) ≫= fun k =>
     Player.elems (Player.run ins Player.initial) !! k) ≫= (fun e => Some (Player.el_volume e))
    = Some 80.
Proof. vm_compute. split; reflexivity. Qed.

End RadioApp.
